(** * camRAT: window capture, ROI resolution and the runtime ROI override

    A shallow embedding of [src/camRAT.py].  Python integers are [Z],
    Python floats are the primitive binary64 [float]s of Rocq, strings are
    [string], dictionaries with a fixed key set are records, exceptions are
    the [Raise] case of a result type, and the module-level globals
    ROI_RUNTIME_MODE / ROI_RUNTIME_ABS / ROI_RUNTIME_REL are an explicit
    state that the request handlers thread. *)

From Stdlib Require Import ZArith Lia List String Ascii Bool Strings.Byte Floats.
From Stdlib Require Import DecimalString DecimalZ.
Import ListNotations.

Local Open Scope string_scope.
Local Open Scope Z_scope.

#[local] Set Warnings "-inexact-float".

(** ** Python layer: exceptions, truthiness, strings, numbers *)

Module Py.

Inductive exn :=
| ValueError (msg : string)
| OverflowError (msg : string)
| RuntimeError (msg : string)
| OtherError (msg : string).

(** [str(e)] for an exception built from one message. *)
Definition str_exn (e : exn) : string :=
  match e with
  | ValueError m | OverflowError m | RuntimeError m | OtherError m => m
  end.

Inductive result (A : Type) :=
| Ok (a : A)
| Raise (e : exn).
Arguments Ok {A} a.
Arguments Raise {A} e.

Definition bind {A B} (r : result A) (k : A -> result B) : result B :=
  match r with
  | Ok a => k a
  | Raise e => Raise e
  end.

(** *** Strings *)

Definition lower_ascii (c : ascii) : ascii :=
  let n := N_of_ascii c in
  if ((65 <=? n) && (n <=? 90))%N then ascii_of_N (n + 32) else c.

Definition upper_ascii (c : ascii) : ascii :=
  let n := N_of_ascii c in
  if ((97 <=? n) && (n <=? 122))%N then ascii_of_N (n - 32) else c.

Fixpoint map_string (f : ascii -> ascii) (s : string) : string :=
  match s with
  | EmptyString => EmptyString
  | String c s' => String (f c) (map_string f s')
  end.

(** [s.lower()] and [s.upper()], on the ASCII letters. *)
Definition lower : string -> string := map_string lower_ascii.
Definition upper : string -> string := map_string upper_ascii.

(** [sub in s] on strings. *)
Fixpoint contains (sub s : string) : bool :=
  String.prefix sub s ||
  match s with
  | EmptyString => false
  | String _ s' => contains sub s'
  end.

(** Truthiness of [None]-or-[str] and the [or] operator on it. *)
Definition truthy (o : option string) : bool :=
  match o with
  | Some s => negb (s =? "")%string
  | None => false
  end.

Definition or_str (o : option string) (d : string) : string :=
  match o with
  | Some s => if (s =? "")%string then d else s
  | None => d
  end.

(** *** Floats *)

(** [min(a, b)] and [max(a, b)] keep the first argument unless the second
    compares strictly smaller (resp. greater). *)
Definition fmin (a b : float) : float := if (b <? a)%float then b else a.
Definition fmax (a b : float) : float := if (a <? b)%float then b else a.

(** Conversion of an [int] operand in mixed arithmetic: the nearest
    double, ties to even; [OverflowError] beyond the double range. *)
Definition float_of_int (z : Z) : result float :=
  match binary_normalize prec emax z 0 false with
  | S754_infinity _ => Raise (OverflowError "int too large to convert to float")
  | s => Ok (SF2Prim s)
  end.

(** [int(f)]: truncation toward zero. *)
Definition int_of_float (f : float) : result Z :=
  match Prim2SF f with
  | S754_nan => Raise (ValueError "cannot convert float NaN to integer")
  | S754_infinity _ =>
      Raise (OverflowError "cannot convert float infinity to integer")
  | S754_zero _ => Ok 0
  | S754_finite s m e => Ok (cond_Zopp s (Z.shiftl (Zpos m) e))
  end.

(** [z * f] and [z + f] with [z] an [int] and [f] a [float]. *)
Definition int_mul_float (z : Z) (f : float) : result float :=
  bind (float_of_int z) (fun zf => Ok (zf * f)%float).

Definition int_add_float (z : Z) (f : float) : result float :=
  bind (float_of_int z) (fun zf => Ok (zf + f)%float).

End Py.

Import Py.

Notation "x <- c1 ;; c2" := (bind c1 (fun x => c2))
  (at level 61, c1 at next level, right associativity).

(** ** Configuration and runtime state *)

Definition AbsROI : Type := Z * Z * Z * Z.
Definition RelROI : Type := float * float * float * float.

(** The module-level constants of the "Config" and "ROI settings" blocks
    that the modelled functions read. *)
Record Config := {
  JPEG_QUALITY : Z;
  WINDOW_TITLE : string;
  ROI_MODE : string;
  ABS_ROI : AbsROI;
  REL_ROI : RelROI;
  ROI_CLAMP : Z
}.

Definition shipped_config : Config := {|
  JPEG_QUALITY := 70;
  WINDOW_TITLE := "DMV-Viewer";
  ROI_MODE := "relative";
  ABS_ROI := (1454, 540, 460, 377);
  REL_ROI := (0.748713, 0.518234, 0.985582, 0.880038)%float;
  ROI_CLAMP := 0
|}.

(** The runtime overrides, mutated by /set_roi. *)
Record State := {
  ROI_RUNTIME_MODE : option string;
  ROI_RUNTIME_ABS : option AbsROI;
  ROI_RUNTIME_REL : option RelROI
}.

Definition initial_state : State := {|
  ROI_RUNTIME_MODE := None;
  ROI_RUNTIME_ABS := None;
  ROI_RUNTIME_REL := None
|}.

(** ** Window lookup *)

(** What the code reads of a pygetwindow window object. *)
Record Window := {
  title : string;
  isMinimized : bool;
  w_left : Z;
  w_top : Z;
  w_right : Z;
  w_bottom : Z
}.

(** The dict returned by [find_window_bbox]. *)
Record WindowBBox := {
  bb_title : string;
  bb_top : Z;
  bb_left : Z;
  bb_width : Z;
  bb_height : Z
}.

(** The ROI dict handed to mss. *)
Record CaptureRect := {
  left : Z;
  top : Z;
  width : Z;
  height : Z
}.

(** pygetwindow's [getWindowsWithTitle]: the open windows, in enumeration
    order, whose upper-cased title contains the upper-cased text. *)
Definition getWindowsWithTitle (desktop : list Window) (text : string)
  : list Window :=
  filter (fun w => contains (upper text) (upper (title w))) desktop.

Definition find_window_bbox (cfg : Config) (desktop : list Window)
  : result WindowBBox :=
  let wins :=
    filter (fun w => contains (WINDOW_TITLE cfg) (title w))
           (getWindowsWithTitle desktop (WINDOW_TITLE cfg)) in
  match wins with
  | [] => Raise (ValueError ("Window '" ++ WINDOW_TITLE cfg ++ "' not found")%string)
  | w :: _ =>
      if isMinimized w
      then Raise (ValueError ("Window '" ++ title w ++ "' is minimized")%string)
      else Ok {| bb_title := title w;
                 bb_top := w_top w;
                 bb_left := w_left w;
                 bb_width := w_right w - w_left w;
                 bb_height := w_bottom w - w_top w |}
  end.

(** ** ROI resolution *)

Definition _roi_from_absolute (bbox : WindowBBox) (abs_roi : AbsROI)
  : CaptureRect :=
  let L := bb_left bbox in
  let T := bb_top bbox in
  let W := bb_width bbox in
  let H := bb_height bbox in
  let '(x, y, w, h) := abs_roi in
  let x := Z.max 0 x in
  let y := Z.max 0 y in
  let w := Z.max 1 (Z.min w (W - x)) in
  let h := Z.max 1 (Z.min h (H - y)) in
  {| left := L + x; top := T + y; width := w; height := h |}.

(** [max(0.0, min(1.0, v))] *)
Definition clamp01 (v : float) : float := fmax 0%float (fmin 1%float v).

(** [int(origin + extent * frac)] *)
Definition scale_to_pixel (origin extent : Z) (frac : float) : result Z :=
  p <- int_mul_float extent frac ;;
  s <- int_add_float origin p ;;
  int_of_float s.

Definition _roi_from_relative (bbox : WindowBBox) (rel_roi : RelROI)
  : result CaptureRect :=
  let L := bb_left bbox in
  let T := bb_top bbox in
  let W := bb_width bbox in
  let H := bb_height bbox in
  let '(l, t, r, b) := rel_roi in
  let l := clamp01 l in
  let t := clamp01 t in
  let r := clamp01 r in
  let b := clamp01 b in
  x0 <- scale_to_pixel L W (fmin l r) ;;
  y0 <- scale_to_pixel T H (fmin t b) ;;
  x1 <- scale_to_pixel L W (fmax l r) ;;
  y1 <- scale_to_pixel T H (fmax t b) ;;
  let w := Z.max 1 (x1 - x0) in
  let h := Z.max 1 (y1 - y0) in
  Ok {| left := x0; top := y0; width := w; height := h |}.

(** The [if ROI_CLAMP > 0:] block of [_apply_roi_to_bbox]. *)
Definition border_clamp (clamp : Z) (roi : CaptureRect) : CaptureRect :=
  if 0 <? clamp
  then {| left := left roi + clamp;
          top := top roi + clamp;
          width := Z.max 1 (width roi - 2 * clamp);
          height := Z.max 1 (height roi - 2 * clamp) |}
  else roi.

(** [(ROI_RUNTIME_MODE or ROI_MODE or "relative").lower()] *)
Definition resolver_mode (cfg : Config) (st : State) : string :=
  lower (or_str (ROI_RUNTIME_MODE st) (or_str (Some (ROI_MODE cfg)) "relative")).

Definition _apply_roi_to_bbox (cfg : Config) (st : State) (bbox : WindowBBox)
  : result CaptureRect :=
  let mode := resolver_mode cfg st in
  roi <- (if (mode =? "absolute")%string
          then
            let abs_roi := match ROI_RUNTIME_ABS st with
                           | Some a => a
                           | None => ABS_ROI cfg
                           end in
            Ok (_roi_from_absolute bbox abs_roi)
          else
            let rel_roi := match ROI_RUNTIME_REL st with
                           | Some r => r
                           | None => REL_ROI cfg
                           end in
            _roi_from_relative bbox rel_roi) ;;
  Ok (border_clamp (ROI_CLAMP cfg) roi).

(** ** Frame grabbing and JPEG encoding

    mss, numpy and OpenCV are outside the repository: the screen grabber,
    the colour conversion and the JPEG encoder are parameters.  An image is
    kept symbolically, as the calls that built it. *)

(** What a view function gives back to Flask: a response, or an exception
    that Flask turns into a 500 reply. *)
Inductive Reply (B : Type) :=
| Respond (status : Z) (body : B)
| Unhandled (e : exn).
Arguments Respond {B} status body.
Arguments Unhandled {B} e.

Definition http_status {B} (r : Reply B) : Z :=
  match r with
  | Respond status _ => status
  | Unhandled _ => 500
  end.

Record RawResponse := {
  data : list byte;
  headers : list (string * string)
}.

(** [r.headers[k] = v] *)
Definition set_header (k v : string) (r : RawResponse) : RawResponse :=
  {| data := data r;
     headers := (k, v) :: filter (fun kv => negb (fst kv =? k)%string)
                                 (headers r) |}.

Definition get_header (k : string) (r : RawResponse) : option string :=
  option_map snd (find (fun kv => (fst kv =? k)%string) (headers r)).

(** [make_response(jpg)] *)
Definition make_response (jpg : list byte) : RawResponse :=
  {| data := jpg;
     headers := [("Content-Type", "text/html; charset=utf-8")] |}.

Definition FONT_HERSHEY_SIMPLEX : Z := 0.

Section Capture.

Variables Sct Shot Raster : Type.
(** [mss.mss()], entered as a context manager. *)
Variable mss_mss : result Sct.
(** [sct.grab(rect)] *)
Variable sct_grab : Sct -> CaptureRect -> result Shot.
(** [cv2.cvtColor(np.array(shot), cv2.COLOR_BGRA2BGR)] *)
Variable cvtColor_BGRA2BGR : Shot -> result Raster.

Inductive Image :=
| Img_bgr (px : Raster)
| Img_zeros (rows cols channels : Z)
| Img_putText (base : Image) (text : string) (org : Z * Z) (fontFace : Z)
              (fontScale : float) (color : Z * Z * Z) (thickness : Z).

(** [cv2.imencode(".jpg", img, [IMWRITE_JPEG_QUALITY, q])]: the success
    flag and the encoded buffer. *)
Variable cv2_imencode_jpg : Image -> Z -> result (bool * list byte).

(** The body of the [try] in [grab_frame]. *)
Definition grab_frame_try (cfg : Config) (st : State)
           (desktop : list Window) (sct : Sct) : result Image :=
  bbox_win <- find_window_bbox cfg desktop ;;
  bbox_roi <- _apply_roi_to_bbox cfg st bbox_win ;;
  shot <- sct_grab sct bbox_roi ;;
  px <- cvtColor_BGRA2BGR shot ;;
  Ok (Img_bgr px).

(** The [except Exception as e] branch of [grab_frame]. *)
Definition error_frame (e : exn) : Image :=
  Img_putText (Img_zeros 480 640 3) (str_exn e) (20, 240)
              FONT_HERSHEY_SIMPLEX 0.7%float (0, 0, 255) 2.

Definition grab_frame (cfg : Config) (st : State)
           (desktop : list Window) (sct : Sct) : Image * option exn :=
  match grab_frame_try cfg st desktop sct with
  | Ok img => (img, None)
  | Raise e => (error_frame e, Some e)
  end.

Definition encode_jpeg (cfg : Config) (img : Image) : result (list byte) :=
  r <- cv2_imencode_jpg img (JPEG_QUALITY cfg) ;;
  let '(ok, jpg) := r in
  if negb ok then Raise (RuntimeError "JPEG encode failed") else Ok jpg.

Definition snapshot (cfg : Config) (st : State) (desktop : list Window)
  : Reply RawResponse :=
  match (sct <- mss_mss ;;
         let '(img, _) := grab_frame cfg st desktop sct in
         encode_jpeg cfg img) with
  | Raise e => Unhandled e
  | Ok jpg =>
      let r := make_response jpg in
      let r := set_header "Content-Type" "image/jpeg" r in
      let r := set_header "Cache-Control"
                 "no-store, no-cache, must-revalidate, max-age=0" r in
      let r := set_header "Pragma" "no-cache" r in
      let r := set_header "Expires" "0" r in
      let r := set_header "Content-Disposition"
                 "inline; filename=snapshot.jpg" r in
      Respond 200 r
  end.

End Capture.

Arguments Img_bgr {Raster} px.
Arguments Img_zeros {Raster} rows cols channels.
Arguments Img_putText {Raster} base text org fontFace fontScale color thickness.
Arguments error_frame {Raster} e.

(** [img.shape] of a symbolic image whose rasters have a known shape. *)
Fixpoint shape {Raster} (raster_shape : Raster -> Z * Z * Z)
         (img : Image Raster) : Z * Z * Z :=
  match img with
  | Img_bgr px => raster_shape px
  | Img_zeros rows cols channels => (rows, cols, channels)
  | Img_putText base _ _ _ _ _ _ => shape raster_shape base
  end.

(** ** The /set_roi and /health views *)

(** [request.args]: the query parameters in order; [get] returns the first
    value of a key. *)
Definition Args : Type := list (string * string).

Definition args_get (args : Args) (k : string) : option string :=
  option_map snd (find (fun kv => (fst kv =? k)%string) args).

(** [str(z)] *)
Definition str_int (z : Z) : string := NilZero.string_of_int (Z.to_int z).

Record SetRoiBody := { ok : bool; message : string }.

Inductive HealthBody :=
| HealthOk (window : string) (window_bbox : Z * Z * Z * Z)
           (roi_bbox : CaptureRect) (mode : string)
           (runtime_abs : option AbsROI) (runtime_rel : option RelROI)
| HealthError (error : string) (window_title : string).

Definition health (cfg : Config) (st : State) (desktop : list Window)
  : Reply HealthBody :=
  match (bbox_win <- find_window_bbox cfg desktop ;;
         bbox_roi <- _apply_roi_to_bbox cfg st bbox_win ;;
         Ok (HealthOk (bb_title bbox_win)
                      (bb_left bbox_win, bb_top bbox_win,
                       bb_width bbox_win, bb_height bbox_win)
                      bbox_roi
                      (or_str (ROI_RUNTIME_MODE st) (ROI_MODE cfg))
                      (ROI_RUNTIME_ABS st)
                      (ROI_RUNTIME_REL st))) with
  | Ok body => Respond 200 body
  | Raise e => Respond 200 (HealthError (str_exn e) (WINDOW_TITLE cfg))
  end.

Section SetRoi.

(** The builtin [float(s)] on a query-string value. *)
Variable float_of_str : string -> result float.
(** [f"{v:.6f}"] *)
Variable format_6f : float -> string.

(** [float(request.args.get(k, d))] with [d] an int literal. *)
Definition float_arg (args : Args) (k : string) (d : Z) : result float :=
  match args_get args k with
  | Some s => float_of_str s
  | None => float_of_int d
  end.

(** [int(float(request.args.get(k, d)))] *)
Definition int_arg (args : Args) (k : string) (d : Z) : result Z :=
  f <- float_arg args k d ;; int_of_float f.

Definition set_roi (st : State) (args : Args) : Reply SetRoiBody * State :=
  let mode := lower (or_str (args_get args "mode") "") in
  if (mode =? "absolute")%string then
    match (x <- int_arg args "x" 0 ;;
           y <- int_arg args "y" 0 ;;
           w <- int_arg args "w" 1 ;;
           h <- int_arg args "h" 1 ;;
           Ok (x, y, w, h)) with
    | Raise e => (Unhandled e, st)
    | Ok (x, y, w, h) =>
        (Respond 200
           {| ok := true;
              message := ("Applied ABS_ROI=(" ++ str_int x ++ "," ++ str_int y
                          ++ "," ++ str_int w ++ "," ++ str_int h ++ ")")%string |},
         {| ROI_RUNTIME_MODE := Some "absolute";
            ROI_RUNTIME_ABS := Some (x, y, w, h);
            ROI_RUNTIME_REL := None |})
    end
  else if (mode =? "relative")%string then
    match (l <- float_arg args "l" 0 ;;
           t <- float_arg args "t" 0 ;;
           r <- float_arg args "r" 1 ;;
           b <- float_arg args "b" 1 ;;
           Ok (l, t, r, b)) with
    | Raise e => (Unhandled e, st)
    | Ok (l, t, r, b) =>
        (Respond 200
           {| ok := true;
              message := ("Applied REL_ROI=(" ++ format_6f l ++ "," ++ format_6f t
                          ++ "," ++ format_6f r ++ "," ++ format_6f b ++ ")")%string |},
         {| ROI_RUNTIME_MODE := Some "relative";
            ROI_RUNTIME_ABS := None;
            ROI_RUNTIME_REL := Some (l, t, r, b) |})
    end
  else
    (Respond 400
       {| ok := false; message := "Specify mode=absolute or mode=relative" |},
     st).

(** The state after a sequence of /set_roi requests. *)
Definition run_set_roi (st : State) (reqs : list Args) : State :=
  fold_left (fun s args => snd (set_roi s args)) reqs st.

End SetRoi.

(** ** Statements of the specification that the code is compared with *)

(** The mode the resolver is said to act on: the runtime override when it
    is set, otherwise the compiled default, lower-cased. *)
Definition effective_mode (cfg : Config) (st : State) : string :=
  lower (if truthy (ROI_RUNTIME_MODE st)
         then match ROI_RUNTIME_MODE st with Some m => m | None => "" end
         else ROI_MODE cfg).

Definition abs_spec_in_use (cfg : Config) (st : State) : AbsROI :=
  match ROI_RUNTIME_ABS st with Some a => a | None => ABS_ROI cfg end.

Definition rel_spec_in_use (cfg : Config) (st : State) : RelROI :=
  match ROI_RUNTIME_REL st with Some r => r | None => REL_ROI cfg end.

(** The open windows whose title contains the configured substring. *)
Definition matching_windows (cfg : Config) (desktop : list Window)
  : list Window :=
  filter (fun w => contains (WINDOW_TITLE cfg) (title w)) desktop.

Definition bbox_of_window (w : Window) : WindowBBox :=
  {| bb_title := title w;
     bb_top := w_top w;
     bb_left := w_left w;
     bb_width := w_right w - w_left w;
     bb_height := w_bottom w - w_top w |}.

Definition NotFound (cfg : Config) : exn :=
  ValueError ("Window '" ++ WINDOW_TITLE cfg ++ "' not found")%string.

Definition Minimized (w : Window) : exn :=
  ValueError ("Window '" ++ title w ++ "' is minimized")%string.

(** The window locator as the specification words it: [NotFound] exactly
    for zero matches, [Minimized] for a sole minimized match, and in every
    other case the bounding box of the first match. *)
Definition locator_as_specified (cfg : Config) (desktop : list Window) : Prop :=
  (find_window_bbox cfg desktop = Raise (NotFound cfg)
   <-> matching_windows cfg desktop = []) /\
  (forall w, matching_windows cfg desktop = [w] -> isMinimized w = true ->
             find_window_bbox cfg desktop = Raise (Minimized w)) /\
  (forall w rest, matching_windows cfg desktop = w :: rest ->
                  ~ (rest = [] /\ isMinimized w = true) ->
                  find_window_bbox cfg desktop = Ok (bbox_of_window w)).

(** The /set_roi error case as the specification words it: a [mode]
    parameter that is missing, or is neither of the two literal strings. *)
Definition mode_parameter_rejected (args : Args) : Prop :=
  match args_get args "mode" with
  | None => True
  | Some m => m <> "absolute" /\ m <> "relative"
  end.

(** The last two characters of a string. *)
Fixpoint last2 (s : string) : option (ascii * ascii) :=
  match s with
  | String a (String b EmptyString) => Some (a, b)
  | String _ s' => last2 s'
  | EmptyString => None
  end.

(** What one /set_roi request leaves in the state. *)
Inductive set_roi_outcome (st : State) (args : Args) (st' : State) : Prop :=
| outcome_absolute (v : AbsROI) :
    lower (or_str (args_get args "mode") "") = "absolute" ->
    st' = {| ROI_RUNTIME_MODE := Some "absolute";
             ROI_RUNTIME_ABS := Some v;
             ROI_RUNTIME_REL := None |} ->
    set_roi_outcome st args st'
| outcome_relative (v : RelROI) :
    lower (or_str (args_get args "mode") "") = "relative" ->
    st' = {| ROI_RUNTIME_MODE := Some "relative";
             ROI_RUNTIME_ABS := None;
             ROI_RUNTIME_REL := Some v |} ->
    set_roi_outcome st args st'
| outcome_unchanged :
    st' = st -> set_roi_outcome st args st'.

(** The invariant of the override slots: at most one is populated, and a
    populated slot agrees with the runtime mode. *)
Definition slots_exclusive (st : State) : Prop :=
  match ROI_RUNTIME_ABS st, ROI_RUNTIME_REL st with
  | Some _, Some _ => False
  | Some _, None => ROI_RUNTIME_MODE st = Some "absolute"
  | None, Some _ => ROI_RUNTIME_MODE st = Some "relative"
  | None, None => True
  end.

(** The /set_roi error case as the specification words it, for one
    request: rejected with status 400 and a failure body, state untouched. *)
Definition set_roi_rejects_as_specified
           (float_of_str : string -> result float) (format_6f : float -> string)
           (st : State) (args : Args) : Prop :=
  mode_parameter_rejected args ->
  exists msg,
    set_roi float_of_str format_6f st args
    = (Respond 400 {| ok := false; message := msg |}, st).

(** The last clause of the override claim as the specification words it,
    for one request and one desktop: once the request has succeeded,
    /health reports the mode and the stored override values; nothing is
    said about the window. *)
Definition health_after_set_roi_as_specified
           (float_of_str : string -> result float) (format_6f : float -> string)
           (cfg : Config) (st : State) (args : Args) (desktop : list Window)
  : Prop :=
  forall body st',
    set_roi float_of_str format_6f st args = (Respond 200 body, st') ->
    exists window window_bbox roi_bbox mode,
      ROI_RUNTIME_MODE st' = Some mode /\
      health cfg st' desktop
      = Respond 200 (HealthOk window window_bbox roi_bbox mode
                              (ROI_RUNTIME_ABS st') (ROI_RUNTIME_REL st')).

(** A [float(s)] that reads the strings of a table and rejects the rest. *)
Definition table_float_of_str (tbl : list (string * float)) (s : string)
  : result float :=
  match find (fun kv => (fst kv =? s)%string) tbl with
  | Some kv => Ok (snd kv)
  | None => Raise (ValueError ("could not convert string to float: " ++ s)%string)
  end.

Definition demo_float_of_str : string -> result float :=
  table_float_of_str
    [("10", 10); ("20.9", 20.9); ("300", 300); ("200", 200);
     ("0.25", 0.25); ("0.5", 0.5); ("0.75", 0.75); ("1.5", 1.5);
     ("nan", nan); ("inf", infinity)]%float.

(** ** Shapes of binary64 values used in the proofs *)

(** A clamped fraction: positive zero, or a positive finite number that is
    at most 1.0. *)
Definition sf_clamped (s : spec_float) : Prop :=
  match s with
  | S754_zero false => True
  | S754_finite false m e => SFleb s (Prim2SF 1%float) = true
  | _ => False
  end.

Definition sf_nonneg (s : spec_float) : Prop :=
  match s with
  | S754_zero false | S754_finite false _ _ => True
  | _ => False
  end.

(** A finite value below [2^k] in magnitude (no infinity, no NaN). *)
Definition sf_mag_le (k : Z) (s : spec_float) : Prop :=
  match s with
  | S754_zero _ => True
  | S754_finite _ m e => Zdigits2 (Zpos m) + e <= k
  | _ => False
  end.

(** Window coordinates that fit a signed 64-bit integer; the coordinates
    an operating system reports are 32-bit. *)
Definition bbox_in_range (bbox : WindowBBox) : Prop :=
  Z.abs (bb_left bbox) < 2 ^ 63 /\ Z.abs (bb_top bbox) < 2 ^ 63 /\
  Z.abs (bb_width bbox) < 2 ^ 63 /\ Z.abs (bb_height bbox) < 2 ^ 63.

(** The relative branch as the specification words it, for the origin of
    the rectangle: [left] and [top] are the numbers
    [windowLeft + windowWidth*min(l,r)] and [windowTop + windowHeight*min(t,b)]
    themselves. *)
Definition relative_origin_as_specified (bbox : WindowBBox) (spec : RelROI)
  : Prop :=
  let '(l, t, r, b) := spec in
  exists rect,
    _roi_from_relative bbox spec = Ok rect /\
    float_of_int (left rect)
    = (p <- int_mul_float (bb_width bbox) (fmin (clamp01 l) (clamp01 r)) ;;
       int_add_float (bb_left bbox) p) /\
    float_of_int (top rect)
    = (p <- int_mul_float (bb_height bbox) (fmin (clamp01 t) (clamp01 b)) ;;
       int_add_float (bb_top bbox) p).

(** ** Concrete inputs used below *)

Definition bbox_800x600 : WindowBBox :=
  {| bb_title := "DMV-Viewer"; bb_top := 50; bb_left := 100;
     bb_width := 800; bb_height := 600 |}.

Definition bbox_3x3 : WindowBBox :=
  {| bb_title := "DMV-Viewer"; bb_top := 0; bb_left := 0;
     bb_width := 3; bb_height := 3 |}.

Definition rect_10x10 : CaptureRect :=
  {| left := 0; top := 0; width := 10; height := 10 |}.

Definition win_minimized : Window :=
  {| title := "DMV-Viewer"; isMinimized := true;
     w_left := -32000; w_top := -32000; w_right := -31840; w_bottom := -31972 |}.

Definition win_visible : Window :=
  {| title := "DMV-Viewer (2)"; isMinimized := false;
     w_left := 100; w_top := 50; w_right := 900; w_bottom := 650 |}.

Definition win_other : Window :=
  {| title := "dmv-viewer notes"; isMinimized := false;
     w_left := 0; w_top := 0; w_right := 640; w_bottom := 480 |}.

(** A [float(s)] that knows no string, and a [format] that prints nothing:
    enough for requests that carry no number. *)
Definition no_float_of_str (s : string) : result float :=
  Raise (ValueError ("could not convert string to float: " ++ s)%string).

Definition no_format_6f (f : float) : string := "".

(** A screen grabber that always fails and an encoder that always
    succeeds with a two-byte buffer. *)
Definition demo_sct_grab (sct : unit) (rect : CaptureRect) : result unit :=
  Raise (OtherError "XGetImage() failed").

Definition demo_cvtColor (shot : unit) : result unit := Ok tt.

Definition demo_imencode (img : Image unit) (quality : Z)
  : result (bool * list byte) :=
  Ok (true, [xff; xd8]).

Definition req_absolute : Args :=
  [("mode", "absolute"); ("x", "10"); ("y", "20.9"); ("w", "300"); ("h", "200")].

Definition req_relative : Args :=
  [("mode", "Relative"); ("l", "0.25"); ("t", "0.5")].

Definition req_uppercase : Args := [("mode", "ABSOLUTE")].

Definition req_unknown : Args := [("mode", "pixels"); ("x", "10")].

(** ** Moving windows, containment and the consistency of the overrides *)

(** Moving a window on the screen, and the same move of a rectangle. *)
Definition move_bbox (dx dy : Z) (bbox : WindowBBox) : WindowBBox :=
  {| bb_title := bb_title bbox;
     bb_top := bb_top bbox + dy;
     bb_left := bb_left bbox + dx;
     bb_width := bb_width bbox;
     bb_height := bb_height bbox |}.

Definition move_rect (dx dy : Z) (r : CaptureRect) : CaptureRect :=
  {| left := left r + dx; top := top r + dy;
     width := width r; height := height r |}.

(** [inner] lies within [outer], as half-open pixel ranges. *)
Definition rect_within (inner outer : CaptureRect) : Prop :=
  left outer <= left inner /\ top outer <= top inner /\
  left inner + width inner <= left outer + width outer /\
  top inner + height inner <= top outer + height outer.

Definition window_rect (bbox : WindowBBox) : CaptureRect :=
  {| left := bb_left bbox; top := bb_top bbox;
     width := bb_width bbox; height := bb_height bbox |}.

(** The three globals agree: no runtime mode and no override, or a mode
    with exactly its own override. *)
Definition state_consistent (st : State) : Prop :=
  match ROI_RUNTIME_MODE st, ROI_RUNTIME_ABS st, ROI_RUNTIME_REL st with
  | None, None, None => True
  | Some m, Some _, None => m = "absolute"
  | Some m, None, Some _ => m = "relative"
  | _, _, _ => False
  end.

(** ** The full-window views and the stream *)

(** [range(start, stop, step)] for a positive [step]. *)
Fixpoint range_loop (fuel : nat) (start stop step : Z) : list Z :=
  match fuel with
  | O => []
  | S fuel' =>
      if start <? stop
      then start :: range_loop fuel' (start + step) stop step
      else []
  end.

Definition py_range (start stop step : Z) : list Z :=
  range_loop (Z.to_nat (stop - start)) start stop step.

(** Drawing calls made on an image after it was grabbed, in the order of
    the calls; like the image itself they are recorded, not rendered.  The
    calls of the grid take their coordinates from the image they draw on;
    those of the ROI outline take theirs from the ROI in force, which a
    request can set to any integer, and OpenCV raises on a coordinate that
    does not fit its C integers. *)
Inductive Stroke :=
| cv2_line (pt1 pt2 : Z * Z) (color : Z * Z * Z) (thickness : Z)
| cv2_putText (text : string) (org : Z * Z) (fontFace : Z)
              (fontScale : float) (color : Z * Z * Z) (thickness : Z)
| cv2_rectangle (pt1 pt2 : Z * Z) (color : Z * Z * Z) (thickness : Z).

(** [step = max(50, min(200, w // 12))] *)
Definition grid_step (w : Z) : Z := Z.max 50 (Z.min 200 (w / 12)).

(** The two [for] loops of [snapshot_grid]. *)
Definition grid_strokes (h w : Z) : list Stroke :=
  let step := grid_step w in
  (flat_map (fun x =>
               [cv2_line (x, 0) (x, h) (255, 255, 255) 1;
                cv2_putText (str_int x) (x + 3, 20) FONT_HERSHEY_SIMPLEX
                            0.6%float (255, 255, 255) 1])
            (py_range 0 w step)
   ++
   flat_map (fun y =>
               [cv2_line (0, y) (w, y) (255, 255, 255) 1;
                cv2_putText (str_int y) (3, y + 20) FONT_HERSHEY_SIMPLEX
                            0.6%float (255, 255, 255) 1])
            (py_range 0 h step))%list.

(** The second [try] of [snapshot_grid] with its [except Exception: pass]:
    the strokes of the ROI outline that end up on the image, in
    window-local coordinates.  [cv2_draw] is OpenCV accepting a drawing
    call or raising on it; whatever raises inside the [try] ends it, and
    what was drawn before stays on the image. *)
Definition roi_outline (cv2_draw : Stroke -> result unit)
           (cfg : Config) (st : State) (desktop : list Window)
  : list Stroke :=
  match find_window_bbox cfg desktop with
  | Raise _ => []
  | Ok bbox_win =>
      match _apply_roi_to_bbox cfg st bbox_win with
      | Raise _ => []
      | Ok roi =>
          let winL := bb_left bbox_win in
          let winT := bb_top bbox_win in
          let x := left roi - winL in
          let y := top roi - winT in
          let ww := width roi in
          let hh := height roi in
          let rectangle :=
            cv2_rectangle (x, y) (x + ww, y + hh) (0, 255, 0) 2 in
          let label :=
            cv2_putText ("ROI " ++ str_int ww ++ "x" ++ str_int hh)
                        (x, Z.max 0 (y - 10)) FONT_HERSHEY_SIMPLEX
                        0.6%float (0, 255, 0) 2 in
          match cv2_draw rectangle with
          | Raise _ => []
          | Ok _ =>
              match cv2_draw label with
              | Raise _ => [rectangle]
              | Ok _ => [rectangle; label]
              end
          end
      end
  end.

(** [b"\r\n"] *)
Definition CRLF : string := String "013" (String "010" EmptyString).

(** The multipart chunk that [mjpeg_generator] yields for one frame. *)
Definition mjpeg_part (frame : list byte) : list byte :=
  (list_byte_of_string
     ("--frame" ++ CRLF ++
      "Content-Type: image/jpeg" ++ CRLF ++
      "Cache-Control: no-cache, no-store, must-revalidate" ++ CRLF ++
      "Pragma: no-cache" ++ CRLF ++
      "Expires: 0" ++ CRLF ++
      "Content-Length: ")
   ++ list_byte_of_string (str_int (Z.of_nat (List.length frame)))
   ++ list_byte_of_string (CRLF ++ CRLF)
   ++ frame
   ++ list_byte_of_string CRLF)%list.

(** What one turn of the generator's loop does, as seen from outside. *)
Inductive Event :=
| Log_warning (msg : string)
| Log_error (msg : string)
| Yield (chunk : list byte)
| Sleep (seconds : float).

(** What one turn of the loop reads from its environment: the runtime
    globals and the open windows when the frame is grabbed, and the two
    readings of the clock. *)
Record Tick := {
  tick_state : State;
  tick_desktop : list Window;
  tick_t0 : float;
  tick_t1 : float
}.

(** [frame_interval = 1.0 / max(FPS, 1)] *)
Definition frame_interval (FPS : Z) : result float :=
  d <- float_of_int (Z.max FPS 1) ;; Ok (1 / d)%float.

Definition yields (events : list Event) : list (list byte) :=
  flat_map (fun ev => match ev with Yield chunk => [chunk] | _ => [] end)
           events.

Section FullWindow.

Variables Sct Shot Raster : Type.
Variable mss_mss : result Sct.
Variable sct_grab : Sct -> CaptureRect -> result Shot.
Variable cvtColor_BGRA2BGR : Shot -> result Raster.
Variable cv2_imencode_jpg : Image Raster -> Z -> result (bool * list byte).
(** [img.shape] of a converted screenshot. *)
Variable raster_shape : Raster -> Z * Z * Z.

(** An image with the drawing calls made on it. *)
Record Canvas := {
  canvas_base : Image Raster;
  canvas_strokes : list Stroke
}.

(** [cv2.imencode] on an image that was drawn on. *)
Variable cv2_imencode_canvas : Canvas -> Z -> result (bool * list byte).
(** [cv2.rectangle] and [cv2.putText] of the ROI outline. *)
Variable cv2_draw : Stroke -> result unit.

Definition grab_full_window (cfg : Config) (desktop : list Window) (sct : Sct)
  : result (Image Raster * WindowBBox) :=
  bbox_win <- find_window_bbox cfg desktop ;;
  shot <- sct_grab sct (window_rect bbox_win) ;;
  px <- cvtColor_BGRA2BGR shot ;;
  Ok (Img_bgr px, bbox_win).

Definition full_window_jpg (cfg : Config) (desktop : list Window)
  : Reply RawResponse :=
  match (sct <- mss_mss ;;
         r <- grab_full_window cfg desktop sct ;;
         let '(img, _) := r in
         encode_jpeg Raster cv2_imencode_jpg cfg img) with
  | Raise e => Unhandled e
  | Ok jpg =>
      let r := make_response jpg in
      let r := set_header "Content-Type" "image/jpeg" r in
      let r := set_header "Cache-Control"
                 "no-store, no-cache, must-revalidate, max-age=0" r in
      Respond 200 r
  end.

(** [encode_jpeg] on the drawn-over image of [snapshot_grid]. *)
Definition encode_jpeg_canvas (cfg : Config) (img : Canvas)
  : result (list byte) :=
  r <- cv2_imencode_canvas img (JPEG_QUALITY cfg) ;;
  let '(ok, jpg) := r in
  if negb ok then Raise (RuntimeError "JPEG encode failed") else Ok jpg.

(** The first [try] of [snapshot_grid] with its [except] branch. *)
Definition snapshot_grid_base (cfg : Config) (st : State)
           (desktop : list Window) : result (Image Raster) :=
  match (sct <- mss_mss ;; grab_full_window cfg desktop sct) with
  | Ok (base, _) => Ok base
  | Raise _ =>
      sct <- mss_mss ;;
      let '(base, _) :=
        grab_frame Sct Shot Raster sct_grab cvtColor_BGRA2BGR
                   cfg st desktop sct in
      Ok base
  end.

Definition snapshot_grid (cfg : Config) (st : State) (desktop : list Window)
  : Reply RawResponse :=
  match (base <- snapshot_grid_base cfg st desktop ;;
         let '(h, w, _) := shape raster_shape base in
         let outline := roi_outline cv2_draw cfg st desktop in
         encode_jpeg_canvas cfg
           {| canvas_base := base;
              canvas_strokes := (grid_strokes h w ++ outline)%list |}) with
  | Raise e => Unhandled e
  | Ok jpg =>
      let r := make_response jpg in
      let r := set_header "Content-Type" "image/jpeg" r in
      let r := set_header "Cache-Control"
                 "no-store, no-cache, must-revalidate, max-age=0" r in
      Respond 200 r
  end.

(** One turn of the [while True] loop of [mjpeg_generator]. *)
Definition mjpeg_iteration (cfg : Config) (frame_interval : float)
           (sct : Sct) (tk : Tick) : list Event :=
  let '(img, err) :=
    grab_frame Sct Shot Raster sct_grab cvtColor_BGRA2BGR
               cfg (tick_state tk) (tick_desktop tk) sct in
  ((match err with
    | Some e => [Log_warning ("Frame error: " ++ str_exn e)]
    | None => []
    end)
   ++
   match encode_jpeg Raster cv2_imencode_jpg cfg img with
   | Raise e => [Log_error ("JPEG encode error: " ++ str_exn e);
                 Sleep 0.2%float]
   | Ok frame =>
       Yield (mjpeg_part frame)
       :: (let dt := (tick_t1 tk - tick_t0 tk)%float in
           if (dt <? frame_interval)%float
           then [Sleep (frame_interval - dt)%float]
           else [])
   end)%list.

(** The generator run for as many turns as there are [ticks]. *)
Definition mjpeg_generator (FPS : Z) (cfg : Config) (ticks : list Tick)
  : result (list Event) :=
  frame_interval <- frame_interval FPS ;;
  sct <- mss_mss ;;
  Ok (flat_map (mjpeg_iteration cfg frame_interval sct) ticks).

End FullWindow.

Arguments canvas_base {Raster} c.
Arguments canvas_strokes {Raster} c.

(** A window moved on the screen. *)
Definition move_window (dx dy : Z) (w : Window) : Window :=
  {| title := title w; isMinimized := isMinimized w;
     w_left := w_left w + dx; w_top := w_top w + dy;
     w_right := w_right w + dx; w_bottom := w_bottom w + dy |}.

Definition is_digit (b : byte) : bool :=
  let n := Byte.to_N b in ((48 <=? n) && (n <=? 57))%N.

Definition demo_imencode_canvas (img : Canvas unit) (quality : Z)
  : result (bool * list byte) :=
  Ok (true, [xff; xd8; xff; xd9]).

(** A drawing call that refuses coordinates outside the 32-bit range. *)
Definition fits_c_int (p : Z * Z) : bool :=
  (- 2 ^ 31 <=? fst p) && (fst p <? 2 ^ 31) &&
  (- 2 ^ 31 <=? snd p) && (snd p <? 2 ^ 31).

Definition demo_cv2_draw (s : Stroke) : result unit :=
  let points := match s with
                | cv2_line pt1 pt2 _ _ => [pt1; pt2]
                | cv2_putText _ org _ _ _ _ => [org]
                | cv2_rectangle pt1 pt2 _ _ => [pt1; pt2]
                end in
  if forallb fits_c_int points then Ok tt
  else Raise (OtherError "Can't parse the point").

(** The value [m * 2^e] counted in units of [2^-K]; exact for [-K <= e]. *)
Definition units (K m e : Z) : Z := m * 2 ^ (e + K).

(** A right shift lost nothing: neither the round bit nor the sticky bit
    is set. *)
Definition shr_inexact (mrs : shr_record) : bool := shr_r mrs || shr_s mrs.

(** [mrs'] is [mrs] shifted right by [n] binary digits. *)
Definition shifted (n : Z) (mrs mrs' : shr_record) : Prop :=
  0 <= shr_m mrs' /\
  shr_m mrs' = shr_m mrs / 2 ^ n /\
  (shr_inexact mrs' = false
   <-> shr_inexact mrs = false /\ shr_m mrs mod 2 ^ n = 0).

(** A number [b * 2^k] that binary64 represents without rounding. *)
Definition representable (b k : Z) : Prop :=
  0 <= b < 2 ^ 53 /\ emin <= k.

(** Signed version: [|b| * 2^k] is representable. *)
Definition srepresentable (b k : Z) : Prop :=
  Z.abs b < 2 ^ 53 /\ emin <= k.

(** What [binary_round_aux] builds from the rounded mantissa and exponent. *)
Definition round_result (sx : bool) (m3 e3 : Z) : spec_float :=
  match m3 with
  | 0 => S754_zero sx
  | Zpos p => if e3 <=? emax - prec then S754_finite sx p e3
              else S754_infinity sx
  | Zneg _ => S754_nan
  end.

(** The value of a finite number in units of [2^-K]. *)
Definition sf_units (K : Z) (s : spec_float) : Z :=
  match s with
  | S754_finite sg m e => cond_Zopp sg (units K (Zpos m) e)
  | _ => 0
  end.

(** A window whose extent is not negative and whose edges are below
    [2^53] in magnitude: its coordinates are doubles. *)
Definition bbox_exact (bbox : WindowBBox) : Prop :=
  0 <= bb_width bbox /\ 0 <= bb_height bbox /\
  Z.abs (bb_left bbox) + bb_width bbox < 2 ^ 53 /\
  Z.abs (bb_top bbox) + bb_height bbox < 2 ^ 53.

(** A relative specification that clamps to the whole window. *)
Definition spans_window (spec : RelROI) : Prop :=
  let '(l, t, r, b) := spec in
  clamp01 l = 0%float /\ clamp01 t = 0%float /\
  clamp01 r = 1%float /\ clamp01 b = 1%float.

(** A configuration whose relative ROI is the whole window. *)
Definition full_roi_config : Config :=
  {| JPEG_QUALITY := 70; WINDOW_TITLE := "DMV-Viewer"; ROI_MODE := "relative";
     ABS_ROI := (1454, 540, 460, 377); REL_ROI := (0, 0, 1, 1)%float;
     ROI_CLAMP := 0 |}.

(** A screen grabber that returns the rectangle it was asked for. *)
Definition echo_sct_grab (sct : unit) (rect : CaptureRect)
  : result CaptureRect := Ok rect.

Definition echo_cvtColor (shot : CaptureRect) : result CaptureRect := Ok shot.

(** * Properties *)

(** ** Strings *)

Lemma prefix_map_string (f : ascii -> ascii) (s t : string) :
  String.prefix s t = true ->
  String.prefix (map_string f s) (map_string f t) = true.
Proof.
  revert t; induction s as [|a s IH]; intros [|b t]; simpl; try easy.
  destruct (ascii_dec a b) as [->|]; [|discriminate].
  intros H. destruct (ascii_dec (f b) (f b)); [auto | congruence].
Qed.

Lemma contains_map_string (f : ascii -> ascii) (s t : string) :
  contains s t = true -> contains (map_string f s) (map_string f t) = true.
Proof.
  induction t as [|b t IH]; simpl; rewrite !orb_true_iff.
  - intros [H|H]; [|discriminate]. left.
    now apply (prefix_map_string f s "").
  - intros [H|H].
    + left. now apply (prefix_map_string f s (String b t)).
    + right. auto.
Qed.

Lemma prefix_split (s t : string) :
  String.prefix s t = true <-> exists post, t = (s ++ post)%string.
Proof.
  revert t; induction s as [|a s IH]; intros t.
  - split; [intros _; now exists t | now destruct t].
  - destruct t as [|b t]; simpl.
    + split; [discriminate | intros [post H]; discriminate].
    + destruct (ascii_dec a b) as [->|Hn].
      * split.
        -- intros H. apply IH in H as [post ->]. now exists post.
        -- intros [post H]. apply IH. exists post. congruence.
      * split; [discriminate | intros [post H]; congruence].
Qed.

(** [sub in s] holds exactly when [s] is [pre ++ sub ++ post]. *)
Lemma contains_split (sub s : string) :
  contains sub s = true <-> exists pre post, s = (pre ++ sub ++ post)%string.
Proof.
  induction s as [|b s IH]; cbn [contains]; rewrite orb_true_iff.
  - split.
    + intros [H|H]; [|discriminate].
      apply prefix_split in H as [post H]. now exists "", post.
    + intros [[|c pre] [post H]]; [|discriminate].
      left. apply prefix_split. now exists post.
  - split.
    + intros [H|H].
      * apply prefix_split in H as [post H]. now exists "", post.
      * apply IH in H as (pre & post & ->). now exists (String b pre), post.
    + intros [[|c pre] [post H]].
      * left. apply prefix_split. now exists post.
      * right. apply IH. exists pre, post. simpl in H. congruence.
Qed.

Lemma last2_app (s : string) (a b : ascii) :
  last2 (s ++ String a (String b EmptyString)) = Some (a, b).
Proof.
  induction s as [|c s IH]; [reflexivity|].
  change (String c s ++ String a (String b ""))%string
    with (String c (s ++ String a (String b ""))).
  revert IH. generalize (s ++ String a (String b ""))%string.
  intros [|x [|y u]]; simpl; intros H; try discriminate; assumption.
Qed.

Lemma append_assoc' (a b c : string) :
  ((a ++ b) ++ c = a ++ (b ++ c))%string.
Proof. induction a; simpl; congruence. Qed.

Lemma last2_framed (pre mid : string) (a b : ascii) (x : string) :
  last2 (pre ++ x ++ mid ++ String a (String b ""))%string = Some (a, b).
Proof. now rewrite <- !append_assoc', last2_app. Qed.

Lemma minimized_is_not_notfound (cfg : Config) (w : Window) :
  Minimized w <> NotFound cfg.
Proof.
  intros H.
  assert (E1 : last2 (str_exn (Minimized w)) = Some ("e", "d")%char)
    by exact (last2_framed "Window '" "' is minimiz" "e" "d" (title w)).
  assert (E2 : last2 (str_exn (NotFound cfg)) = Some ("n", "d")%char)
    by exact (last2_framed "Window '" "' not fou" "n" "d" (WINDOW_TITLE cfg)).
  rewrite H, E2 in E1. discriminate.
Qed.

(** ** Window lookup *)

Lemma filter_filter_implied {A} (p q : A -> bool) (l : list A) :
  (forall x, p x = true -> q x = true) ->
  filter p (filter q l) = filter p l.
Proof.
  intros Hpq. induction l as [|x l IH]; [reflexivity|]. simpl.
  destruct (q x) eqn:Hq; simpl.
  - now rewrite IH.
  - destruct (p x) eqn:Hp; [|assumption].
    apply Hpq in Hp. congruence.
Qed.

(** The case-insensitive pre-filter of pygetwindow never drops a window
    that the case-sensitive test accepts. *)
Lemma wins_are_matching_windows (cfg : Config) (desktop : list Window) :
  filter (fun w => contains (WINDOW_TITLE cfg) (title w))
         (getWindowsWithTitle desktop (WINDOW_TITLE cfg))
  = matching_windows cfg desktop.
Proof.
  apply filter_filter_implied. intros w. apply contains_map_string.
Qed.

Lemma find_window_bbox_cases (cfg : Config) (desktop : list Window) :
  find_window_bbox cfg desktop =
  match matching_windows cfg desktop with
  | [] => Raise (NotFound cfg)
  | w :: _ => if isMinimized w then Raise (Minimized w)
              else Ok (bbox_of_window w)
  end.
Proof.
  unfold find_window_bbox. rewrite wins_are_matching_windows. reflexivity.
Qed.

(** C8 (as amended).  The window locator raises NotFound exactly when no
    open window has a title containing the configured substring
    (case-sensitive substring match); otherwise it looks only at the first
    match in enumeration order: it raises Minimized when that first match is
    minimized, whether or not other windows match as well, and returns the
    bounding box (title, left, top, width, height) of that first match when
    it is not minimized. *)
Theorem find_window_bbox_first_match (cfg : Config) (desktop : list Window) :
  (find_window_bbox cfg desktop = Raise (NotFound cfg)
   <-> forall w, In w desktop -> contains (WINDOW_TITLE cfg) (title w) = false)
  /\
  (forall w : Window,
     contains (WINDOW_TITLE cfg) (title w) = true
     <-> exists pre post,
           title w = (pre ++ WINDOW_TITLE cfg ++ post)%string)
  /\
  (forall before w rest,
     desktop = (before ++ w :: rest)%list ->
     (forall u, In u before -> contains (WINDOW_TITLE cfg) (title u) = false) ->
     contains (WINDOW_TITLE cfg) (title w) = true ->
     find_window_bbox cfg desktop =
       if isMinimized w
       then Raise (Minimized w)
       else Ok {| bb_title := title w;
                  bb_top := w_top w;
                  bb_left := w_left w;
                  bb_width := w_right w - w_left w;
                  bb_height := w_bottom w - w_top w |}).
Proof.
  rewrite find_window_bbox_cases. unfold matching_windows.
  split; [|split].
  - split.
    + intros H w Hin.
      destruct (contains (WINDOW_TITLE cfg) (title w)) eqn:Hc; [|reflexivity].
      assert (Hf : In w (filter (fun w => contains (WINDOW_TITLE cfg) (title w))
                              desktop))
        by (apply filter_In; auto).
      destruct (filter _ desktop) as [|u l]; [contradiction|].
      destruct (isMinimized u); [|discriminate].
      exfalso. apply (minimized_is_not_notfound cfg u). congruence.
    + intros H.
      assert (Hnil : filter (fun w => contains (WINDOW_TITLE cfg) (title w))
                            desktop = []).
      { induction desktop as [|u l IH]; [reflexivity|]. simpl.
        rewrite (H u (or_introl eq_refl)). apply IH.
        intros w Hin. apply H. now right. }
      now rewrite Hnil.
  - intros w. apply contains_split.
  - intros before w rest -> Hbefore Hw.
    rewrite filter_app.
    assert (Hnil : filter (fun w => contains (WINDOW_TITLE cfg) (title w))
                          before = []).
    { induction before as [|u l IH]; [reflexivity|]. simpl.
      rewrite (Hbefore u (or_introl eq_refl)). apply IH.
      intros v Hin. apply Hbefore. now right. }
    rewrite Hnil. simpl. rewrite Hw. reflexivity.
Qed.

Lemma find_window_bbox_first_match_witness :
  find_window_bbox shipped_config [win_other; win_minimized; win_visible]
  = Raise (Minimized win_minimized)
  /\
  find_window_bbox shipped_config [win_other; win_visible; win_minimized]
  = Ok {| bb_title := "DMV-Viewer (2)"; bb_top := 50; bb_left := 100;
          bb_width := 800; bb_height := 600 |}.
Proof.
  split.
  - apply (proj2 (proj2 (find_window_bbox_first_match shipped_config
             [win_other; win_minimized; win_visible]))
             [win_other] win_minimized [win_visible]).
    + reflexivity.
    + intros u [<-|[]]. reflexivity.
    + reflexivity.
  - apply (proj2 (proj2 (find_window_bbox_first_match shipped_config
             [win_other; win_visible; win_minimized]))
             [win_other] win_visible [win_minimized]).
    + reflexivity.
    + intros u [<-|[]]. reflexivity.
    + reflexivity.
Defined.

(** C8, counterexample to the claim as stated: with a minimized first
    match followed by a second, visible match the minimized window is not
    the sole match, so the claim promises the bounding box of the first
    match, while the code raises Minimized. *)
Lemma locator_as_specified_fails :
  ~ locator_as_specified shipped_config [win_minimized; win_visible].
Proof.
  intros (_ & _ & H).
  specialize (H win_minimized [win_visible] eq_refl).
  assert (Hn : ~ ([win_visible] = [] /\ isMinimized win_minimized = true))
    by (intros [E _]; discriminate).
  specialize (H Hn). vm_compute in H. discriminate.
Qed.

(** ** Binary64 facts

    The primitive operations are related to their IEEE-754 specification
    ([SpecFloat]) by the library's [FloatAxioms]; everything below is
    derived from that specification. *)

(** Linear arithmetic with the binary64 parameters unfolded. *)
Ltac b64_lia := unfold emin, SpecFloat.emin, emax, prec; lia.

Create HintDb clamped.

(** *** Comparisons on clamped fractions *)

Lemma Prim2SF_zero : Prim2SF 0%float = S754_zero false.
Proof. vm_compute. reflexivity. Qed.

Lemma Prim2SF_one : Prim2SF 1%float = S754_finite false 4503599627370496 (-52).
Proof. vm_compute. reflexivity. Qed.

Lemma sf_clamped_of_lt (s one : spec_float) :
  SFltb (S754_zero false) s = true -> SFltb s one = true ->
  match s with
  | S754_finite false m e => SFleb s one = true
  | _ => False
  end.
Proof.
  unfold SFltb, SFleb. intros H0 H1.
  destruct s as [[]|[]| |[] m e]; cbn [SFcompare] in H0; try discriminate.
  - destruct one as [[]|[]| |[] m1 e1]; cbn [SFcompare] in H1; discriminate.
  - destruct (SFcompare (S754_finite false m e) one) as [[]|];
      try discriminate; reflexivity.
Qed.

Lemma clamp01_clamped v : sf_clamped (Prim2SF (clamp01 v)).
Proof.
  unfold clamp01, fmax, fmin. rewrite !ltb_spec.
  destruct (SFltb (Prim2SF v) (Prim2SF 1)) eqn:H1.
  - destruct (SFltb (Prim2SF 0) (Prim2SF v)) eqn:H0.
    + rewrite Prim2SF_zero in H0.
      generalize (sf_clamped_of_lt _ _ H0 H1). unfold sf_clamped.
      destruct (Prim2SF v) as [[]|[]| |[] m e]; auto.
    + rewrite Prim2SF_zero. exact I.
  - assert (E : SFltb (Prim2SF 0) (Prim2SF 1) = true) by (vm_compute; reflexivity).
    rewrite E. vm_compute. reflexivity.
Qed.

Lemma sf_clamped_nonneg s : sf_clamped s -> sf_nonneg s.
Proof. destruct s as [[]|[]| |[] m e]; simpl; auto. Qed.

Lemma fmin_clamped a b :
  sf_clamped (Prim2SF a) -> sf_clamped (Prim2SF b) -> sf_clamped (Prim2SF (fmin a b)).
Proof. unfold fmin. now destruct (b <? a)%float. Qed.

Lemma fmax_clamped a b :
  sf_clamped (Prim2SF a) -> sf_clamped (Prim2SF b) -> sf_clamped (Prim2SF (fmax a b)).
Proof. unfold fmax. now destruct (a <? b)%float. Qed.

#[local] Hint Resolve clamp01_clamped sf_clamped_nonneg fmin_clamped fmax_clamped
  : clamped.

(** On clamped fractions [<] is asymmetric and total, so [min] and [max]
    do not depend on the order of their arguments. *)

Lemma SFltb_asym_nonneg (s1 s2 : spec_float) :
  sf_nonneg s1 -> sf_nonneg s2 ->
  SFltb s1 s2 = true -> SFltb s2 s1 = false.
Proof.
  unfold SFltb.
  destruct s1 as [[]|[]| |[] m1 e1], s2 as [[]|[]| |[] m2 e2];
    cbn [sf_nonneg SFcompare]; try contradiction; try discriminate; auto.
  intros _ _. rewrite (Z.compare_antisym e1 e2).
  destruct (e1 ?= e2) eqn:He; cbn [CompOpp]; try discriminate; auto.
  replace (Pos.compare_cont Eq m2 m1) with (CompOpp (Pos.compare_cont Eq m1 m2))
    by apply (Pos.compare_cont_antisym m1 m2 Eq).
  destruct (Pos.compare_cont Eq m1 m2); cbn [CompOpp]; try discriminate; auto.
Qed.

Lemma SFltb_total_nonneg (s1 s2 : spec_float) :
  sf_nonneg s1 -> sf_nonneg s2 ->
  SFltb s1 s2 = false -> SFltb s2 s1 = false -> s1 = s2.
Proof.
  unfold SFltb.
  destruct s1 as [[]|[]| |[] m1 e1], s2 as [[]|[]| |[] m2 e2];
    cbn [sf_nonneg SFcompare]; try contradiction; try discriminate; auto.
  intros _ _. rewrite (Z.compare_antisym e1 e2).
  destruct (e1 ?= e2) eqn:He; cbn [CompOpp]; try discriminate.
  apply Z.compare_eq in He. subst e2.
  replace (Pos.compare_cont Eq m2 m1) with (CompOpp (Pos.compare_cont Eq m1 m2))
    by apply (Pos.compare_cont_antisym m1 m2 Eq).
  destruct (Pos.compare_cont Eq m1 m2) eqn:Hm; cbn [CompOpp]; try discriminate.
  apply Pos.compare_eq in Hm. now subst m2.
Qed.

Lemma fmin_comm_nonneg (a b : float) :
  sf_nonneg (Prim2SF a) -> sf_nonneg (Prim2SF b) -> fmin a b = fmin b a.
Proof.
  intros Ha Hb. unfold fmin. rewrite !ltb_spec.
  destruct (SFltb (Prim2SF b) (Prim2SF a)) eqn:H1.
  - now rewrite (SFltb_asym_nonneg _ _ Hb Ha H1).
  - destruct (SFltb (Prim2SF a) (Prim2SF b)) eqn:H2; [reflexivity|].
    apply Prim2SF_inj. now apply SFltb_total_nonneg.
Qed.

Lemma fmax_comm_nonneg (a b : float) :
  sf_nonneg (Prim2SF a) -> sf_nonneg (Prim2SF b) -> fmax a b = fmax b a.
Proof.
  intros Ha Hb. unfold fmax. rewrite !ltb_spec.
  destruct (SFltb (Prim2SF a) (Prim2SF b)) eqn:H1.
  - now rewrite (SFltb_asym_nonneg _ _ Ha Hb H1).
  - destruct (SFltb (Prim2SF b) (Prim2SF a)) eqn:H2; [reflexivity|].
    apply Prim2SF_inj. symmetry. now apply SFltb_total_nonneg.
Qed.

Lemma roi_from_relative_swap_lr bbox l t r b :
  _roi_from_relative bbox (l, t, r, b) = _roi_from_relative bbox (r, t, l, b).
Proof.
  unfold _roi_from_relative.
  rewrite (fmin_comm_nonneg (clamp01 l) (clamp01 r)),
          (fmax_comm_nonneg (clamp01 l) (clamp01 r));
    auto with clamped.
Qed.

Lemma roi_from_relative_swap_tb bbox l t r b :
  _roi_from_relative bbox (l, t, r, b) = _roi_from_relative bbox (l, b, r, t).
Proof.
  unfold _roi_from_relative.
  rewrite (fmin_comm_nonneg (clamp01 t) (clamp01 b)),
          (fmax_comm_nonneg (clamp01 t) (clamp01 b));
    auto with clamped.
Qed.

(** *** Bit lengths *)

Lemma digits2_pos_size p : digits2_pos p = Pos.size p.
Proof. induction p; simpl; congruence. Qed.

Lemma Zdigits2_log2 m : 0 < m -> Zdigits2 m = Z.log2 m + 1.
Proof.
  destruct m as [|p|p]; try lia. intros _. simpl.
  destruct p; simpl; rewrite ?digits2_pos_size; lia.
Qed.

Lemma Zdigits2_nonneg m : 0 <= Zdigits2 m.
Proof. destruct m; simpl; lia. Qed.

Lemma Zdigits2_le_pow2 m k : 0 <= m -> 0 <= k -> m < 2 ^ k -> Zdigits2 m <= k.
Proof.
  intros Hm Hk Hlt. destruct (Z.eq_dec m 0) as [->|Hn]; [simpl; lia|].
  rewrite Zdigits2_log2 by lia.
  assert (Z.log2 m < k) by (apply Z.log2_lt_pow2; lia). lia.
Qed.

Lemma Zdigits2_lt_pow2 m : 0 <= m -> m < 2 ^ Zdigits2 m.
Proof.
  intros Hm. destruct (Z.eq_dec m 0) as [->|Hn]; [simpl; lia|].
  rewrite Zdigits2_log2 by lia.
  replace (Z.log2 m + 1) with (Z.succ (Z.log2 m)) by lia.
  apply Z.log2_spec. lia.
Qed.

Lemma Zdigits2_mono a b : 0 <= a <= b -> Zdigits2 a <= Zdigits2 b.
Proof.
  intros H. apply Zdigits2_le_pow2; try lia. apply Zdigits2_nonneg.
  pose proof (Zdigits2_lt_pow2 b). lia.
Qed.

Lemma Zdigits2_succ m : 0 <= m -> Zdigits2 (m + 1) <= Zdigits2 m + 1.
Proof.
  intros Hm. pose proof (Zdigits2_nonneg m).
  apply Zdigits2_le_pow2; try lia.
  pose proof (Zdigits2_lt_pow2 m Hm).
  rewrite Z.pow_add_r by lia. lia.
Qed.

Lemma Zdigits2_mul a b : 0 <= a -> 0 <= b -> Zdigits2 (a * b) <= Zdigits2 a + Zdigits2 b.
Proof.
  intros Ha Hb. pose proof (Zdigits2_nonneg a). pose proof (Zdigits2_nonneg b).
  apply Zdigits2_le_pow2; try nia.
  pose proof (Zdigits2_lt_pow2 a Ha). pose proof (Zdigits2_lt_pow2 b Hb).
  rewrite Z.pow_add_r by lia. nia.
Qed.

(** *** Rounding keeps a bounded magnitude

    Through the shifts and the round-to-nearest-even step of
    [binary_round_aux] a mantissa with [Zdigits2 m + e <= k] grows by at
    most one binary digit, so results stay finite while [k] stays below
    the largest exponent. *)

Lemma shr_1_digits mrs :
  0 <= shr_m mrs ->
  0 <= shr_m (shr_1 mrs) /\
  Zdigits2 (shr_m (shr_1 mrs)) = Z.max 0 (Zdigits2 (shr_m mrs) - 1).
Proof.
  destruct mrs as [m r s]. simpl. intros Hm.
  destruct m as [|[p|p|]|p]; cbn [shr_1 shr_m Zdigits2 digits2_pos]; try lia;
    (split; [lia | rewrite ?Pos2Z.inj_succ; lia]).
Qed.

Lemma iter_shr_1_digits p : forall mrs,
  0 <= shr_m mrs ->
  0 <= shr_m (iter_pos shr_1 p mrs) /\
  Zdigits2 (shr_m (iter_pos shr_1 p mrs)) = Z.max 0 (Zdigits2 (shr_m mrs) - Zpos p).
Proof.
  induction p as [p IH|p IH|]; intros mrs Hm; simpl.
  - destruct (shr_1_digits mrs Hm) as [H1 E1].
    destruct (IH _ H1) as [H2 E2]. destruct (IH _ H2) as [H3 E3].
    split; [assumption|]. rewrite E3, E2, E1. lia.
  - destruct (IH _ Hm) as [H2 E2]. destruct (IH _ H2) as [H3 E3].
    split; [assumption|]. rewrite E3, E2. lia.
  - apply shr_1_digits, Hm.
Qed.

Lemma shr_record_of_loc_m m l : shr_m (shr_record_of_loc m l) = m.
Proof. destruct l as [|[]]; reflexivity. Qed.

Lemma shr_fexp_mag m e l k :
  0 <= m -> Zdigits2 m + e <= k -> e <= k -> emin <= k ->
  let '(mrs, e') := shr_fexp prec emax m e l in
  0 <= shr_m mrs /\ e' <= k /\ Zdigits2 (shr_m mrs) + e' <= k.
Proof.
  intros Hm Hd He Hk. unfold shr_fexp, shr.
  pose proof (Zdigits2_nonneg m) as Hd0.
  destruct (fexp prec emax (Zdigits2 m + e) - e) as [|p|p] eqn:Hn;
    rewrite ?shr_record_of_loc_m; try (repeat split; lia).
  destruct (iter_shr_1_digits p (shr_record_of_loc m l)) as [H1 E1].
  { now rewrite shr_record_of_loc_m. }
  rewrite shr_record_of_loc_m in E1. rewrite E1.
  unfold fexp, SpecFloat.emin in Hn. unfold SpecFloat.emin in Hk.
  change IntDef.Z.max with Z.max in Hn. unfold prec, emax in *.
  repeat split; lia.
Qed.

Lemma round_nearest_even_bounds m l :
  0 <= m -> m <= round_nearest_even m l <= m + 1.
Proof.
  intros Hm. destruct l as [|[]]; simpl; try lia.
  destruct (Z.even m); lia.
Qed.

Lemma binary_round_aux_mag sx mx ex lx k :
  0 <= mx -> Zdigits2 mx + ex <= k -> ex <= k ->
  emin <= k -> k + 1 <= emax - prec ->
  sf_mag_le (k + 1) (binary_round_aux prec emax sx mx ex lx).
Proof.
  intros Hm Hd He Hk1 Hk2. unfold binary_round_aux.
  pose proof (shr_fexp_mag mx ex lx k Hm Hd He Hk1) as H1.
  destruct (shr_fexp prec emax mx ex lx) as [mrs' e'].
  destruct H1 as (Hm' & He' & Hd').
  set (mr := round_nearest_even (shr_m mrs') (loc_of_shr_record mrs')).
  assert (Hmr : shr_m mrs' <= mr <= shr_m mrs' + 1)
    by (apply round_nearest_even_bounds, Hm').
  assert (Hdr : Zdigits2 mr + e' <= k + 1).
  { pose proof (Zdigits2_mono mr (shr_m mrs' + 1) ltac:(lia)).
    pose proof (Zdigits2_succ (shr_m mrs') Hm'). lia. }
  assert (Hk1' : emin <= k + 1) by lia.
  pose proof (shr_fexp_mag mr e' loc_Exact (k + 1) ltac:(lia) Hdr ltac:(lia) Hk1') as H2.
  destruct (shr_fexp prec emax mr e' loc_Exact) as [mrs'' e''].
  destruct H2 as (Hm'' & He'' & Hd'').
  destruct (shr_m mrs'') as [|p|p] eqn:Hp; try exact I; try lia.
  assert (e'' <= emax - prec).
  { cbn [Zdigits2] in Hd''. lia. }
  rewrite (proj2 (Z.leb_le _ _) H). exact Hd''.
Qed.

Lemma digits2_pos_iter_xO m d :
  Zpos (digits2_pos (Pos.iter xO m d)) = Zpos (digits2_pos m) + Zpos d.
Proof.
  revert m. induction d using Pos.peano_ind; intros m.
  - cbn [Pos.iter digits2_pos]. lia.
  - rewrite Pos.iter_succ. cbn [digits2_pos]. rewrite Pos2Z.inj_succ, IHd. lia.
Qed.

Lemma shl_align_mag mx ex ex' :
  let '(mz, ez) := shl_align mx ex ex' in
  Zpos (digits2_pos mz) + ez = Zpos (digits2_pos mx) + ex /\ ez <= ex.
Proof.
  unfold shl_align. destruct (ex' - ex) as [|d|d] eqn:Hd; try lia.
  rewrite digits2_pos_iter_xO. lia.
Qed.

Lemma binary_round_mag sx mx ex k :
  Zpos (digits2_pos mx) + ex <= k ->
  emin <= k -> k + 1 <= emax - prec ->
  sf_mag_le (k + 1) (binary_round prec emax sx mx ex).
Proof.
  intros Hd Hk1 Hk2. unfold binary_round.
  pose proof (shl_align_mag mx ex (fexp prec emax (Zpos (digits2_pos mx) + ex))) as H.
  destruct (shl_align _ _ _) as [mz ez]. destruct H as [E Hle].
  apply binary_round_aux_mag; cbn [Zdigits2]; try lia.
Qed.

Lemma binary_normalize_mag z e k :
  Zdigits2 z + e <= k -> e <= k ->
  emin <= k -> k + 1 <= emax - prec ->
  sf_mag_le (k + 1) (binary_normalize prec emax z e false).
Proof.
  intros Hd He Hk1 Hk2. destruct z as [|p|p]; cbn [binary_normalize].
  - exact I.
  - apply binary_round_mag; auto.
  - apply binary_round_mag; auto.
Qed.

(** *** Multiplication, addition and the conversions *)

Lemma sf_mag_le_weaken k k' s : k <= k' -> sf_mag_le k s -> sf_mag_le k' s.
Proof. destruct s; simpl; auto; lia. Qed.

Lemma SFopp_mag k s : sf_mag_le k s -> sf_mag_le k (SFopp s).
Proof. destruct s; simpl; auto. Qed.

Lemma SFmul_mag k1 k2 x y :
  sf_mag_le k1 x -> sf_mag_le k2 y ->
  emin <= k1 + k2 -> k1 + k2 + 1 <= emax - prec ->
  sf_mag_le (k1 + k2 + 1) (SFmul prec emax x y).
Proof.
  intros Hx Hy Hk1 Hk2.
  destruct x as [sx|sx| |sx mx ex], y as [sy|sy| |sy my ey];
    cbn [sf_mag_le] in Hx, Hy; try contradiction; cbn [SFmul]; try exact I.
  pose proof (Zdigits2_mul (Zpos mx) (Zpos my) ltac:(lia) ltac:(lia)) as Hd.
  pose proof (Zdigits2_nonneg (Zpos mx)). pose proof (Zdigits2_nonneg (Zpos my)).
  apply binary_round_aux_mag; rewrite ?Pos2Z.inj_mul; lia.
Qed.

Lemma iter_xO_value m d : Zpos (Pos.iter xO m d) = Zpos m * 2 ^ Zpos d.
Proof.
  induction d using Pos.peano_ind.
  - cbn [Pos.iter]. lia.
  - rewrite Pos.iter_succ, Pos2Z.inj_succ, Z.pow_succ_r by lia.
    rewrite Pos2Z.inj_xO, IHd. lia.
Qed.

Lemma shl_align_value mx ex ez :
  ez <= ex ->
  Zpos (fst (shl_align mx ex ez)) = Zpos mx * 2 ^ (ex - ez).
Proof.
  intros Hle. unfold shl_align.
  destruct (ez - ex) as [|d|d] eqn:Hd; cbn [fst]; try lia.
  - replace (ex - ez) with 0 by lia. lia.
  - replace (ex - ez) with (Zpos d) by lia. apply iter_xO_value.
Qed.

Lemma SFadd_mag k x y :
  sf_mag_le k x -> sf_mag_le k y ->
  emin <= k -> k + 2 <= emax - prec ->
  sf_mag_le (k + 2) (SFadd prec emax x y).
Proof.
  intros Hx Hy Hk1 Hk2.
  destruct x as [sx|sx| |sx mx ex], y as [sy|sy| |sy my ey];
    cbn [sf_mag_le] in Hx, Hy; try contradiction; cbn [SFadd].
  - destruct sx, sy; exact I.
  - cbn [sf_mag_le]. lia.
  - cbn [sf_mag_le]. lia.
  - pose proof (Zdigits2_nonneg (Zpos mx)) as Hnx.
    pose proof (Zdigits2_nonneg (Zpos my)) as Hny.
    pose proof (Zdigits2_lt_pow2 (Zpos mx) ltac:(lia)) as Hbx.
    pose proof (Zdigits2_lt_pow2 (Zpos my) ltac:(lia)) as Hby.
    set (ez := Z.min ex ey).
    rewrite (shl_align_value mx ex ez), (shl_align_value my ey ez) by (unfold ez; lia).
    set (a := Zpos mx * 2 ^ (ex - ez)). set (b := Zpos my * 2 ^ (ey - ez)).
    assert (Ha : 0 <= a < 2 ^ (k - ez)).
    { unfold a. split; [apply Z.mul_nonneg_nonneg; [lia | apply Z.pow_nonneg; lia]|].
      replace (k - ez) with ((k - ex) + (ex - ez)) by lia.
      rewrite Z.pow_add_r by (unfold ez; lia).
      apply Z.mul_lt_mono_pos_r; [apply Z.pow_pos_nonneg; unfold ez; lia|].
      apply Z.lt_le_trans with (1 := Hbx). apply Z.pow_le_mono_r; lia. }
    assert (Hb : 0 <= b < 2 ^ (k - ez)).
    { unfold b. split; [apply Z.mul_nonneg_nonneg; [lia | apply Z.pow_nonneg; lia]|].
      replace (k - ez) with ((k - ey) + (ey - ez)) by lia.
      rewrite Z.pow_add_r by (unfold ez; lia).
      apply Z.mul_lt_mono_pos_r; [apply Z.pow_pos_nonneg; unfold ez; lia|].
      apply Z.lt_le_trans with (1 := Hby). apply Z.pow_le_mono_r; lia. }
    set (sum := cond_Zopp sx a + cond_Zopp sy b).
    assert (Hs : Z.abs sum < 2 ^ (k - ez + 1)).
    { rewrite Z.pow_add_r by (unfold ez; lia). unfold sum, cond_Zopp.
      destruct sx, sy; lia. }
    assert (Hds : Zdigits2 sum <= k - ez + 1).
    { replace (Zdigits2 sum) with (Zdigits2 (Z.abs sum))
        by (destruct sum; reflexivity).
      apply Zdigits2_le_pow2; [lia | unfold ez; lia | exact Hs]. }
    replace (k + 2) with ((k + 1) + 1) by lia.
    apply binary_normalize_mag; unfold ez in *; lia.
Qed.

Lemma SFldexp_mag k s e E :
  sf_mag_le k s -> e <= E -> emin <= k + E -> k + E + 1 <= emax - prec ->
  sf_mag_le (k + E + 1) (SFldexp prec emax s e).
Proof.
  intros Hs He Hk1 Hk2. destruct s as [sx|sx| |sx mx ex];
    cbn [sf_mag_le] in Hs; try contradiction; cbn [SFldexp]; [exact I|].
  apply binary_round_mag; cbn [Zdigits2] in Hs; lia.
Qed.

Lemma of_uint63_mag n : sf_mag_le 64 (Prim2SF (of_uint63 n)).
Proof.
  rewrite of_uint63_spec.
  pose proof (Uint63.to_Z_bounded n) as Hb.
  change 64 with (63 + 1).
  assert (Zdigits2 (Uint63.to_Z n) <= 63).
  { apply Zdigits2_le_pow2; try lia. exact (proj2 Hb). }
  apply binary_normalize_mag; b64_lia.
Qed.

Lemma SF2Prim_mag s E :
  sf_mag_le (E + 1) s -> 0 <= E -> E + 67 <= emax - prec ->
  sf_mag_le (E + 66) (Prim2SF (SF2Prim s)).
Proof.
  intros Hs HE Hk. destruct s as [[]|[]| |sg m e]; cbn [sf_mag_le] in Hs;
    try contradiction.
  1, 2: vm_compute; exact I.
  assert (He : e <= E).
  { pose proof (Zdigits2_nonneg (Zpos m)). cbn [Zdigits2] in *. lia. }
  assert (Hf : sf_mag_le (E + 66)
                 (Prim2SF (Z.ldexp (of_uint63 (Uint63.of_Z (Zpos m))) e))).
  { rewrite Z_ldexp_spec. replace (E + 66) with (64 + (E + 1) + 1) by lia.
    apply SFldexp_mag; try apply of_uint63_mag;
      unfold emin, SpecFloat.emin, emax, prec in *; lia. }
  cbn [SF2Prim]. destruct sg; [|exact Hf].
  rewrite opp_spec. now apply SFopp_mag.
Qed.

Lemma float_of_int_mag z :
  Z.abs z < 2 ^ 63 ->
  exists f, float_of_int z = Ok f /\ sf_mag_le 129 (Prim2SF f).
Proof.
  intros Hz. unfold float_of_int.
  assert (Hd : Zdigits2 z <= 63).
  { replace (Zdigits2 z) with (Zdigits2 (Z.abs z)) by (destruct z; reflexivity).
    apply Zdigits2_le_pow2; [apply Z.abs_nonneg | discriminate | exact Hz]. }
  assert (Hm : sf_mag_le (63 + 1) (binary_normalize prec emax z 0 false)).
  { apply binary_normalize_mag; b64_lia. }
  assert (Hp : sf_mag_le 129 (Prim2SF (SF2Prim (binary_normalize prec emax z 0 false)))).
  { change 129 with (63 + 66). apply SF2Prim_mag; auto; unfold emax, prec; lia. }
  destruct (binary_normalize prec emax z 0 false) as [s|s| |s m e] eqn:E;
    cbn [sf_mag_le] in Hm; try contradiction; eexists; split; try reflexivity; exact Hp.
Qed.

Lemma int_of_float_mag k f :
  sf_mag_le k (Prim2SF f) -> exists z, int_of_float f = Ok z.
Proof.
  unfold int_of_float. destruct (Prim2SF f); cbn [sf_mag_le];
    try contradiction; intros _; eexists; reflexivity.
Qed.

Lemma valid_digits_le_prec sg m e :
  valid_binary (S754_finite sg m e) = true -> Zpos (digits2_pos m) <= prec.
Proof.
  cbn [SpecFloat.valid_binary]. unfold bounded, canonical_mantissa, fexp.
  intros H. apply andb_true_iff in H as [H _]. apply Z.eqb_eq in H.
  change IntDef.Z.max with Z.max in H. lia.
Qed.

Lemma sf_clamped_mag s :
  valid_binary s = true -> sf_clamped s -> sf_mag_le 1 s.
Proof.
  intros Hv Hc.
  destruct s as [[]|[]| |[] m e]; cbn [sf_clamped] in Hc;
    try contradiction; cbn [sf_mag_le]; [exact I|].
  apply valid_digits_le_prec in Hv.
  rewrite Prim2SF_one in Hc. unfold SFleb in Hc. cbn [SFcompare] in Hc.
  cbn [Zdigits2]. unfold prec in Hv.
  destruct (e ?= -52) eqn:He.
  - apply Z.compare_eq in He. subst e.
    destruct (Pos.compare_cont Eq m 4503599627370496) eqn:Hm; try discriminate.
    + apply Pos.compare_eq in Hm. subst m. vm_compute. discriminate.
    + assert (Hlt : (m < 4503599627370496)%positive).
      { unfold Pos.lt, Pos.compare. exact Hm. }
      assert (Zdigits2 (Zpos m) <= 52).
      { apply Pos2Z.pos_lt_pos in Hlt. clear - Hlt.
        apply Zdigits2_le_pow2;
          [apply Pos2Z.is_nonneg | discriminate | exact Hlt]. }
      clear Hm Hlt.
      cbn [Zdigits2] in H. lia.
  - assert (He' : e < -52) by exact He. lia.
  - discriminate.
Qed.

Lemma clamped_float_mag f :
  sf_clamped (Prim2SF f) -> sf_mag_le 1 (Prim2SF f).
Proof. apply sf_clamped_mag, Prim2SF_valid. Qed.

Lemma scale_to_pixel_total origin extent frac :
  Z.abs origin < 2 ^ 63 -> Z.abs extent < 2 ^ 63 ->
  sf_clamped (Prim2SF frac) ->
  exists z, scale_to_pixel origin extent frac = Ok z.
Proof.
  intros Ho He Hf. unfold scale_to_pixel, int_mul_float, int_add_float.
  destruct (float_of_int_mag extent He) as (fe & -> & Hme).
  destruct (float_of_int_mag origin Ho) as (fo & -> & Hmo).
  cbn [bind].
  apply (int_of_float_mag 133).
  rewrite add_spec, mul_spec.
  change 133 with (131 + 2).
  apply SFadd_mag; try (b64_lia).
  - apply sf_mag_le_weaken with (2 := Hmo). lia.
  - change 131 with (129 + 1 + 1).
    apply SFmul_mag; auto using clamped_float_mag;
      b64_lia.
Qed.

(** The relative branch returns for every window whose coordinates fit
    64 bits, whatever the fractions. *)
Lemma roi_from_relative_total bbox spec :
  bbox_in_range bbox -> exists r, _roi_from_relative bbox spec = Ok r.
Proof.
  intros (HL & HT & HW & HH). destruct spec as [[[l t] r] b].
  unfold _roi_from_relative.
  destruct (scale_to_pixel_total (bb_left bbox) (bb_width bbox)
              (fmin (clamp01 l) (clamp01 r)) HL HW) as [x0 ->];
    [auto with clamped|].
  destruct (scale_to_pixel_total (bb_top bbox) (bb_height bbox)
              (fmin (clamp01 t) (clamp01 b)) HT HH) as [y0 ->];
    [auto with clamped|].
  destruct (scale_to_pixel_total (bb_left bbox) (bb_width bbox)
              (fmax (clamp01 l) (clamp01 r)) HL HW) as [x1 ->];
    [auto with clamped|].
  destruct (scale_to_pixel_total (bb_top bbox) (bb_height bbox)
              (fmax (clamp01 t) (clamp01 b)) HT HH) as [y1 ->];
    [auto with clamped|].
  cbn [bind]. eexists. reflexivity.
Qed.

(** ** The relative branch *)

(** How [max(0.0, min(1.0, v))] acts: a number strictly between 0 and 1
    passes unchanged, whatever is not below 1 (NaN included) becomes 1.0,
    and the rest (negative zero included) becomes 0.0. *)
Lemma clamp01_cases (v : float) :
  clamp01 v =
  if (v <? 1)%float then (if (0 <? v)%float then v else 0%float) else 1%float.
Proof.
  unfold clamp01, fmax, fmin. now destruct (v <? 1)%float.
Qed.

Lemma clamp01_idem (v : float) : clamp01 (clamp01 v) = clamp01 v.
Proof.
  rewrite (clamp01_cases v).
  destruct (v <? 1)%float eqn:H1; [|reflexivity].
  destruct (0 <? v)%float eqn:H0; [|reflexivity].
  rewrite clamp01_cases, H1, H0. reflexivity.
Qed.

Lemma clamp01_in_unit (v : float) :
  (0 <=? clamp01 v)%float = true /\ (clamp01 v <=? 1)%float = true.
Proof.
  pose proof (clamp01_clamped v) as Hc. rewrite !leb_spec, Prim2SF_zero.
  destruct (Prim2SF (clamp01 v)) as [[]|[]| |[] m e]; cbn [sf_clamped] in Hc;
    try contradiction; split; try reflexivity; try exact Hc.
Qed.

(** [int(f)] drops the fractional part of the magnitude and keeps the sign. *)
Lemma int_of_float_truncates (f : float) (s : bool) (m : positive) (e : Z) :
  Prim2SF f = S754_finite s m e ->
  int_of_float f =
  Ok (cond_Zopp s (if 0 <=? e then Zpos m * 2 ^ e else Zpos m / 2 ^ (- e))).
Proof.
  intros H. unfold int_of_float. rewrite H. f_equal. f_equal.
  destruct (0 <=? e) eqn:He.
  - apply Z.leb_le in He. now apply Z.shiftl_mul_pow2.
  - apply Z.leb_gt in He. apply Z.shiftl_div_pow2. lia.
Qed.

Lemma roi_from_relative_size (bbox : WindowBBox) (spec : RelROI) (r : CaptureRect) :
  _roi_from_relative bbox spec = Ok r -> 1 <= width r /\ 1 <= height r.
Proof.
  destruct spec as [[[l t] rr] b]. unfold _roi_from_relative.
  destruct (scale_to_pixel _ _ (fmin (clamp01 l) _)) as [x0|]; [|discriminate].
  destruct (scale_to_pixel _ _ (fmin (clamp01 t) _)) as [y0|]; [|discriminate].
  destruct (scale_to_pixel _ _ (fmax (clamp01 l) _)) as [x1|]; [|discriminate].
  destruct (scale_to_pixel _ _ (fmax (clamp01 t) _)) as [y1|]; [|discriminate].
  cbn [bind]. intros H. injection H as <-. cbn [width height]. lia.
Qed.

(** C2 (as amended).  For every window bounding box and every relative ROI
    (left,top,right,bottom), with each fraction clamped into [0,1], the
    relative branch computes, in binary64 arithmetic and truncating toward
    zero, x0 = int(windowLeft + windowWidth*min(left,right)),
    y0 = int(windowTop + windowHeight*min(top,bottom)),
    x1 = int(windowLeft + windowWidth*max(left,right)) and
    y1 = int(windowTop + windowHeight*max(top,bottom)), and returns
    {left = x0, top = y0, width = max(1, x1-x0), height = max(1, y1-y0)};
    it does return for every bounding box whose coordinates fit 64 bits.
    For {left=100, top=50, width=800, height=600} and (0.5,0.5,1.0,1.0)
    the result is {left=500, top=350, width=400, height=300}. *)
Theorem roi_from_relative_truncated_pixels :
  (forall (bbox : WindowBBox) (l t r b : float),
     let cl := clamp01 l in
     let ct := clamp01 t in
     let cr := clamp01 r in
     let cb := clamp01 b in
     ((0 <=? cl) && (cl <=? 1) && (0 <=? ct) && (ct <=? 1) &&
      (0 <=? cr) && (cr <=? 1) && (0 <=? cb) && (cb <=? 1))%float = true
     /\
     _roi_from_relative bbox (l, t, r, b) =
       (x0 <- (p <- int_mul_float (bb_width bbox) (fmin cl cr) ;;
               s <- int_add_float (bb_left bbox) p ;; int_of_float s) ;;
        y0 <- (p <- int_mul_float (bb_height bbox) (fmin ct cb) ;;
               s <- int_add_float (bb_top bbox) p ;; int_of_float s) ;;
        x1 <- (p <- int_mul_float (bb_width bbox) (fmax cl cr) ;;
               s <- int_add_float (bb_left bbox) p ;; int_of_float s) ;;
        y1 <- (p <- int_mul_float (bb_height bbox) (fmax ct cb) ;;
               s <- int_add_float (bb_top bbox) p ;; int_of_float s) ;;
        Ok {| left := x0; top := y0;
              width := Z.max 1 (x1 - x0); height := Z.max 1 (y1 - y0) |})
     /\
     (bbox_in_range bbox ->
      exists rect, _roi_from_relative bbox (l, t, r, b) = Ok rect))
  /\
  (forall (f : float) (s : bool) (m : positive) (e : Z),
     Prim2SF f = S754_finite s m e ->
     int_of_float f =
     Ok (cond_Zopp s (if 0 <=? e then Zpos m * 2 ^ e else Zpos m / 2 ^ (- e))))
  /\
  _roi_from_relative bbox_800x600 (0.5, 0.5, 1, 1)%float
  = Ok {| left := 500; top := 350; width := 400; height := 300 |}.
Proof.
  split; [|split].
  - intros bbox l t r b cl ct cr cb. split; [|split].
    + subst cl ct cr cb.
      destruct (clamp01_in_unit l) as [-> ->], (clamp01_in_unit t) as [-> ->],
               (clamp01_in_unit r) as [-> ->], (clamp01_in_unit b) as [-> ->].
      reflexivity.
    + reflexivity.
    + apply roi_from_relative_total.
  - exact int_of_float_truncates.
  - vm_compute. reflexivity.
Qed.

Lemma roi_from_relative_truncated_pixels_witness :
  exists rect,
    _roi_from_relative bbox_3x3 (0.5, 0.5, 1, 1)%float = Ok rect.
Proof.
  apply (proj2 (proj2 (proj1 roi_from_relative_truncated_pixels
                         bbox_3x3 0.5 0.5 1 1)%float)).
  unfold bbox_in_range, bbox_3x3; cbn; repeat split; reflexivity.
Defined.

(** C2, counterexample to the claim as stated: for a 3x3 window at the
    origin and the relative ROI (0.5,0.5,1.0,1.0) the claim gives
    left = 0 + 3*0.5 = 1.5, while the code returns left = 1. *)
Lemma relative_origin_as_specified_fails :
  ~ relative_origin_as_specified bbox_3x3 (0.5, 0.5, 1, 1)%float.
Proof.
  intros (rect & H & Hl & _).
  vm_compute in H. injection H as <-.
  apply (f_equal (fun x => match x with
                           | Ok v => (v <? 1.25)%float
                           | Raise _ => false
                           end)) in Hl.
  vm_compute in Hl. discriminate.
Qed.

(** C3.  For every window bounding box, relative ROIs that differ only by
    swapping left with right and/or top with bottom resolve to the same
    rectangle; values outside [0,1] are clamped into [0,1] first, so the
    result depends on the clamped fractions only. *)
Theorem roi_from_relative_swap (bbox : WindowBBox) (l t r b : float) :
  _roi_from_relative bbox (r, t, l, b) = _roi_from_relative bbox (l, t, r, b)
  /\
  _roi_from_relative bbox (l, b, r, t) = _roi_from_relative bbox (l, t, r, b)
  /\
  _roi_from_relative bbox (r, b, l, t) = _roi_from_relative bbox (l, t, r, b)
  /\
  _roi_from_relative bbox (clamp01 l, clamp01 t, clamp01 r, clamp01 b)
  = _roi_from_relative bbox (l, t, r, b)
  /\
  ((0 <=? clamp01 l) && (clamp01 l <=? 1) && (0 <=? clamp01 t) && (clamp01 t <=? 1) &&
   (0 <=? clamp01 r) && (clamp01 r <=? 1) && (0 <=? clamp01 b) && (clamp01 b <=? 1))%float
  = true.
Proof.
  repeat split.
  - symmetry. apply roi_from_relative_swap_lr.
  - symmetry. apply roi_from_relative_swap_tb.
  - rewrite (roi_from_relative_swap_lr bbox l t r b). symmetry.
    apply roi_from_relative_swap_tb.
  - unfold _roi_from_relative. now rewrite !clamp01_idem.
  - destruct (clamp01_in_unit l) as [-> ->], (clamp01_in_unit t) as [-> ->],
             (clamp01_in_unit r) as [-> ->], (clamp01_in_unit b) as [-> ->].
    reflexivity.
Qed.

(** Out-of-range fractions, swapped or not, resolve like their clamped,
    ordered counterparts. *)
Example roi_from_relative_swap_out_of_range :
  _roi_from_relative bbox_800x600 (1.5, 2, -0.25, 0.5)%float
  = Ok {| left := 100; top := 350; width := 800; height := 300 |}
  /\
  _roi_from_relative bbox_800x600 (-0.25, 0.5, 1.5, 2)%float
  = Ok {| left := 100; top := 350; width := 800; height := 300 |}
  /\
  _roi_from_relative bbox_800x600 (nan, neg_infinity, infinity, (-0))%float
  = Ok {| left := 900; top := 50; width := 1; height := 1 |}.
Proof. vm_compute. repeat split. Qed.

(** ** The absolute branch and the border clamp *)

(** C1.  For every window bounding box and every absolute ROI (x,y,w,h)
    with x >= 0 and y >= 0, the absolute branch returns
    left = windowLeft + x, top = windowTop + y,
    width = max(1, min(w, windowWidth - x)) and
    height = max(1, min(h, windowHeight - y)). *)
Theorem roi_from_absolute_nonneg_offsets
        (bbox : WindowBBox) (x y w h : Z) :
  0 <= x -> 0 <= y ->
  _roi_from_absolute bbox (x, y, w, h) =
  {| left := bb_left bbox + x;
     top := bb_top bbox + y;
     width := Z.max 1 (Z.min w (bb_width bbox - x));
     height := Z.max 1 (Z.min h (bb_height bbox - y)) |}.
Proof.
  intros Hx Hy. unfold _roi_from_absolute.
  now rewrite (Z.max_r 0 x Hx), (Z.max_r 0 y Hy).
Qed.

Lemma roi_from_absolute_nonneg_offsets_witness :
  _roi_from_absolute bbox_800x600 (700, 0, 460, 377) =
  {| left := 800; top := 50; width := 100; height := 377 |}.
Proof.
  exact (roi_from_absolute_nonneg_offsets bbox_800x600 700 0 460 377
           ltac:(lia) ltac:(lia)).
Defined.

(** Negative offsets are clamped to the window origin first. *)
Lemma roi_from_absolute_neg_offsets (bbox : WindowBBox) (x y w h : Z) :
  x <= 0 -> y <= 0 ->
  _roi_from_absolute bbox (x, y, w, h) =
  {| left := bb_left bbox;
     top := bb_top bbox;
     width := Z.max 1 (Z.min w (bb_width bbox));
     height := Z.max 1 (Z.min h (bb_height bbox)) |}.
Proof.
  intros Hx Hy. unfold _roi_from_absolute.
  rewrite (Z.max_l 0 x Hx), (Z.max_l 0 y Hy). now rewrite !Z.add_0_r, !Z.sub_0_r.
Qed.

Lemma roi_from_absolute_size (bbox : WindowBBox) (a : AbsROI) :
  1 <= width (_roi_from_absolute bbox a) /\
  1 <= height (_roi_from_absolute bbox a).
Proof. destruct a as [[[x y] w] h]. simpl. lia. Qed.

Lemma border_clamp_size (c : Z) (roi : CaptureRect) :
  1 <= width roi -> 1 <= height roi ->
  1 <= width (border_clamp c roi) /\ 1 <= height (border_clamp c roi).
Proof.
  intros Hw Hh. unfold border_clamp. destruct (0 <? c); simpl; lia.
Qed.

Lemma apply_roi_absolute_branch (cfg : Config) (st : State) (bbox : WindowBBox) :
  resolver_mode cfg st = "absolute" ->
  _apply_roi_to_bbox cfg st bbox =
  Ok (border_clamp (ROI_CLAMP cfg)
        (_roi_from_absolute bbox (abs_spec_in_use cfg st))).
Proof.
  intros Hm. unfold _apply_roi_to_bbox. rewrite Hm. reflexivity.
Qed.

Lemma apply_roi_relative_branch (cfg : Config) (st : State) (bbox : WindowBBox) :
  resolver_mode cfg st <> "absolute" ->
  _apply_roi_to_bbox cfg st bbox =
  roi <- _roi_from_relative bbox (rel_spec_in_use cfg st) ;;
  Ok (border_clamp (ROI_CLAMP cfg) roi).
Proof.
  intros Hm. unfold _apply_roi_to_bbox.
  now rewrite (proj2 (String.eqb_neq _ _) Hm).
Qed.

(** C4.  For every resolved rectangle and every clampPixels > 0 the border
    clamp adds clampPixels to left and top and subtracts 2*clampPixels from
    width and height, flooring both at 1; {0,0,10,10} with clampPixels = 3
    becomes {3,3,4,4}, and with clampPixels = 6 width and height are 1.  The
    resolver applies this step to the rectangle of either branch. *)
Theorem border_clamp_shrinks :
  (forall (roi : CaptureRect) (c : Z),
     0 < c ->
     border_clamp c roi =
     {| left := left roi + c;
        top := top roi + c;
        width := Z.max 1 (width roi - 2 * c);
        height := Z.max 1 (height roi - 2 * c) |})
  /\
  border_clamp 3 rect_10x10 = {| left := 3; top := 3; width := 4; height := 4 |}
  /\
  border_clamp 6 rect_10x10 = {| left := 6; top := 6; width := 1; height := 1 |}
  /\
  (forall cfg st bbox,
     resolver_mode cfg st = "absolute" ->
     _apply_roi_to_bbox cfg st bbox =
     Ok (border_clamp (ROI_CLAMP cfg)
           (_roi_from_absolute bbox (abs_spec_in_use cfg st))))
  /\
  (forall cfg st bbox,
     resolver_mode cfg st <> "absolute" ->
     _apply_roi_to_bbox cfg st bbox =
     roi <- _roi_from_relative bbox (rel_spec_in_use cfg st) ;;
     Ok (border_clamp (ROI_CLAMP cfg) roi)).
Proof.
  repeat split.
  - intros roi c Hc. unfold border_clamp.
    now rewrite (proj2 (Z.ltb_lt 0 c) Hc).
  - apply apply_roi_absolute_branch.
  - apply apply_roi_relative_branch.
Qed.

(** Without a positive clamp the rectangle is left as resolved. *)
Lemma border_clamp_off (roi : CaptureRect) (c : Z) :
  c <= 0 -> border_clamp c roi = roi.
Proof.
  intros Hc. unfold border_clamp.
  now rewrite (proj2 (Z.ltb_ge 0 c) Hc).
Qed.

(** ** The full resolver *)

Lemma apply_roi_size (cfg : Config) (st : State) (bbox : WindowBBox)
      (r : CaptureRect) :
  _apply_roi_to_bbox cfg st bbox = Ok r -> 1 <= width r /\ 1 <= height r.
Proof.
  unfold _apply_roi_to_bbox.
  destruct (resolver_mode cfg st =? "absolute")%string.
  - cbn [bind]. intros H. injection H as <-.
    apply border_clamp_size; apply roi_from_absolute_size.
  - destruct (_roi_from_relative bbox _) as [roi|e] eqn:Hr; [|discriminate].
    cbn [bind]. intros H. injection H as <-.
    apply roi_from_relative_size in Hr. now apply border_clamp_size.
Qed.

Lemma apply_roi_total (cfg : Config) (st : State) (bbox : WindowBBox) :
  resolver_mode cfg st = "absolute" \/ bbox_in_range bbox ->
  exists r, _apply_roi_to_bbox cfg st bbox = Ok r.
Proof.
  intros H. unfold _apply_roi_to_bbox.
  destruct (resolver_mode cfg st =? "absolute")%string eqn:Hm.
  - eexists. reflexivity.
  - destruct H as [H|H]; [apply String.eqb_neq in Hm; contradiction|].
    destruct (roi_from_relative_total bbox
                (match ROI_RUNTIME_REL st with
                 | Some r => r
                 | None => REL_ROI cfg
                 end) H) as [roi ->].
    eexists. reflexivity.
Qed.

(** C5.  For every window bounding box, every ROI (absolute or relative,
    out-of-range values included) and every clampPixels value, a capture
    rectangle produced by the full resolver has width >= 1 and
    height >= 1; the resolver does produce one in absolute mode, and in
    relative mode whenever the window coordinates fit 64 bits. *)
Theorem apply_roi_size_invariant (cfg : Config) (st : State) (bbox : WindowBBox) :
  (forall r, _apply_roi_to_bbox cfg st bbox = Ok r ->
             1 <= width r /\ 1 <= height r)
  /\
  (resolver_mode cfg st = "absolute" \/ bbox_in_range bbox ->
   exists r, _apply_roi_to_bbox cfg st bbox = Ok r /\
             1 <= width r /\ 1 <= height r).
Proof.
  split.
  - apply apply_roi_size.
  - intros H. destruct (apply_roi_total cfg st bbox H) as [r Hr].
    exists r. split; [exact Hr|]. now apply apply_roi_size in Hr.
Qed.

Lemma apply_roi_size_invariant_witness :
  exists r,
    _apply_roi_to_bbox
      {| JPEG_QUALITY := 70; WINDOW_TITLE := "DMV-Viewer"; ROI_MODE := "relative";
         ABS_ROI := (0, 0, 10, 10); REL_ROI := (7, -3, nan, 0.5)%float;
         ROI_CLAMP := 500 |}
      initial_state bbox_800x600 = Ok r
    /\ 1 <= width r /\ 1 <= height r.
Proof.
  apply apply_roi_size_invariant. right.
  unfold bbox_in_range, bbox_800x600; cbn; repeat split; reflexivity.
Defined.

(** Beyond the range of a double the relative branch has no rectangle to
    give: the conversion of the window size raises. *)
Example roi_from_relative_beyond_double :
  _roi_from_relative
    {| bb_title := "w"; bb_top := 0; bb_left := 0;
       bb_width := 2 ^ 1024; bb_height := 600 |}
    (0.5, 0.5, 1, 1)%float
  = Raise (OverflowError "int too large to convert to float").
Proof. vm_compute. reflexivity. Qed.

(** ** Mode selection *)

Lemma resolver_mode_absolute_iff (cfg : Config) (st : State) :
  resolver_mode cfg st = "absolute" <-> effective_mode cfg st = "absolute".
Proof.
  unfold resolver_mode, effective_mode, or_str, truthy.
  destruct (ROI_RUNTIME_MODE st) as [m|].
  - destruct (m =? "")%string eqn:Hm; simpl.
    + destruct (ROI_MODE cfg =? "")%string eqn:Hd; [|reflexivity].
      apply String.eqb_eq in Hd. rewrite Hd. split; discriminate.
    + reflexivity.
  - simpl. destruct (ROI_MODE cfg =? "")%string eqn:Hd; [|reflexivity].
    apply String.eqb_eq in Hd. rewrite Hd. split; discriminate.
Qed.

(** C10.  The resolver acts on the runtime-override mode when set,
    otherwise on the compiled default mode, lower-cased; it takes the
    absolute branch exactly when that string is "absolute", and every other
    string, unknown or invalid ones included, takes the relative branch:
    the mode itself never produces an error. *)
Theorem apply_roi_mode_dispatch (cfg : Config) (st : State) (bbox : WindowBBox) :
  effective_mode cfg st =
    lower (match ROI_RUNTIME_MODE st with
           | Some m => if (m =? "")%string then ROI_MODE cfg else m
           | None => ROI_MODE cfg
           end)
  /\
  _apply_roi_to_bbox cfg st bbox =
    (if (effective_mode cfg st =? "absolute")%string
     then Ok (border_clamp (ROI_CLAMP cfg)
                (_roi_from_absolute bbox (abs_spec_in_use cfg st)))
     else roi <- _roi_from_relative bbox (rel_spec_in_use cfg st) ;;
          Ok (border_clamp (ROI_CLAMP cfg) roi)).
Proof.
  split.
  - unfold effective_mode, truthy.
    destruct (ROI_RUNTIME_MODE st) as [m|]; [|reflexivity].
    now destruct (m =? "")%string.
  - destruct (effective_mode cfg st =? "absolute")%string eqn:He.
    + apply String.eqb_eq, resolver_mode_absolute_iff in He.
      now apply apply_roi_absolute_branch.
    + apply String.eqb_neq in He.
      apply apply_roi_relative_branch. now rewrite resolver_mode_absolute_iff.
Qed.

(** An unknown compiled mode resolves, silently, as a relative ROI. *)
Example apply_roi_unknown_mode :
  _apply_roi_to_bbox
    {| JPEG_QUALITY := 70; WINDOW_TITLE := "DMV-Viewer"; ROI_MODE := "Pixels";
       ABS_ROI := (0, 0, 10, 10); REL_ROI := (0.5, 0.5, 1, 1)%float;
       ROI_CLAMP := 0 |}
    initial_state bbox_800x600
  = Ok {| left := 500; top := 350; width := 400; height := 300 |}.
Proof. vm_compute. reflexivity. Qed.

(** ** The /set_roi and /health views *)

Section SetRoiFacts.

Variable float_of_str : string -> result float.
Variable format_6f : float -> string.

Lemma set_roi_outcomes (st : State) (args : Args) :
  set_roi_outcome st args (snd (set_roi float_of_str format_6f st args)).
Proof.
  unfold set_roi.
  destruct (lower (or_str (args_get args "mode") "") =? "absolute")%string eqn:Ha.
  - apply String.eqb_eq in Ha.
    destruct (_ <- int_arg float_of_str args "x" 0 ;; _) as [[[[x y] w] h]|e].
    + now apply (outcome_absolute _ _ _ (x, y, w, h)).
    + now apply outcome_unchanged.
  - destruct (lower (or_str (args_get args "mode") "") =? "relative")%string eqn:Hr.
    + apply String.eqb_eq in Hr.
      destruct (_ <- float_arg float_of_str args "l" 0 ;; _) as [[[[l t] r] b]|e].
      * now apply (outcome_relative _ _ _ (l, t, r, b)).
      * now apply outcome_unchanged.
    + now apply outcome_unchanged.
Qed.

Lemma set_roi_preserves_exclusive (st : State) (args : Args) :
  slots_exclusive st ->
  slots_exclusive (snd (set_roi float_of_str format_6f st args)).
Proof.
  intros Hst. destruct (set_roi_outcomes st args) as [v _ ->|v _ ->| ->];
    [reflexivity | reflexivity | assumption].
Qed.

Lemma run_set_roi_exclusive (reqs : list Args) (st : State) :
  slots_exclusive st ->
  slots_exclusive (run_set_roi float_of_str format_6f st reqs).
Proof.
  revert st. induction reqs as [|args reqs IH]; intros st Hst; [exact Hst|].
  apply IH. now apply set_roi_preserves_exclusive.
Qed.

End SetRoiFacts.

Section SetRoiReplies.

Variable float_of_str : string -> result float.
Variable format_6f : float -> string.

Lemma set_roi_rejects (st : State) (args : Args) :
  lower (or_str (args_get args "mode") "") <> "absolute" ->
  lower (or_str (args_get args "mode") "") <> "relative" ->
  set_roi float_of_str format_6f st args =
  (Respond 400
     {| ok := false; message := "Specify mode=absolute or mode=relative" |},
   st).
Proof.
  intros Ha Hr. unfold set_roi.
  now rewrite (proj2 (String.eqb_neq _ _) Ha), (proj2 (String.eqb_neq _ _) Hr).
Qed.

(** C7 (as amended).  For every /set_roi request whose mode parameter is
    missing, or whose lower-cased mode is neither "absolute" nor
    "relative", the response has HTTP status 400 with a JSON body
    reporting failure, and none of the runtime-override state (mode,
    absolute override, relative override) is modified. *)
Theorem set_roi_rejects_unknown_mode (st : State) (args : Args) :
  (args_get args "mode" = None ->
   set_roi float_of_str format_6f st args =
   (Respond 400
      {| ok := false; message := "Specify mode=absolute or mode=relative" |},
    st))
  /\
  (forall m, args_get args "mode" = Some m ->
   lower m <> "absolute" -> lower m <> "relative" ->
   set_roi float_of_str format_6f st args =
   (Respond 400
      {| ok := false; message := "Specify mode=absolute or mode=relative" |},
    st)).
Proof.
  split.
  - intros Hm. apply set_roi_rejects; rewrite Hm; discriminate.
  - intros m Hm Ha Hr. apply set_roi_rejects; rewrite Hm; unfold or_str;
      destruct (m =? "")%string eqn:He; try assumption;
      apply String.eqb_eq in He; subst m; discriminate.
Qed.

Lemma set_roi_success (st st' : State) (args : Args) (body : SetRoiBody) :
  set_roi float_of_str format_6f st args = (Respond 200 body, st') ->
  (exists x y w h,
     lower (or_str (args_get args "mode") "") = "absolute" /\
     int_arg float_of_str args "x" 0 = Ok x /\
     int_arg float_of_str args "y" 0 = Ok y /\
     int_arg float_of_str args "w" 1 = Ok w /\
     int_arg float_of_str args "h" 1 = Ok h /\
     st' = {| ROI_RUNTIME_MODE := Some "absolute";
              ROI_RUNTIME_ABS := Some (x, y, w, h);
              ROI_RUNTIME_REL := None |})
  \/
  (exists l t r b,
     lower (or_str (args_get args "mode") "") = "relative" /\
     float_arg float_of_str args "l" 0 = Ok l /\
     float_arg float_of_str args "t" 0 = Ok t /\
     float_arg float_of_str args "r" 1 = Ok r /\
     float_arg float_of_str args "b" 1 = Ok b /\
     st' = {| ROI_RUNTIME_MODE := Some "relative";
              ROI_RUNTIME_ABS := None;
              ROI_RUNTIME_REL := Some (l, t, r, b) |}).
Proof.
  unfold set_roi.
  destruct (lower (or_str (args_get args "mode") "") =? "absolute")%string eqn:Ha.
  - apply String.eqb_eq in Ha. left.
    destruct (int_arg float_of_str args "x" 0) as [x|e]; [|discriminate].
    destruct (int_arg float_of_str args "y" 0) as [y|e]; [|discriminate].
    destruct (int_arg float_of_str args "w" 1) as [w|e]; [|discriminate].
    destruct (int_arg float_of_str args "h" 1) as [h|e]; [|discriminate].
    cbn [bind] in H. exists x, y, w, h. repeat split; try assumption.
    congruence.
  - destruct (lower (or_str (args_get args "mode") "") =? "relative")%string eqn:Hr.
    + apply String.eqb_eq in Hr. right.
      destruct (float_arg float_of_str args "l" 0) as [l|e]; [|discriminate].
      destruct (float_arg float_of_str args "t" 0) as [t|e]; [|discriminate].
      destruct (float_arg float_of_str args "r" 1) as [r|e]; [|discriminate].
      destruct (float_arg float_of_str args "b" 1) as [b|e]; [|discriminate].
      cbn [bind] in H. exists l, t, r, b. repeat split; try assumption.
      congruence.
    + discriminate.
Qed.

End SetRoiReplies.

(** C7, counterexample to the claim as stated: the mode "ABSOLUTE" is
    neither "absolute" nor "relative", yet the request is accepted with
    status 200 and the overrides are rewritten. *)
Lemma set_roi_rejects_as_specified_fails :
  ~ set_roi_rejects_as_specified no_float_of_str no_format_6f
      initial_state req_uppercase.
Proof.
  intros H. destruct H as [msg H].
  - split; discriminate.
  - vm_compute in H. discriminate.
Qed.

Lemma set_roi_rejects_unknown_mode_witness :
  set_roi no_float_of_str no_format_6f initial_state req_unknown =
  (Respond 400
     {| ok := false; message := "Specify mode=absolute or mode=relative" |},
   initial_state).
Proof.
  apply (proj2 (set_roi_rejects_unknown_mode no_float_of_str no_format_6f
                  initial_state req_unknown) "pixels");
    [reflexivity | discriminate | discriminate].
Defined.

(** A number that [float] cannot read is an unhandled [ValueError]: Flask
    answers 500, and the overrides stay as they were. *)
Example set_roi_unparsable_number :
  let st := {| ROI_RUNTIME_MODE := Some "relative";
               ROI_RUNTIME_ABS := None;
               ROI_RUNTIME_REL := Some (0.25, 0.5, 1, 1)%float |} in
  let reply := set_roi demo_float_of_str no_format_6f st
                 [("mode", "absolute"); ("x", "10"); ("y", "ten")] in
  http_status (fst reply) = 500 /\ snd reply = st.
Proof. vm_compute. split; reflexivity. Qed.

Lemma health_absolute (cfg : Config) (desktop : list Window)
      (bbox : WindowBBox) (v : AbsROI) :
  find_window_bbox cfg desktop = Ok bbox ->
  health cfg {| ROI_RUNTIME_MODE := Some "absolute";
                ROI_RUNTIME_ABS := Some v;
                ROI_RUNTIME_REL := None |} desktop
  = Respond 200
      (HealthOk (bb_title bbox)
                (bb_left bbox, bb_top bbox, bb_width bbox, bb_height bbox)
                (border_clamp (ROI_CLAMP cfg) (_roi_from_absolute bbox v))
                "absolute" (Some v) None).
Proof. intros H. unfold health. rewrite H. reflexivity. Qed.

Lemma health_relative (cfg : Config) (desktop : list Window)
      (bbox : WindowBBox) (v : RelROI) :
  find_window_bbox cfg desktop = Ok bbox ->
  health cfg {| ROI_RUNTIME_MODE := Some "relative";
                ROI_RUNTIME_ABS := None;
                ROI_RUNTIME_REL := Some v |} desktop
  = match _roi_from_relative bbox v with
    | Ok roi =>
        Respond 200
          (HealthOk (bb_title bbox)
                    (bb_left bbox, bb_top bbox, bb_width bbox, bb_height bbox)
                    (border_clamp (ROI_CLAMP cfg) roi)
                    "relative" None (Some v))
    | Raise e => Respond 200 (HealthError (str_exn e) (WINDOW_TITLE cfg))
    end.
Proof.
  intros H. unfold health. rewrite H. cbn [bind].
  unfold _apply_roi_to_bbox.
  change (resolver_mode cfg _ =? "absolute")%string with false.
  cbn [ROI_RUNTIME_REL ROI_RUNTIME_MODE ROI_RUNTIME_ABS].
  now destruct (_roi_from_relative bbox v).
Qed.

(** A request whose lower-cased mode is "absolute" and whose four numbers
    parse is applied. *)
Lemma set_roi_absolute_applies
      (float_of_str : string -> result float) (format_6f : float -> string)
      (st : State) (args : Args) (x y w h : Z) :
  lower (or_str (args_get args "mode") "") = "absolute" ->
  int_arg float_of_str args "x" 0 = Ok x ->
  int_arg float_of_str args "y" 0 = Ok y ->
  int_arg float_of_str args "w" 1 = Ok w ->
  int_arg float_of_str args "h" 1 = Ok h ->
  set_roi float_of_str format_6f st args
  = (Respond 200
       {| ok := true;
          message := ("Applied ABS_ROI=(" ++ str_int x ++ "," ++ str_int y
                      ++ "," ++ str_int w ++ "," ++ str_int h ++ ")")%string |},
     {| ROI_RUNTIME_MODE := Some "absolute";
        ROI_RUNTIME_ABS := Some (x, y, w, h);
        ROI_RUNTIME_REL := None |}).
Proof.
  intros Hm Hx Hy Hw Hh. unfold set_roi. rewrite Hm, Hx, Hy, Hw, Hh.
  reflexivity.
Qed.

Lemma set_roi_relative_applies
      (float_of_str : string -> result float) (format_6f : float -> string)
      (st : State) (args : Args) (l t r b : float) :
  lower (or_str (args_get args "mode") "") = "relative" ->
  float_arg float_of_str args "l" 0 = Ok l ->
  float_arg float_of_str args "t" 0 = Ok t ->
  float_arg float_of_str args "r" 1 = Ok r ->
  float_arg float_of_str args "b" 1 = Ok b ->
  set_roi float_of_str format_6f st args
  = (Respond 200
       {| ok := true;
          message := ("Applied REL_ROI=(" ++ format_6f l ++ "," ++ format_6f t
                      ++ "," ++ format_6f r ++ "," ++ format_6f b ++ ")")%string |},
     {| ROI_RUNTIME_MODE := Some "relative";
        ROI_RUNTIME_ABS := None;
        ROI_RUNTIME_REL := Some (l, t, r, b) |}).
Proof.
  intros Hm Hl Ht Hr Hb. unfold set_roi. rewrite Hm, Hl, Ht, Hr, Hb.
  reflexivity.
Qed.

(** When the window lookup fails, /health answers with the error payload,
    whatever the runtime state is. *)
Lemma health_lookup_failure (cfg : Config) (st : State)
      (desktop : list Window) (e : exn) :
  find_window_bbox cfg desktop = Raise e ->
  health cfg st desktop
  = Respond 200 (HealthError (str_exn e) (WINDOW_TITLE cfg)).
Proof. intros H. unfold health. rewrite H. reflexivity. Qed.

(** C6 (as amended).  In every state reachable from the initial one by
    /set_roi requests the absolute and the relative override are never both
    populated.  A /set_roi whose lower-cased mode is "absolute" and whose
    four numbers parse is answered 200, stores the absolute override and
    clears the relative one; one whose mode is "relative" and whose four
    fractions parse is answered 200, stores the relative override and
    clears the absolute one; no other request is answered 200.  Afterwards
    /health reports that mode and exactly the stored override values
    whenever the window lookup and the ROI resolution succeed (the
    resolution of a relative override succeeds for every window whose
    coordinates fit 64 bits); when the lookup fails it answers with the
    error payload, which carries neither the mode nor the overrides. *)
Theorem set_roi_overrides_exclusive
        (float_of_str : string -> result float) (format_6f : float -> string) :
  (forall reqs : list Args,
     let st := run_set_roi float_of_str format_6f initial_state reqs in
     ROI_RUNTIME_ABS st = None \/ ROI_RUNTIME_REL st = None)
  /\
  (forall (st : State) (args : Args) (x y w h : Z),
     lower (or_str (args_get args "mode") "") = "absolute" ->
     int_arg float_of_str args "x" 0 = Ok x ->
     int_arg float_of_str args "y" 0 = Ok y ->
     int_arg float_of_str args "w" 1 = Ok w ->
     int_arg float_of_str args "h" 1 = Ok h ->
     set_roi float_of_str format_6f st args
     = (Respond 200
          {| ok := true;
             message := ("Applied ABS_ROI=(" ++ str_int x ++ "," ++ str_int y
                         ++ "," ++ str_int w ++ "," ++ str_int h ++ ")")%string |},
        {| ROI_RUNTIME_MODE := Some "absolute";
           ROI_RUNTIME_ABS := Some (x, y, w, h);
           ROI_RUNTIME_REL := None |}))
  /\
  (forall (st : State) (args : Args) (l t r b : float),
     lower (or_str (args_get args "mode") "") = "relative" ->
     float_arg float_of_str args "l" 0 = Ok l ->
     float_arg float_of_str args "t" 0 = Ok t ->
     float_arg float_of_str args "r" 1 = Ok r ->
     float_arg float_of_str args "b" 1 = Ok b ->
     set_roi float_of_str format_6f st args
     = (Respond 200
          {| ok := true;
             message := ("Applied REL_ROI=(" ++ format_6f l ++ "," ++ format_6f t
                         ++ "," ++ format_6f r ++ "," ++ format_6f b ++ ")")%string |},
        {| ROI_RUNTIME_MODE := Some "relative";
           ROI_RUNTIME_ABS := None;
           ROI_RUNTIME_REL := Some (l, t, r, b) |}))
  /\
  (forall (st st' : State) (args : Args) (body : SetRoiBody),
     set_roi float_of_str format_6f st args = (Respond 200 body, st') ->
     (exists x y w h,
        lower (or_str (args_get args "mode") "") = "absolute" /\
        int_arg float_of_str args "x" 0 = Ok x /\
        int_arg float_of_str args "y" 0 = Ok y /\
        int_arg float_of_str args "w" 1 = Ok w /\
        int_arg float_of_str args "h" 1 = Ok h /\
        st' = {| ROI_RUNTIME_MODE := Some "absolute";
                 ROI_RUNTIME_ABS := Some (x, y, w, h);
                 ROI_RUNTIME_REL := None |})
     \/
     (exists l t r b,
        lower (or_str (args_get args "mode") "") = "relative" /\
        float_arg float_of_str args "l" 0 = Ok l /\
        float_arg float_of_str args "t" 0 = Ok t /\
        float_arg float_of_str args "r" 1 = Ok r /\
        float_arg float_of_str args "b" 1 = Ok b /\
        st' = {| ROI_RUNTIME_MODE := Some "relative";
                 ROI_RUNTIME_ABS := None;
                 ROI_RUNTIME_REL := Some (l, t, r, b) |}))
  /\
  (forall (cfg : Config) (desktop : list Window) (v : AbsROI),
     health cfg {| ROI_RUNTIME_MODE := Some "absolute";
                   ROI_RUNTIME_ABS := Some v;
                   ROI_RUNTIME_REL := None |} desktop
     = match find_window_bbox cfg desktop with
       | Ok bbox =>
           Respond 200
             (HealthOk (bb_title bbox)
                       (bb_left bbox, bb_top bbox, bb_width bbox, bb_height bbox)
                       (border_clamp (ROI_CLAMP cfg) (_roi_from_absolute bbox v))
                       "absolute" (Some v) None)
       | Raise e => Respond 200 (HealthError (str_exn e) (WINDOW_TITLE cfg))
       end)
  /\
  (forall (cfg : Config) (desktop : list Window) (v : RelROI),
     health cfg {| ROI_RUNTIME_MODE := Some "relative";
                   ROI_RUNTIME_ABS := None;
                   ROI_RUNTIME_REL := Some v |} desktop
     = match find_window_bbox cfg desktop with
       | Ok bbox =>
           match _roi_from_relative bbox v with
           | Ok roi =>
               Respond 200
                 (HealthOk (bb_title bbox)
                           (bb_left bbox, bb_top bbox,
                            bb_width bbox, bb_height bbox)
                           (border_clamp (ROI_CLAMP cfg) roi)
                           "relative" None (Some v))
           | Raise e => Respond 200 (HealthError (str_exn e) (WINDOW_TITLE cfg))
           end
       | Raise e => Respond 200 (HealthError (str_exn e) (WINDOW_TITLE cfg))
       end)
  /\
  (forall (bbox : WindowBBox) (v : RelROI),
     bbox_in_range bbox -> exists roi, _roi_from_relative bbox v = Ok roi).
Proof.
  split; [|split; [|split; [|split; [|split; [|split]]]]].
  - intros reqs st.
    assert (H : slots_exclusive st)
      by (apply run_set_roi_exclusive; exact I).
    unfold slots_exclusive in H.
    destruct (ROI_RUNTIME_ABS st); [|now left].
    destruct (ROI_RUNTIME_REL st); [contradiction|now right].
  - intros st args x y w h. apply set_roi_absolute_applies.
  - intros st args l t r b. apply set_roi_relative_applies.
  - intros st st' args body. apply set_roi_success.
  - intros cfg desktop v.
    destruct (find_window_bbox cfg desktop) as [bbox|e] eqn:Hf.
    + now apply health_absolute.
    + now apply health_lookup_failure.
  - intros cfg desktop v.
    destruct (find_window_bbox cfg desktop) as [bbox|e] eqn:Hf.
    + now apply health_relative.
    + now apply health_lookup_failure.
  - intros bbox v. apply roi_from_relative_total.
Qed.

Lemma set_roi_overrides_exclusive_witness :
  set_roi demo_float_of_str no_format_6f
    {| ROI_RUNTIME_MODE := Some "relative"; ROI_RUNTIME_ABS := None;
       ROI_RUNTIME_REL := Some (0.25, 0.5, 1, 1)%float |} req_absolute
  = (Respond 200
       {| ok := true;
          message := ("Applied ABS_ROI=(" ++ str_int 10 ++ "," ++ str_int 20
                      ++ "," ++ str_int 300 ++ "," ++ str_int 200 ++ ")")%string |},
     {| ROI_RUNTIME_MODE := Some "absolute";
        ROI_RUNTIME_ABS := Some (10, 20, 300, 200);
        ROI_RUNTIME_REL := None |}).
Proof.
  apply (proj1 (proj2 (set_roi_overrides_exclusive
                         demo_float_of_str no_format_6f)));
    vm_compute; reflexivity.
Defined.

(** C6, counterexample to the claim as stated: the request is applied
    with status 200, but no window is open, and /health answers with the
    error payload, which reports neither the mode nor the override. *)
Lemma health_after_set_roi_as_specified_fails :
  ~ health_after_set_roi_as_specified demo_float_of_str no_format_6f
      shipped_config initial_state req_absolute [].
Proof.
  intros H.
  assert (E : set_roi demo_float_of_str no_format_6f initial_state req_absolute
              = (Respond 200
                   {| ok := true; message := "Applied ABS_ROI=(10,20,300,200)" |},
                 {| ROI_RUNTIME_MODE := Some "absolute";
                    ROI_RUNTIME_ABS := Some (10, 20, 300, 200);
                    ROI_RUNTIME_REL := None |}))
    by (vm_compute; reflexivity).
  destruct (H _ _ E) as (window & window_bbox & roi_bbox & mode & _ & Hh).
  vm_compute in Hh. discriminate.
Qed.

(** An absolute override, then /health; a relative override, then /health;
    a request without mode leaves the relative override in place. *)
Example set_roi_then_health :
  let st1 := run_set_roi demo_float_of_str no_format_6f initial_state
               [req_absolute] in
  let st2 := run_set_roi demo_float_of_str no_format_6f st1
               [req_relative; [("x", "10")]] in
  st1 = {| ROI_RUNTIME_MODE := Some "absolute";
           ROI_RUNTIME_ABS := Some (10, 20, 300, 200);
           ROI_RUNTIME_REL := None |}
  /\
  health shipped_config st1 [win_visible]
  = Respond 200
      (HealthOk "DMV-Viewer (2)" (100, 50, 800, 600)
                {| left := 110; top := 70; width := 300; height := 200 |}
                "absolute" (Some (10, 20, 300, 200)) None)
  /\
  st2 = {| ROI_RUNTIME_MODE := Some "relative";
           ROI_RUNTIME_ABS := None;
           ROI_RUNTIME_REL := Some (0.25, 0.5, 1, 1)%float |}
  /\
  health shipped_config st2 [win_visible]
  = Respond 200
      (HealthOk "DMV-Viewer (2)" (100, 50, 800, 600)
                {| left := 300; top := 350; width := 600; height := 300 |}
                "relative" None (Some (0.25, 0.5, 1, 1)%float))
  /\
  health shipped_config st2 [win_minimized]
  = Respond 200
      (HealthError "Window 'DMV-Viewer' is minimized" "DMV-Viewer").
Proof. vm_compute. repeat split. Qed.

(** ** Frame grabbing *)

Section CaptureFacts.

Variables Sct Shot Raster : Type.
Variable mss_mss : result Sct.
Variable sct_grab : Sct -> CaptureRect -> result Shot.
Variable cvtColor_BGRA2BGR : Shot -> result Raster.
Variable cv2_imencode_jpg : Image Raster -> Z -> result (bool * list byte).

Lemma grab_frame_on_error (cfg : Config) (st : State) (desktop : list Window)
      (sct : Sct) (e : exn) :
  grab_frame_try Sct Shot Raster sct_grab cvtColor_BGRA2BGR cfg st desktop sct
  = Raise e ->
  grab_frame Sct Shot Raster sct_grab cvtColor_BGRA2BGR cfg st desktop sct
  = (error_frame e, Some e).
Proof. intros H. unfold grab_frame. now rewrite H. Qed.

Lemma snapshot_on_error (cfg : Config) (st : State) (desktop : list Window)
      (sct : Sct) (e : exn) (jpg : list byte) :
  mss_mss = Ok sct ->
  grab_frame_try Sct Shot Raster sct_grab cvtColor_BGRA2BGR cfg st desktop sct
  = Raise e ->
  cv2_imencode_jpg (error_frame e) (JPEG_QUALITY cfg) = Ok (true, jpg) ->
  exists r,
    snapshot Sct Shot Raster mss_mss sct_grab cvtColor_BGRA2BGR
             cv2_imencode_jpg cfg st desktop = Respond 200 r
    /\ data r = jpg
    /\ get_header "Content-Type" r = Some "image/jpeg".
Proof.
  intros Hs Hg He. unfold snapshot. rewrite Hs. cbn [bind].
  rewrite (grab_frame_on_error cfg st desktop sct e Hg).
  unfold encode_jpeg. rewrite He. cbn [bind negb].
  eexists. split; [reflexivity|]. split; reflexivity.
Qed.

(** C9.  Whenever window lookup, ROI resolution, the screen grab or the
    colour conversion raises an error, the frame grabber returns, together
    with that error, a fixed 640-wide by 480-high black 3-channel raster
    with the error message drawn into it, instead of propagating the
    exception; so /snapshot.jpg, given that mss opens and the encoder
    accepts that raster, returns HTTP 200 with a JPEG body even when the
    target window is missing or minimized. *)
Theorem grab_frame_contains_errors
        (cfg : Config) (st : State) (desktop : list Window) (sct : Sct) :
  let try_body :=
    grab_frame_try Sct Shot Raster sct_grab cvtColor_BGRA2BGR cfg st desktop sct in
  (forall e, find_window_bbox cfg desktop = Raise e -> try_body = Raise e)
  /\
  (forall bbox e,
     find_window_bbox cfg desktop = Ok bbox ->
     _apply_roi_to_bbox cfg st bbox = Raise e -> try_body = Raise e)
  /\
  (forall bbox roi e,
     find_window_bbox cfg desktop = Ok bbox ->
     _apply_roi_to_bbox cfg st bbox = Ok roi ->
     sct_grab sct roi = Raise e -> try_body = Raise e)
  /\
  (forall bbox roi shot e,
     find_window_bbox cfg desktop = Ok bbox ->
     _apply_roi_to_bbox cfg st bbox = Ok roi ->
     sct_grab sct roi = Ok shot ->
     cvtColor_BGRA2BGR shot = Raise e -> try_body = Raise e)
  /\
  (forall e,
     try_body = Raise e ->
     grab_frame Sct Shot Raster sct_grab cvtColor_BGRA2BGR cfg st desktop sct
     = (Img_putText (Img_zeros 480 640 3) (str_exn e) (20, 240)
                    FONT_HERSHEY_SIMPLEX 0.7%float (0, 0, 255) 2,
        Some e)
     /\
     forall raster_shape,
       shape raster_shape
             (fst (grab_frame Sct Shot Raster sct_grab cvtColor_BGRA2BGR
                              cfg st desktop sct))
       = (480, 640, 3))
  /\
  (forall e jpg,
     mss_mss = Ok sct ->
     try_body = Raise e ->
     cv2_imencode_jpg (error_frame e) (JPEG_QUALITY cfg) = Ok (true, jpg) ->
     exists r,
       snapshot Sct Shot Raster mss_mss sct_grab cvtColor_BGRA2BGR
                cv2_imencode_jpg cfg st desktop = Respond 200 r
       /\ data r = jpg
       /\ get_header "Content-Type" r = Some "image/jpeg").
Proof.
  intros try_body. subst try_body. unfold grab_frame_try.
  repeat match goal with |- _ /\ _ => split end.
  - intros e ->. reflexivity.
  - intros bbox e -> H. cbn [bind]. now rewrite H.
  - intros bbox roi e -> H1 H2. cbn [bind]. rewrite H1. cbn [bind]. now rewrite H2.
  - intros bbox roi shot e -> H1 H2 H3. cbn [bind]. rewrite H1. cbn [bind].
    rewrite H2. cbn [bind]. now rewrite H3.
  - intros e H.
    rewrite (grab_frame_on_error cfg st desktop sct e H). split; reflexivity.
  - intros e jpg. apply snapshot_on_error.
Qed.

End CaptureFacts.

Lemma grab_frame_contains_errors_witness :
  exists r,
    snapshot unit unit unit (Ok tt) demo_sct_grab demo_cvtColor demo_imencode
             shipped_config initial_state [win_other; win_minimized]
    = Respond 200 r
    /\ data r = [xff; xd8]
    /\ get_header "Content-Type" r = Some "image/jpeg".
Proof.
  apply (proj2 (proj2 (proj2 (proj2 (proj2
           (grab_frame_contains_errors unit unit unit (Ok tt) demo_sct_grab
              demo_cvtColor demo_imencode shipped_config initial_state
              [win_other; win_minimized] tt))))) (Minimized win_minimized));
    reflexivity.
Defined.

(** * Further properties of the code *)

(** ** More on the window lookup *)

Lemma filter_first {A} (p : A -> bool) (l : list A) (x : A) (l' : list A) :
  filter p l = x :: l' ->
  exists before rest,
    l = (before ++ x :: rest)%list /\
    (forall u, In u before -> p u = false) /\ p x = true.
Proof.
  induction l as [|a l IH]; [discriminate|]. simpl.
  destruct (p a) eqn:Hp.
  - intros H. injection H as -> _. exists [], l. repeat split; auto.
    intros u [].
  - intros H. destruct (IH H) as (before & rest & -> & Hb & Hx).
    exists (a :: before), rest. repeat split; auto.
    intros u [<-|Hu]; auto.
Qed.

(** X1.  A bounding box returned by the window locator is the box of a
    window that is open, whose title contains the configured substring,
    that is not minimized, and that no matching window precedes in the
    enumeration. *)
Theorem find_window_bbox_sound
        (cfg : Config) (desktop : list Window) (bbox : WindowBBox) :
  find_window_bbox cfg desktop = Ok bbox ->
  exists before w rest,
    desktop = (before ++ w :: rest)%list /\
    (forall u, In u before -> contains (WINDOW_TITLE cfg) (title u) = false) /\
    contains (WINDOW_TITLE cfg) (title w) = true /\
    isMinimized w = false /\
    bbox = {| bb_title := title w;
              bb_top := w_top w;
              bb_left := w_left w;
              bb_width := w_right w - w_left w;
              bb_height := w_bottom w - w_top w |}.
Proof.
  rewrite find_window_bbox_cases. unfold matching_windows.
  destruct (filter _ desktop) as [|w l] eqn:Hf; [discriminate|].
  destruct (isMinimized w) eqn:Hm; [discriminate|].
  intros H. injection H as <-.
  destruct (filter_first _ _ _ _ Hf) as (before & rest & Hd & Hb & Hw).
  exists before, w, rest. repeat split; auto.
Qed.

Lemma find_window_bbox_sound_witness :
  exists before w rest,
    [win_other; win_visible; win_minimized] = (before ++ w :: rest)%list /\
    (forall u, In u before ->
               contains (WINDOW_TITLE shipped_config) (title u) = false) /\
    contains (WINDOW_TITLE shipped_config) (title w) = true /\
    isMinimized w = false /\
    bbox_of_window win_visible
    = {| bb_title := title w;
         bb_top := w_top w;
         bb_left := w_left w;
         bb_width := w_right w - w_left w;
         bb_height := w_bottom w - w_top w |}.
Proof.
  apply (find_window_bbox_sound shipped_config
           [win_other; win_visible; win_minimized]).
  reflexivity.
Defined.

(** ** Geometry of the absolute branch and of the border clamp *)

(** X2.  The rectangle of the absolute branch never starts left of or
    above the window, and it lies within the window exactly when the
    clamped offsets fall inside it: an offset at or beyond the window's
    width or height is not pulled back, and the one-pixel-wide result
    sticks out. *)
Theorem roi_from_absolute_within_iff
        (bbox : WindowBBox) (x y w h : Z) :
  let r := _roi_from_absolute bbox (x, y, w, h) in
  bb_left bbox <= left r /\ bb_top bbox <= top r /\
  (rect_within r (window_rect bbox)
   <-> Z.max 0 x < bb_width bbox /\ Z.max 0 y < bb_height bbox).
Proof.
  unfold rect_within, window_rect, _roi_from_absolute. cbn. lia.
Qed.

(** X3.  In absolute mode the resolved rectangle follows the window:
    moving the window by (dx, dy) moves the rectangle by (dx, dy) and
    leaves its size unchanged. *)
Theorem apply_roi_absolute_follows_window
        (cfg : Config) (st : State) (bbox : WindowBBox) (dx dy : Z) :
  resolver_mode cfg st = "absolute" ->
  exists r,
    _apply_roi_to_bbox cfg st bbox = Ok r /\
    _apply_roi_to_bbox cfg st (move_bbox dx dy bbox) = Ok (move_rect dx dy r).
Proof.
  intros Hm. rewrite !(apply_roi_absolute_branch cfg st _ Hm).
  eexists. split; [reflexivity|]. f_equal.
  destruct (abs_spec_in_use cfg st) as [[[x y] w] h].
  unfold border_clamp, move_rect, move_bbox, _roi_from_absolute.
  destruct (0 <? ROI_CLAMP cfg);
    cbn [left top width height bb_left bb_top bb_width bb_height];
    f_equal; lia.
Qed.

Lemma apply_roi_absolute_follows_window_witness :
  exists r,
    _apply_roi_to_bbox
      {| JPEG_QUALITY := 70; WINDOW_TITLE := "DMV-Viewer"; ROI_MODE := "Absolute";
         ABS_ROI := (1454, 540, 460, 377); REL_ROI := (0, 0, 1, 1)%float;
         ROI_CLAMP := 2 |} initial_state bbox_800x600 = Ok r /\
    _apply_roi_to_bbox
      {| JPEG_QUALITY := 70; WINDOW_TITLE := "DMV-Viewer"; ROI_MODE := "Absolute";
         ABS_ROI := (1454, 540, 460, 377); REL_ROI := (0, 0, 1, 1)%float;
         ROI_CLAMP := 2 |} initial_state (move_bbox (-300) 45 bbox_800x600)
    = Ok (move_rect (-300) 45 r).
Proof.
  apply apply_roi_absolute_follows_window. reflexivity.
Defined.

(** X4.  With a positive clamp the trimmed rectangle stays within the
    resolved one exactly when the resolved rectangle is more than clamp
    pixels wide and high; a narrower one is floored at one pixel and pushed
    past the far edge. *)
Theorem border_clamp_within_iff (c : Z) (roi : CaptureRect) :
  0 < c ->
  (rect_within (border_clamp c roi) roi
   <-> c + 1 <= width roi /\ c + 1 <= height roi).
Proof.
  intros Hc. unfold rect_within, border_clamp.
  rewrite (proj2 (Z.ltb_lt 0 c) Hc). cbn [left top width height]. lia.
Qed.

Lemma border_clamp_within_iff_witness :
  rect_within (border_clamp 3 rect_10x10) rect_10x10
  <-> 3 + 1 <= width rect_10x10 /\ 3 + 1 <= height rect_10x10.
Proof. apply border_clamp_within_iff. lia. Defined.

(** ** /set_roi as a state machine *)

Section SetRoiMachine.

Variable float_of_str : string -> result float.
Variable format_6f : float -> string.

(** The reply and the requested overrides are computed from the request
    alone; the current state is only passed through when nothing is
    installed. *)
Lemma set_roi_cases (st : State) (args : Args) :
  (exists body st',
     (forall s, set_roi float_of_str format_6f s args = (Respond 200 body, st'))
     /\ state_consistent st' /\ ROI_RUNTIME_MODE st' <> None)
  \/
  (exists reply,
     (forall s, set_roi float_of_str format_6f s args = (reply, s))
     /\ http_status reply <> 200
     /\ (http_status reply = 400 \/ http_status reply = 500)).
Proof.
  unfold set_roi.
  destruct (lower (or_str (args_get args "mode") "") =? "absolute")%string.
  - destruct (_ <- int_arg float_of_str args "x" 0 ;; _) as [[[[x y] w] h]|e].
    + left. do 2 eexists. split; [reflexivity|]. split; [reflexivity|discriminate].
    + right. eexists. split; [reflexivity|]. cbn. split; [discriminate|now right].
  - destruct (lower (or_str (args_get args "mode") "") =? "relative")%string.
    + destruct (_ <- float_arg float_of_str args "l" 0 ;; _) as [[[[l t] r] b]|e].
      * left. do 2 eexists. split; [reflexivity|]. split; [reflexivity|discriminate].
      * right. eexists. split; [reflexivity|]. cbn. split; [discriminate|now right].
    + right. eexists. split; [reflexivity|]. cbn. split; [discriminate|now left].
Qed.

(** X5.  /set_roi is all-or-nothing: the reply has status 200, 400 or 500,
    and unless it is 200 the three runtime globals are exactly what they
    were before the request. *)
Theorem set_roi_atomic (st : State) (args : Args) :
  let reply := fst (set_roi float_of_str format_6f st args) in
  let st' := snd (set_roi float_of_str format_6f st args) in
  (http_status reply = 200 \/ http_status reply = 400 \/ http_status reply = 500)
  /\ (http_status reply <> 200 -> st' = st)
  /\ (http_status reply = 200 -> state_consistent st' /\ ROI_RUNTIME_MODE st' <> None).
Proof.
  destruct (set_roi_cases st args) as [(body & st1 & H & Hc & Hm)|(reply & H & Hn & Hs)];
    rewrite (H st); cbn [fst snd http_status].
  - split; [now left|]. split; [congruence|auto].
  - split; [tauto|]. split; [reflexivity|contradiction].
Qed.

(** X6.  The last successful request wins: whatever the state was and
    whatever was requested before, after a request that is answered 200
    and any number of later requests that are not, the state is the one
    that this request installs. *)
Theorem set_roi_last_success_wins
        (st st' : State) (before after : list Args) (args : Args)
        (body : SetRoiBody) :
  set_roi float_of_str format_6f initial_state args = (Respond 200 body, st') ->
  (forall a, In a after ->
     http_status (fst (set_roi float_of_str format_6f initial_state a)) <> 200) ->
  run_set_roi float_of_str format_6f st (before ++ args :: after)%list = st'.
Proof.
  intros Hargs Hafter. unfold run_set_roi. rewrite fold_left_app. cbn [fold_left].
  set (s0 := fold_left _ before st).
  assert (E : snd (set_roi float_of_str format_6f s0 args) = st').
  { destruct (set_roi_cases st args) as [(b1 & s1 & H & _)|(reply & H & Hn & _)].
    - rewrite (H s0). rewrite (H initial_state) in Hargs. now injection Hargs.
    - rewrite (H initial_state) in Hargs. injection Hargs as -> _.
      now contradiction Hn. }
  rewrite E. clear E s0 Hargs.
  induction after as [|a after IH]; [reflexivity|]. cbn [fold_left].
  assert (E : snd (set_roi float_of_str format_6f st' a) = st').
  { destruct (set_roi_cases st a) as [(b1 & s1 & H & _)|(reply & H & _)].
    - exfalso. apply (Hafter a (or_introl eq_refl)).
      now rewrite (H initial_state).
    - now rewrite (H st'). }
  rewrite E. apply IH. intros a' Ha'. apply Hafter. now right.
Qed.

Lemma run_set_roi_consistent (reqs : list Args) (st : State) :
  state_consistent st ->
  state_consistent (run_set_roi float_of_str format_6f st reqs).
Proof.
  revert st. induction reqs as [|args reqs IH]; intros st Hst; [exact Hst|].
  apply IH.
  destruct (set_roi_cases st args) as [(b1 & s1 & H & Hc & _)|(reply & H & _)];
    now rewrite (H st).
Qed.

Lemma run_set_roi_untouched (reqs : list Args) (st : State) :
  ROI_RUNTIME_MODE (run_set_roi float_of_str format_6f st reqs) = None ->
  run_set_roi float_of_str format_6f st reqs = st.
Proof.
  revert st. induction reqs as [|args reqs IH]; intros st; [reflexivity|].
  cbn [run_set_roi fold_left]. intros Hn.
  destruct (set_roi_cases st args) as [(b1 & s1 & H & Hc & Hm)|(reply & H & _)];
    rewrite (H st) in *; cbn [snd] in *.
  - exfalso. specialize (IH s1 Hn). unfold run_set_roi in IH.
    rewrite IH in Hn. contradiction.
  - now apply IH.
Qed.

End SetRoiMachine.

Lemma consistent_resolver_ignores_defaults
      (st : State) (cfg cfg' : Config) (bbox : WindowBBox) :
  state_consistent st -> ROI_RUNTIME_MODE st <> None ->
  ROI_CLAMP cfg = ROI_CLAMP cfg' ->
  _apply_roi_to_bbox cfg st bbox = _apply_roi_to_bbox cfg' st bbox.
Proof.
  unfold state_consistent, _apply_roi_to_bbox, resolver_mode.
  destruct st as [[m|] [a|] [r|]]; cbn [ROI_RUNTIME_MODE ROI_RUNTIME_ABS ROI_RUNTIME_REL];
    try contradiction; intros -> _ ->; reflexivity.
Qed.

(** X7.  In every state reachable by /set_roi requests the three globals
    agree (no mode and no override, or a mode with exactly its own
    override).  Hence, once any request has succeeded, the resolver no
    longer reads the compiled ROI_MODE, ABS_ROI or REL_ROI; and while the
    runtime mode is unset the state is still the initial one. *)
Theorem reachable_state_supersedes_defaults
        (float_of_str : string -> result float) (format_6f : float -> string)
        (reqs : list Args) :
  let st := run_set_roi float_of_str format_6f initial_state reqs in
  state_consistent st
  /\
  (ROI_RUNTIME_MODE st <> None ->
   forall (cfg cfg' : Config) (bbox : WindowBBox),
     ROI_CLAMP cfg = ROI_CLAMP cfg' ->
     _apply_roi_to_bbox cfg st bbox = _apply_roi_to_bbox cfg' st bbox)
  /\
  (ROI_RUNTIME_MODE st = None -> st = initial_state).
Proof.
  intros st.
  assert (Hc : state_consistent st) by (apply run_set_roi_consistent; exact I).
  split; [exact Hc|]. split.
  - intros Hm cfg cfg' bbox. now apply consistent_resolver_ignores_defaults.
  - apply run_set_roi_untouched.
Qed.

Lemma reachable_state_supersedes_defaults_witness :
  _apply_roi_to_bbox shipped_config
    (run_set_roi demo_float_of_str no_format_6f initial_state
       [req_absolute; req_unknown]) bbox_800x600
  = _apply_roi_to_bbox
      {| JPEG_QUALITY := 70; WINDOW_TITLE := "DMV-Viewer"; ROI_MODE := "relative";
         ABS_ROI := (0, 0, 1, 1); REL_ROI := (0.5, 0.5, 1, 1)%float;
         ROI_CLAMP := 0 |}
      (run_set_roi demo_float_of_str no_format_6f initial_state
         [req_absolute; req_unknown]) bbox_800x600.
Proof.
  apply (proj1 (proj2 (reachable_state_supersedes_defaults
                         demo_float_of_str no_format_6f
                         [req_absolute; req_unknown]))).
  - discriminate.
  - reflexivity.
Defined.

Lemma set_roi_last_success_wins_witness :
  run_set_roi demo_float_of_str no_format_6f
    {| ROI_RUNTIME_MODE := Some "relative"; ROI_RUNTIME_ABS := None;
       ROI_RUNTIME_REL := Some (0, 0, 1, 1)%float |}
    ([req_relative; req_uppercase] ++ req_absolute :: [req_unknown])%list
  = {| ROI_RUNTIME_MODE := Some "absolute";
       ROI_RUNTIME_ABS := Some (10, 20, 300, 200);
       ROI_RUNTIME_REL := None |}.
Proof.
  apply (set_roi_last_success_wins demo_float_of_str no_format_6f
           _ _ [req_relative; req_uppercase] [req_unknown] req_absolute
           {| ok := true; message := "Applied ABS_ROI=(10,20,300,200)" |}).
  - vm_compute. reflexivity.
  - intros a [<-|[]]. vm_compute. discriminate.
Defined.

(** ** /health on every desktop *)




(** ** Degenerate relative selections *)

Lemma fmin_same (c : float) : fmin c c = c.
Proof. unfold fmin. now destruct (c <? c)%float. Qed.

Lemma fmax_same (c : float) : fmax c c = c.
Proof. unfold fmax. now destruct (c <? c)%float. Qed.

(** X9.  A relative ROI whose left and right fractions clamp to the same
    value (equal fractions, both at or above 1, both at or below 0, NaN
    against 1) is not rejected: it resolves to a column exactly one pixel
    wide; likewise for top and bottom and the height. *)
Theorem roi_from_relative_collapsed
        (bbox : WindowBBox) (l t r b : float) (rect : CaptureRect) :
  _roi_from_relative bbox (l, t, r, b) = Ok rect ->
  (clamp01 l = clamp01 r -> width rect = 1) /\
  (clamp01 t = clamp01 b -> height rect = 1).
Proof.
  unfold _roi_from_relative. intros H. split; intros E; rewrite E in H;
    rewrite fmin_same, fmax_same in H.
  - destruct (scale_to_pixel _ _ (clamp01 r)) as [x0|]; [|discriminate].
    destruct (scale_to_pixel _ _ (fmin (clamp01 t) _)) as [y0|]; [|discriminate].
    destruct (scale_to_pixel _ _ (fmax (clamp01 t) _)) as [y1|]; [|discriminate].
    cbn [bind] in H. injection H as <-. cbn [width]. lia.
  - destruct (scale_to_pixel _ _ (fmin (clamp01 l) _)) as [x0|]; [|discriminate].
    destruct (scale_to_pixel _ _ (clamp01 b)) as [y0|]; [|discriminate].
    destruct (scale_to_pixel _ _ (fmax (clamp01 l) _)) as [x1|]; [|discriminate].
    cbn [bind] in H. injection H as <-. cbn [height]. lia.
Qed.

Lemma roi_from_relative_collapsed_witness :
  _roi_from_relative bbox_800x600 (nan, 0, 1.5, 0.5)%float
  = Ok {| left := 900; top := 50; width := 1; height := 300 |}
  /\ width {| left := 900; top := 50; width := 1; height := 300 |} = 1.
Proof.
  assert (H : _roi_from_relative bbox_800x600 (nan, 0, 1.5, 0.5)%float
              = Ok {| left := 900; top := 50; width := 1; height := 300 |})
    by (vm_compute; reflexivity).
  split; [exact H|].
  apply (proj1 (roi_from_relative_collapsed bbox_800x600 nan 0 1.5 0.5 _ H)).
  vm_compute. reflexivity.
Defined.

(** ** The full-window views *)

Lemma find_window_bbox_visible
      (cfg : Config) (desktop : list Window) (bbox : WindowBBox) :
  find_window_bbox cfg desktop = Ok bbox ->
  exists w, In w desktop /\ isMinimized w = false /\ bbox = bbox_of_window w.
Proof.
  rewrite find_window_bbox_cases. unfold matching_windows.
  destruct (filter _ desktop) as [|w l] eqn:Hf; [discriminate|].
  destruct (isMinimized w) eqn:Hm; [discriminate|].
  intros H. injection H as <-. exists w. repeat split; auto.
  assert (Hin : In w (w :: l)) by now left.
  rewrite <- Hf in Hin. now apply filter_In in Hin.
Qed.

Section FullWindowFacts.

Variables Sct Shot Raster : Type.
Variable mss_mss : result Sct.
Variable sct_grab : Sct -> CaptureRect -> result Shot.
Variable cvtColor_BGRA2BGR : Shot -> result Raster.
Variable cv2_imencode_jpg : Image Raster -> Z -> result (bool * list byte).
Variable raster_shape : Raster -> Z * Z * Z.
Variable cv2_imencode_canvas : Canvas Raster -> Z -> result (bool * list byte).

(** X10.  /full_window.jpg has no placeholder: when the screen grabber
    opens and the window lookup fails, the lookup's exception leaves the
    view (a 500 reply), while /snapshot.jpg answers the same situation with
    200 and the encoded error frame. *)
Theorem full_window_jpg_propagates_lookup_error
        (cfg : Config) (st : State) (desktop : list Window)
        (sct : Sct) (e : exn) (jpg : list byte) :
  mss_mss = Ok sct ->
  find_window_bbox cfg desktop = Raise e ->
  cv2_imencode_jpg (error_frame e) (JPEG_QUALITY cfg) = Ok (true, jpg) ->
  full_window_jpg Sct Shot Raster mss_mss sct_grab cvtColor_BGRA2BGR
                  cv2_imencode_jpg cfg desktop = Unhandled e
  /\ exists r,
       snapshot Sct Shot Raster mss_mss sct_grab cvtColor_BGRA2BGR
                cv2_imencode_jpg cfg st desktop = Respond 200 r
       /\ data r = jpg.
Proof.
  intros Hs Hf He. split.
  - unfold full_window_jpg, grab_full_window. rewrite Hs, Hf. reflexivity.
  - unfold snapshot, grab_frame, grab_frame_try. rewrite Hs, Hf. cbn [bind].
    unfold encode_jpeg. rewrite He. cbn [bind negb].
    eexists. split; reflexivity.
Qed.

(** X11.  /full_window.jpg grabs the window's own box: the rectangle
    handed to the screen grabber is the window's left, top, width and
    height, whatever ROI is configured; the reply carries the encoded
    bytes as image/jpeg. *)
Theorem full_window_jpg_grabs_window
        (cfg : Config) (desktop : list Window) (r : RawResponse) :
  full_window_jpg Sct Shot Raster mss_mss sct_grab cvtColor_BGRA2BGR
                  cv2_imencode_jpg cfg desktop = Respond 200 r ->
  exists sct w shot px,
    mss_mss = Ok sct /\
    In w desktop /\ isMinimized w = false /\
    sct_grab sct {| left := w_left w; top := w_top w;
                    width := w_right w - w_left w;
                    height := w_bottom w - w_top w |} = Ok shot /\
    cvtColor_BGRA2BGR shot = Ok px /\
    cv2_imencode_jpg (Img_bgr px) (JPEG_QUALITY cfg) = Ok (true, data r) /\
    get_header "Content-Type" r = Some "image/jpeg".
Proof.
  unfold full_window_jpg, grab_full_window.
  destruct mss_mss as [sct|e]; [|discriminate]. cbn [bind].
  destruct (find_window_bbox cfg desktop) as [bbox|e] eqn:Hf; [|discriminate].
  cbn [bind].
  destruct (sct_grab sct (window_rect bbox)) as [shot|e] eqn:Hg; [|discriminate].
  cbn [bind].
  destruct (cvtColor_BGRA2BGR shot) as [px|e] eqn:Hc; [|discriminate].
  cbn [bind]. unfold encode_jpeg.
  destruct (cv2_imencode_jpg (Img_bgr px) (JPEG_QUALITY cfg))
    as [[[] jpg]|e] eqn:He; cbn [bind negb]; try discriminate.
  intros H. injection H as <-.
  destruct (find_window_bbox_visible cfg desktop bbox Hf)
    as (w & Hin & Hmin & ->).
  exists sct, w, shot, px. repeat split; auto.
Qed.

End FullWindowFacts.

Lemma full_window_jpg_propagates_lookup_error_witness :
  full_window_jpg unit unit unit (Ok tt) demo_sct_grab demo_cvtColor
                  demo_imencode shipped_config [win_other; win_minimized]
  = Unhandled (ValueError "Window 'DMV-Viewer' is minimized")
  /\ exists r,
       snapshot unit unit unit (Ok tt) demo_sct_grab demo_cvtColor
                demo_imencode shipped_config initial_state
                [win_other; win_minimized] = Respond 200 r
       /\ data r = [xff; xd8].
Proof.
  apply (full_window_jpg_propagates_lookup_error unit unit unit (Ok tt)
           demo_sct_grab demo_cvtColor demo_imencode shipped_config
           initial_state [win_other; win_minimized] tt
           (ValueError "Window 'DMV-Viewer' is minimized") [xff; xd8]);
    reflexivity.
Defined.

Lemma full_window_jpg_grabs_window_witness :
  exists (sct : unit) w (shot px : unit),
    Ok tt = Ok sct /\
    In w [win_other; win_visible] /\ isMinimized w = false /\
    (fun (_ : unit) (_ : CaptureRect) => Ok tt)
      sct {| left := w_left w; top := w_top w;
             width := w_right w - w_left w;
             height := w_bottom w - w_top w |} = Ok shot /\
    demo_cvtColor shot = Ok px /\
    demo_imencode (Img_bgr px) (JPEG_QUALITY shipped_config)
    = Ok (true, [xff; xd8]) /\
    get_header "Content-Type"
      {| data := [xff; xd8];
         headers := [("Cache-Control",
                      "no-store, no-cache, must-revalidate, max-age=0");
                     ("Content-Type", "image/jpeg")] |}
    = Some "image/jpeg".
Proof.
  apply (full_window_jpg_grabs_window unit unit unit (Ok tt)
           (fun _ _ => Ok tt) demo_cvtColor demo_imencode shipped_config
           [win_other; win_visible]
           {| data := [xff; xd8];
              headers := [("Cache-Control",
                           "no-store, no-cache, must-revalidate, max-age=0");
                          ("Content-Type", "image/jpeg")] |}).
  reflexivity.
Defined.

(** ** The measuring grid *)

Lemma range_loop_In (fuel : nat) : forall start stop step x,
  0 < step -> stop - start <= Z.of_nat fuel ->
  (In x (range_loop fuel start stop step)
   <-> exists k, 0 <= k /\ x = start + k * step /\ x < stop).
Proof.
  induction fuel as [|fuel IH]; intros start stop step x Hs Hf;
    cbn [range_loop].
  - split; [intros []|]. intros (k & Hk & -> & Hlt). nia.
  - destruct (start <? stop) eqn:Hlt.
    + apply Z.ltb_lt in Hlt. cbn [In].
      rewrite (IH (start + step) stop step x Hs) by lia. split.
      * intros [<-|(k & Hk & -> & Hx)].
        -- exists 0. lia.
        -- exists (k + 1). lia.
      * intros (k & Hk & -> & Hx).
        destruct (Z.eq_dec k 0) as [->|Hk0]; [left; lia|].
        right. exists (k - 1). lia.
    + apply Z.ltb_ge in Hlt. split; [intros []|].
      intros (k & Hk & -> & Hx). nia.
Qed.

(** [range(0, stop, step)] holds the multiples of [step] below [stop]. *)
Lemma py_range_multiples (stop step x : Z) :
  0 < step ->
  (In x (py_range 0 stop step) <-> 0 <= x < stop /\ x mod step = 0).
Proof.
  intros Hs. unfold py_range. rewrite range_loop_In by lia. split.
  - intros (k & Hk & -> & Hx). repeat split; try nia.
    rewrite Z.add_0_l. apply Z.mod_mul. lia.
  - intros ((H0 & Hx) & Hm). exists (x / step).
    pose proof (Z.div_mod x step ltac:(lia)) as E. rewrite Hm in E.
    split; [apply Z.div_pos; lia|]. split; [lia|exact Hx].
Qed.

Lemma grid_step_bounds (w : Z) : 50 <= grid_step w <= 200.
Proof. unfold grid_step. lia. Qed.

(** X12.  The grid of /snapshot_grid.jpg: its spacing is a twelfth of the
    image width, kept between 50 and 200 pixels, and the same spacing is
    used in both directions; a vertical line is drawn from top to bottom
    at exactly the multiples of the spacing left of the image's right
    edge, a horizontal line at exactly the multiples above its bottom
    edge. *)
Theorem grid_strokes_lines (h w : Z) :
  50 <= grid_step w <= 200 /\
  (forall x, In (cv2_line (x, 0) (x, h) (255, 255, 255) 1) (grid_strokes h w)
             <-> 0 <= x < w /\ x mod grid_step w = 0) /\
  (forall y, In (cv2_line (0, y) (w, y) (255, 255, 255) 1) (grid_strokes h w)
             <-> 0 <= y < h /\ y mod grid_step w = 0).
Proof.
  pose proof (grid_step_bounds w) as Hb. split; [exact Hb|].
  unfold grid_strokes. cbv zeta. split.
  - intros x. rewrite in_app_iff, !in_flat_map. split.
    + intros [(x' & Hin & Hx)|(y & Hin & Hy)].
      * destruct Hx as [E|[E|[]]]; [|discriminate].
        injection E as ->. now apply py_range_multiples in Hin; [|lia].
      * destruct Hy as [E|[E|[]]]; [|discriminate].
        apply py_range_multiples in Hin; [|lia].
        injection E as E1 E2 E3 E4. lia.
    + intros H. left. exists x. split; [apply py_range_multiples; [lia|exact H]|].
      now left.
  - intros y. rewrite in_app_iff, !in_flat_map. split.
    + intros [(x & Hin & Hx)|(y' & Hin & Hy)].
      * destruct Hx as [E|[E|[]]]; [|discriminate].
        apply py_range_multiples in Hin; [|lia].
        injection E as E1 E2 E3 E4. lia.
      * destruct Hy as [E|[E|[]]]; [|discriminate].
        injection E as ->. now apply py_range_multiples in Hin; [|lia].
    + intros H. right. exists y. split; [apply py_range_multiples; [lia|exact H]|].
      now left.
Qed.

Section GridFacts.

Variables Sct Shot Raster : Type.
Variable mss_mss : result Sct.
Variable sct_grab : Sct -> CaptureRect -> result Shot.
Variable cvtColor_BGRA2BGR : Shot -> result Raster.
Variable raster_shape : Raster -> Z * Z * Z.
Variable cv2_imencode_canvas : Canvas Raster -> Z -> result (bool * list byte).
Variable cv2_draw : Stroke -> result unit.

(** X13.  /snapshot_grid.jpg survives every failure of the lookup and of
    the grab: as long as the screen grabber opens and the encoder accepts
    the picture the reply is 200 image/jpeg; and when the window lookup
    fails the picture is the 640x480 error frame with the grid on it and
    no ROI outline. *)
Theorem snapshot_grid_always_answers
        (cfg : Config) (st : State) (desktop : list Window) (sct : Sct)
        (enc : Canvas Raster -> list byte) :
  mss_mss = Ok sct ->
  (forall c, cv2_imencode_canvas c (JPEG_QUALITY cfg) = Ok (true, enc c)) ->
  exists r,
    snapshot_grid Sct Shot Raster mss_mss sct_grab cvtColor_BGRA2BGR
                  raster_shape cv2_imencode_canvas cv2_draw cfg st desktop
    = Respond 200 r
    /\ get_header "Content-Type" r = Some "image/jpeg"
    /\ (forall e, find_window_bbox cfg desktop = Raise e ->
          data r = enc {| canvas_base := error_frame e;
                          canvas_strokes := grid_strokes 480 640 |}).
Proof.
  intros Hs Henc. unfold snapshot_grid.
  assert (Hbase : exists base,
             snapshot_grid_base Sct Shot Raster mss_mss sct_grab
               cvtColor_BGRA2BGR cfg st desktop = Ok base
             /\ forall e, find_window_bbox cfg desktop = Raise e ->
                          base = error_frame e).
  { unfold snapshot_grid_base, grab_full_window. rewrite Hs. cbn [bind].
    destruct (find_window_bbox cfg desktop) as [bbox|e] eqn:Hf; cbn [bind].
    - destruct (sct_grab sct (window_rect bbox)) as [shot|e1]; cbn [bind].
      + destruct (cvtColor_BGRA2BGR shot) as [px|e2]; cbn [bind].
        * eexists. split; [reflexivity|discriminate].
        * destruct (grab_frame _ _ _ _ _ _ _ _ _) as [base err].
          eexists. split; [reflexivity|discriminate].
      + destruct (grab_frame _ _ _ _ _ _ _ _ _) as [base err].
        eexists. split; [reflexivity|discriminate].
    - unfold grab_frame, grab_frame_try. rewrite Hf. cbn [bind].
      eexists. split; [reflexivity|]. intros e' E. now injection E as ->. }
  destruct Hbase as (base & -> & Hfail). cbn [bind].
  destruct (shape raster_shape base) as [[h w] ch] eqn:Hsh.
  unfold encode_jpeg_canvas. rewrite Henc. cbn [bind negb].
  eexists. split; [reflexivity|]. split; [reflexivity|].
  intros e Hf. cbn [data set_header make_response].
  rewrite (Hfail e Hf) in *. cbn in Hsh. injection Hsh as <- <- <-.
  unfold roi_outline. rewrite Hf. now rewrite app_nil_r.
Qed.

End GridFacts.

Lemma snapshot_grid_always_answers_witness :
  exists r,
    snapshot_grid unit unit unit (Ok tt) demo_sct_grab demo_cvtColor
                  (fun _ => (0, 0, 3)) demo_imencode_canvas demo_cv2_draw
                  shipped_config initial_state [win_other; win_minimized]
    = Respond 200 r
    /\ get_header "Content-Type" r = Some "image/jpeg"
    /\ (forall e, find_window_bbox shipped_config [win_other; win_minimized]
                  = Raise e ->
          data r = [xff; xd8; xff; xd9]).
Proof.
  apply (snapshot_grid_always_answers unit unit unit (Ok tt) demo_sct_grab
           demo_cvtColor (fun _ => (0, 0, 3)) demo_imencode_canvas
           demo_cv2_draw shipped_config initial_state [win_other; win_minimized] tt
           (fun _ => [xff; xd8; xff; xd9])).
  - reflexivity.
  - intros c. reflexivity.
Defined.

(** ** The ROI outline *)

Lemma matching_windows_move (cfg : Config) (dx dy : Z) (desktop : list Window) :
  matching_windows cfg (map (move_window dx dy) desktop)
  = map (move_window dx dy) (matching_windows cfg desktop).
Proof.
  unfold matching_windows.
  induction desktop as [|w l IH]; [reflexivity|]. cbn [map filter].
  cbn [move_window title]. destruct (contains _ (title w)); cbn [map];
    now rewrite IH.
Qed.

Lemma find_window_bbox_move (cfg : Config) (dx dy : Z) (desktop : list Window) :
  find_window_bbox cfg (map (move_window dx dy) desktop)
  = match find_window_bbox cfg desktop with
    | Ok bbox => Ok (move_bbox dx dy bbox)
    | Raise e => Raise e
    end.
Proof.
  rewrite !find_window_bbox_cases, matching_windows_move.
  destruct (matching_windows cfg desktop) as [|w l]; [reflexivity|].
  cbn [map move_window isMinimized].
  destruct (isMinimized w); [reflexivity|].
  f_equal. unfold bbox_of_window, move_bbox. cbn. f_equal; lia.
Qed.

Lemma apply_roi_absolute_moved
      (cfg : Config) (st : State) (bbox : WindowBBox) (dx dy : Z) :
  resolver_mode cfg st = "absolute" ->
  exists r,
    _apply_roi_to_bbox cfg st bbox = Ok r /\
    _apply_roi_to_bbox cfg st (move_bbox dx dy bbox) = Ok (move_rect dx dy r).
Proof.
  intros Hm. rewrite !(apply_roi_absolute_branch cfg st _ Hm).
  eexists. split; [reflexivity|]. f_equal.
  destruct (abs_spec_in_use cfg st) as [[[x y] w] h].
  unfold border_clamp, move_rect, move_bbox, _roi_from_absolute.
  destruct (0 <? ROI_CLAMP cfg);
    cbn [left top width height bb_left bb_top bb_width bb_height];
    f_equal; lia.
Qed.

(** X14.  In absolute mode the outline that /snapshot_grid.jpg draws does
    not depend on where the window is on the screen: moving every window
    by (dx, dy) leaves the strokes that end up on the image unchanged,
    whether that is the rectangle with its label, the rectangle alone, or
    nothing because the lookup failed or OpenCV refused a drawing call. *)
Theorem roi_outline_absolute_position_free
        (cv2_draw : Stroke -> result unit)
        (cfg : Config) (st : State) (desktop : list Window) (dx dy : Z) :
  resolver_mode cfg st = "absolute" ->
  roi_outline cv2_draw cfg st (map (move_window dx dy) desktop)
  = roi_outline cv2_draw cfg st desktop.
Proof.
  intros Hm. unfold roi_outline. rewrite find_window_bbox_move.
  destruct (find_window_bbox cfg desktop) as [bbox|e]; [|reflexivity].
  destruct (apply_roi_absolute_moved cfg st bbox dx dy Hm) as (r & -> & ->).
  cbn [move_rect move_bbox left top width height bb_left bb_top].
  replace (left r + dx - (bb_left bbox + dx)) with (left r - bb_left bbox)
    by lia.
  replace (top r + dy - (bb_top bbox + dy)) with (top r - bb_top bbox)
    by lia.
  reflexivity.
Qed.

Lemma roi_outline_absolute_position_free_witness :
  roi_outline demo_cv2_draw
    {| JPEG_QUALITY := 70; WINDOW_TITLE := "DMV-Viewer"; ROI_MODE := "absolute";
       ABS_ROI := (1454, 540, 460, 377); REL_ROI := (0, 0, 1, 1)%float;
       ROI_CLAMP := 2 |} initial_state
    (map (move_window (-300) 45) [win_other; win_visible])
  = roi_outline demo_cv2_draw
      {| JPEG_QUALITY := 70; WINDOW_TITLE := "DMV-Viewer"; ROI_MODE := "absolute";
         ABS_ROI := (1454, 540, 460, 377); REL_ROI := (0, 0, 1, 1)%float;
         ROI_CLAMP := 2 |} initial_state [win_other; win_visible].
Proof.
  apply roi_outline_absolute_position_free. reflexivity.
Defined.

(** An absolute override far beyond the 32-bit range is stored by
    /set_roi; the drawing call raises on it, the [except] swallows the
    error and no outline is drawn, while an override within range gives the
    rectangle and its label. *)
Example roi_outline_out_of_range :
  roi_outline demo_cv2_draw shipped_config
    {| ROI_RUNTIME_MODE := Some "absolute";
       ROI_RUNTIME_ABS := Some (1000000000000, 0, 1, 1);
       ROI_RUNTIME_REL := None |} [win_visible] = []
  /\
  roi_outline demo_cv2_draw shipped_config
    {| ROI_RUNTIME_MODE := Some "absolute";
       ROI_RUNTIME_ABS := Some (10, 20, 300, 200);
       ROI_RUNTIME_REL := None |} [win_visible]
  = [cv2_rectangle (10, 20) (310, 220) (0, 255, 0) 2;
     cv2_putText "ROI 300x200" (10, 10) FONT_HERSHEY_SIMPLEX 0.6%float
                 (0, 255, 0) 2].
Proof. split; vm_compute; reflexivity. Qed.

(** ** The MJPEG stream *)

Lemma yields_app (a b : list Event) :
  yields (a ++ b) = (yields a ++ yields b)%list.
Proof. unfold yields. apply flat_map_app. Qed.

Lemma frame_interval_total (FPS : Z) :
  Z.abs FPS < 2 ^ 63 -> exists fi, frame_interval FPS = Ok fi.
Proof.
  intros H. unfold frame_interval.
  destruct (float_of_int_mag (Z.max FPS 1)) as (d & -> & _); [lia|].
  eexists. reflexivity.
Qed.

Section StreamFacts.

Variables Sct Shot Raster : Type.
Variable mss_mss : result Sct.
Variable sct_grab : Sct -> CaptureRect -> result Shot.
Variable cvtColor_BGRA2BGR : Shot -> result Raster.
Variable cv2_imencode_jpg : Image Raster -> Z -> result (bool * list byte).

Lemma mjpeg_iteration_yields (cfg : Config) (fi : float) (sct : Sct) (tk : Tick) :
  yields (mjpeg_iteration Sct Shot Raster sct_grab cvtColor_BGRA2BGR
                          cv2_imencode_jpg cfg fi sct tk)
  = match encode_jpeg Raster cv2_imencode_jpg cfg
            (fst (grab_frame Sct Shot Raster sct_grab cvtColor_BGRA2BGR cfg
                             (tick_state tk) (tick_desktop tk) sct)) with
    | Ok frame => [mjpeg_part frame]
    | Raise _ => []
    end.
Proof.
  unfold mjpeg_iteration.
  destruct (grab_frame _ _ _ _ _ _ _ _ _) as [img err]. cbn [fst].
  rewrite yields_app.
  assert (E : yields match err with
                     | Some e => [Log_warning ("Frame error: " ++ str_exn e)]
                     | None => []
                     end = []) by now destruct err.
  rewrite E. cbn [app].
  destruct (encode_jpeg Raster cv2_imencode_jpg cfg img) as [frame|e];
    [|reflexivity].
  destruct (_ <? fi)%float; reflexivity.
Qed.

(** X15.  The stream outlives the window: once the screen grabber is
    open, the parts that the generator yields are, turn by turn and in
    order, the framed encodings of what [grab_frame] returned, error
    frames included; a turn yields nothing only when the encoder fails.
    With an encoder that accepts every image, n turns yield n parts
    whatever happens to the window in between. *)
Theorem mjpeg_generator_parts
        (FPS : Z) (cfg : Config) (sct : Sct) (ticks : list Tick) :
  mss_mss = Ok sct ->
  Z.abs FPS < 2 ^ 63 ->
  exists events,
    mjpeg_generator Sct Shot Raster mss_mss sct_grab cvtColor_BGRA2BGR
                    cv2_imencode_jpg FPS cfg ticks = Ok events
    /\ yields events
       = flat_map
           (fun tk =>
              match encode_jpeg Raster cv2_imencode_jpg cfg
                      (fst (grab_frame Sct Shot Raster sct_grab
                                       cvtColor_BGRA2BGR cfg
                                       (tick_state tk) (tick_desktop tk) sct))
              with
              | Ok frame => [mjpeg_part frame]
              | Raise _ => []
              end) ticks
    /\ ((forall img, exists jpg,
           cv2_imencode_jpg img (JPEG_QUALITY cfg) = Ok (true, jpg)) ->
        List.length (yields events) = List.length ticks).
Proof.
  intros Hs HF. unfold mjpeg_generator.
  destruct (frame_interval_total FPS HF) as [fi ->]. rewrite Hs. cbn [bind].
  eexists. split; [reflexivity|].
  assert (E : forall l,
             yields (flat_map (mjpeg_iteration Sct Shot Raster sct_grab
                                 cvtColor_BGRA2BGR cv2_imencode_jpg cfg fi sct) l)
             = flat_map
                 (fun tk =>
                    match encode_jpeg Raster cv2_imencode_jpg cfg
                            (fst (grab_frame Sct Shot Raster sct_grab
                                             cvtColor_BGRA2BGR cfg
                                             (tick_state tk) (tick_desktop tk) sct))
                    with
                    | Ok frame => [mjpeg_part frame]
                    | Raise _ => []
                    end) l).
  { induction l as [|tk l IH]; [reflexivity|]. cbn [flat_map].
    now rewrite yields_app, mjpeg_iteration_yields, IH. }
  split; [apply E|]. intros Henc. rewrite E. clear E.
  induction ticks as [|tk l IH]; [reflexivity|]. cbn [flat_map].
  rewrite length_app, IH. unfold encode_jpeg.
  destruct (Henc (fst (grab_frame Sct Shot Raster sct_grab cvtColor_BGRA2BGR
                         cfg (tick_state tk) (tick_desktop tk) sct)))
    as [jpg ->].
  reflexivity.
Qed.

End StreamFacts.

Lemma mjpeg_generator_parts_witness :
  exists events,
    mjpeg_generator unit unit unit (Ok tt) demo_sct_grab demo_cvtColor
                    demo_imencode 10 shipped_config
                    [ {| tick_state := initial_state;
                         tick_desktop := [win_minimized];
                         tick_t0 := 100; tick_t1 := 100.25 |};
                      {| tick_state := initial_state;
                         tick_desktop := [];
                         tick_t0 := 100.25; tick_t1 := 100.26 |} ]
    = Ok events
    /\ yields events = [mjpeg_part [xff; xd8]; mjpeg_part [xff; xd8]].
Proof.
  destruct (mjpeg_generator_parts unit unit unit (Ok tt) demo_sct_grab
              demo_cvtColor demo_imencode 10 shipped_config tt
              [ {| tick_state := initial_state;
                   tick_desktop := [win_minimized];
                   tick_t0 := 100; tick_t1 := 100.25 |};
                {| tick_state := initial_state;
                   tick_desktop := [];
                   tick_t0 := 100.25; tick_t1 := 100.26 |} ]
              eq_refl ltac:(reflexivity)) as (events & E & Hy & _).
  exists events. split; [exact E|exact Hy].
Defined.

(** *** Framing *)

Lemma list_byte_of_string_cons (c : ascii) (s : string) :
  list_byte_of_string (String c s) = byte_of_ascii c :: list_byte_of_string s.
Proof. reflexivity. Qed.

Lemma list_byte_of_string_inj (s t : string) :
  list_byte_of_string s = list_byte_of_string t -> s = t.
Proof.
  intros H. rewrite <- (string_of_list_byte_of_string s),
                    <- (string_of_list_byte_of_string t).
  now rewrite H.
Qed.

Lemma string_of_uint_digits (d : Decimal.uint) :
  Forall (fun b => is_digit b = true)
         (list_byte_of_string (NilEmpty.string_of_uint d)).
Proof.
  induction d; cbn [NilEmpty.string_of_uint];
    rewrite ?list_byte_of_string_cons; constructor; auto.
Qed.

Lemma str_int_digits (n : Z) :
  0 <= n ->
  Forall (fun b => is_digit b = true) (list_byte_of_string (str_int n)).
Proof.
  intros Hn. unfold str_int. destruct n as [|p|p]; [| |lia].
  - repeat constructor.
  - cbn [Z.to_int NilZero.string_of_int]. unfold NilZero.string_of_uint.
    destruct (Pos.to_uint p); try apply string_of_uint_digits.
    repeat constructor.
Qed.

Lemma str_int_inj (n n' : Z) : str_int n = str_int n' -> n = n'.
Proof.
  unfold str_int. intros H. apply DecimalZ.to_int_inj.
  assert (Hnn : forall z, Z.to_int z <> Decimal.Pos Decimal.Nil /\
                          Z.to_int z <> Decimal.Neg Decimal.Nil).
  { intros [|p|p]; cbn [Z.to_int]; split; try discriminate;
      intros E; injection E as E; now apply (DecimalPos.Unsigned.to_uint_nonnil p). }
  assert (E : Some (Z.to_int n) = Some (Z.to_int n')).
  { rewrite <- (NilZero.isi (Z.to_int n)) by apply Hnn.
    rewrite <- (NilZero.isi (Z.to_int n')) by apply Hnn.
    now rewrite H. }
  now injection E.
Qed.

(** Two digit strings, each followed by a byte that is no digit, agree
    when what they begin agrees. *)
Lemma digits_prefix_unique (a a' : list byte) (c c' : byte) (t t' : list byte) :
  Forall (fun b => is_digit b = true) a ->
  Forall (fun b => is_digit b = true) a' ->
  is_digit c = false -> is_digit c' = false ->
  (a ++ c :: t = a' ++ c' :: t')%list ->
  a = a' /\ t = t'.
Proof.
  intros Ha. revert a'. induction Ha as [|x a Hx Ha IH]; intros a' Ha' Hc Hc' E.
  - destruct Ha' as [|x' a' Hx' Ha']; cbn [app] in E.
    + injection E as _ E. now split.
    + injection E as E _. congruence.
  - destruct Ha' as [|x' a' Hx' Ha']; cbn [app] in E.
    + injection E as E _. congruence.
    + injection E as -> E. destruct (IH a' Ha' Hc Hc' E) as [-> ->]. now split.
Qed.

Lemma app_eq_same_length {A} (a a' b b' : list A) :
  List.length a = List.length a' -> (a ++ b = a' ++ b')%list ->
  a = a' /\ b = b'.
Proof.
  revert a'. induction a as [|x a IH]; intros [|x' a'] Hl E;
    try discriminate; cbn [app] in E.
  - now split.
  - injection E as -> E. injection Hl as Hl.
    destruct (IH a' Hl E) as [-> ->]. now split.
Qed.

(** X16.  The framing of the stream is unambiguous for arbitrary binary
    payloads: two byte streams that begin with a part, one for [frame] and
    one for [frame'], and are equal, carry the same frame and continue the
    same way; bytes inside a frame that look like a boundary or a header
    cannot shift the split, because the Content-Length line states the
    exact number of payload bytes. *)
Theorem mjpeg_part_unambiguous (frame frame' rest rest' : list byte) :
  (mjpeg_part frame ++ rest = mjpeg_part frame' ++ rest')%list ->
  frame = frame' /\ rest = rest'.
Proof.
  unfold mjpeg_part. rewrite <- !app_assoc. intros E.
  apply app_inv_head in E.
  change (list_byte_of_string (CRLF ++ CRLF))
    with ([x0d; x0a; x0d; x0a]) in E.
  change (list_byte_of_string CRLF) with ([x0d; x0a]) in E.
  cbn [app] in E.
  apply digits_prefix_unique in E;
    try (apply str_int_digits; lia); try reflexivity.
  destruct E as [En E].
  apply list_byte_of_string_inj, str_int_inj, Nat2Z.inj in En.
  injection E as E.
  apply app_eq_same_length in E; [|exact En]. destruct E as [-> E].
  injection E as E. now split.
Qed.

Lemma mjpeg_part_unambiguous_witness :
  [xff; xd8; x0d; x0a] = [xff; xd8; x0d; x0a]
  /\ mjpeg_part [x2d; x2d] = mjpeg_part [x2d; x2d].
Proof.
  apply (mjpeg_part_unambiguous [xff; xd8; x0d; x0a] [xff; xd8; x0d; x0a]
           (mjpeg_part [x2d; x2d]) (mjpeg_part [x2d; x2d])).
  reflexivity.
Defined.

(** *** Exact values through the rounding steps *)

Lemma Zdigits2_ge_pow2 m : 0 < m -> 2 ^ (Zdigits2 m - 1) <= m.
Proof.
  intros Hm. rewrite Zdigits2_log2 by exact Hm.
  replace (Z.log2 m + 1 - 1) with (Z.log2 m) by lia.
  apply Z.log2_spec, Hm.
Qed.

Lemma pow2_pos (n : Z) : 0 <= n -> 0 < 2 ^ n.
Proof. intros. apply Z.pow_pos_nonneg; lia. Qed.

Lemma mod_pow2_split (m a b : Z) :
  0 <= a -> 0 <= b ->
  (m mod 2 ^ (a + b) = 0 <-> m mod 2 ^ a = 0 /\ (m / 2 ^ a) mod 2 ^ b = 0).
Proof.
  intros Ha Hb. pose proof (pow2_pos a Ha) as Pa. pose proof (pow2_pos b Hb) as Pb.
  rewrite Z.pow_add_r by lia.
  rewrite Z.rem_mul_r by lia.
  pose proof (Z.mod_pos_bound m (2 ^ a) Pa).
  pose proof (Z.mod_pos_bound (m / 2 ^ a) (2 ^ b) Pb).
  nia.
Qed.

Lemma shifted_1 (mrs : shr_record) :
  0 <= shr_m mrs -> shifted 1 mrs (shr_1 mrs).
Proof.
  destruct mrs as [m r s]. unfold shifted, shr_inexact. cbn [shr_m shr_r shr_s].
  intros Hm. change (2 ^ 1) with 2.
  rewrite <- Z.div2_div, Zmod_odd.
  destruct m as [|[p|p|]|p]; [| | | |exfalso; apply Hm; reflexivity];
    destruct r, s; cbn;
    (split; [try apply Pos2Z.is_nonneg; apply Z.le_refl|]);
    (split; [reflexivity|]);
    split; intros H; try discriminate;
    try (destruct H; discriminate); auto.
Qed.

Lemma shifted_compose (a b : Z) (x y z : shr_record) :
  0 <= a -> 0 <= b -> shifted a x y -> shifted b y z -> shifted (a + b) x z.
Proof.
  intros Ha Hb (Hy0 & Hy & Ey) (Hz0 & Hz & Ez). unfold shifted.
  split; [exact Hz0|]. split.
  - rewrite Hz, Hy, Z.pow_add_r by lia.
    pose proof (pow2_pos a Ha). pose proof (pow2_pos b Hb).
    apply Z.div_div; lia.
  - rewrite Ez, Ey, Hy, (mod_pow2_split (shr_m x) a b Ha Hb). tauto.
Qed.

Lemma shifted_iter (p : positive) : forall mrs,
  0 <= shr_m mrs -> shifted (Zpos p) mrs (iter_pos shr_1 p mrs).
Proof.
  induction p as [p IH|p IH|]; intros mrs Hm; cbn [iter_pos].
  - pose proof (shifted_1 mrs Hm) as H1.
    pose proof (IH _ (proj1 H1)) as H2.
    pose proof (IH _ (proj1 H2)) as H3.
    replace (Zpos p~1) with (1 + Zpos p + Zpos p) by lia.
    apply shifted_compose with (y := iter_pos shr_1 p (shr_1 mrs)); try lia; auto.
    apply shifted_compose with (y := shr_1 mrs); try lia; auto.
  - pose proof (IH _ Hm) as H2.
    pose proof (IH _ (proj1 H2)) as H3.
    replace (Zpos p~0) with (Zpos p + Zpos p) by lia.
    apply shifted_compose with (y := iter_pos shr_1 p mrs); try lia; auto.
  - apply shifted_1, Hm.
Qed.

Lemma loc_of_exact_shr (mrs : shr_record) :
  shr_inexact mrs = false -> loc_of_shr_record mrs = loc_Exact.
Proof. destruct mrs as [m [] []]; cbn; intros H; try discriminate; reflexivity. Qed.

Ltac fexp_lia :=
  unfold fexp, SpecFloat.emin, emin, emax, prec in *;
  change IntDef.Z.max with Z.max in *; lia.

(** The first right shift of [binary_round_aux] on an exact input. *)
Lemma shr_fexp_exact (m e : Z) :
  0 <= m ->
  let mrs := fst (shr_fexp prec emax m e loc_Exact) in
  let e1 := snd (shr_fexp prec emax m e loc_Exact) in
  e1 = e + Z.max 0 (fexp prec emax (Zdigits2 m + e) - e) /\
  0 <= shr_m mrs /\
  shr_m mrs = m / 2 ^ (e1 - e) /\
  (m mod 2 ^ (e1 - e) = 0 -> loc_of_shr_record mrs = loc_Exact) /\
  fexp prec emax (Zdigits2 (shr_m mrs) + e1) <= e1 /\
  (0 < e1 - e -> emin < e1 -> 2 ^ 52 <= shr_m mrs).
Proof.
  intros Hm. unfold shr_fexp, shr.
  destruct (fexp prec emax (Zdigits2 m + e) - e) as [|p|p] eqn:Hn;
    cbn [fst snd].
  - cbn [shr_record_of_loc shr_m loc_of_shr_record].
    rewrite Z.sub_diag. change (2 ^ 0) with 1. rewrite Z.div_1_r.
    repeat split; try lia; reflexivity.
  - replace (e + Zpos p - e) with (Zpos p) by lia.
    pose proof (shifted_iter p (shr_record_of_loc m loc_Exact) Hm)
      as (H0 & Hv & Hx).
    pose proof (iter_shr_1_digits p (shr_record_of_loc m loc_Exact) Hm)
      as (_ & Hd).
    set (mrs := iter_pos shr_1 p (shr_record_of_loc m loc_Exact)) in *.
    cbn [shr_record_of_loc shr_m] in Hv, Hd, Hx.
    split; [lia|]. split; [exact H0|]. split; [exact Hv|].
    split; [|split].
    + intros Hmod. apply loc_of_exact_shr. apply Hx. split; [reflexivity|exact Hmod].
    + rewrite Hd. pose proof (Zdigits2_nonneg m). fexp_lia.
    + intros _ He1.
      assert (Hd53 : Zdigits2 (shr_m mrs) = 53).
      { rewrite Hd. pose proof (Zdigits2_nonneg m). fexp_lia. }
      assert (Hpos : 0 < shr_m mrs).
      { destruct (Z.eq_dec (shr_m mrs) 0) as [E|E]; [|lia].
        rewrite E in Hd53. discriminate. }
      pose proof (Zdigits2_ge_pow2 _ Hpos) as H. rewrite Hd53 in H. exact H.
  - cbn [shr_record_of_loc shr_m loc_of_shr_record].
    rewrite Z.sub_diag. change (2 ^ 0) with 1. rewrite Z.div_1_r.
    repeat split; try lia; reflexivity.
Qed.

Lemma Zdigits2_pos m : 0 < m -> 1 <= Zdigits2 m.
Proof.
  intros Hm. rewrite Zdigits2_log2 by exact Hm.
  pose proof (Z.log2_nonneg m). lia.
Qed.

Section Units.

Variable K : Z.

Lemma units_shift (m e n : Z) :
  0 <= n -> 0 <= e + K -> units K (m * 2 ^ n) e = units K m (e + n).
Proof.
  intros Hn He. unfold units.
  replace (e + n + K) with (e + K + n) by lia.
  rewrite (Z.pow_add_r 2 (e + K) n) by lia. ring.
Qed.

Lemma units_le_iff (m m' e : Z) :
  0 <= e + K -> (units K m e <= units K m' e <-> m <= m').
Proof.
  intros He. unfold units. symmetry.
  apply Z.mul_le_mono_pos_r, pow2_pos, He.
Qed.

Lemma units_lt_iff (m m' e : Z) :
  0 <= e + K -> (units K m e < units K m' e <-> m < m').
Proof.
  intros He. unfold units. symmetry.
  apply Z.mul_lt_mono_pos_r, pow2_pos, He.
Qed.

Lemma units_pow (a e : Z) :
  0 <= a -> 0 <= e + K -> units K (2 ^ a) e = 2 ^ (a + e + K).
Proof.
  intros Ha He. unfold units. rewrite <- (Z.pow_add_r 2 a (e + K)) by lia.
  f_equal. lia.
Qed.

(** A representable number lies below [2^(53+k)]. *)
Lemma representable_lt (b k : Z) :
  representable b k -> 0 <= emin + K ->
  units K b k < 2 ^ (53 + k + K).
Proof.
  intros (Hb & Hk) HK.
  rewrite <- units_pow by lia. apply units_lt_iff; lia.
Qed.

(** A representable number is a multiple of every unit [2^e1] not above
    its own. *)
Lemma representable_rescale (b k e1 : Z) :
  e1 <= k -> 0 <= e1 + K ->
  units K b k = units K (b * 2 ^ (k - e1)) e1.
Proof.
  intros Hk He. rewrite units_shift by lia. f_equal. lia.
Qed.

End Units.

Section Rounding.

Variable K : Z.
Hypothesis HK : 0 <= emin + K.

(** Rounding an exact positive number [m * 2^e] never crosses a
    representable number: whatever representable bound lies above
    (below) the input lies above (below) the rounded result. *)
Lemma binary_round_aux_sandwich (sx : bool) (m e : Z) :
  0 < m -> 0 <= e + K ->
  exists m3 e3,
    0 <= m3 /\ e <= e3 /\
    binary_round_aux prec emax sx m e loc_Exact = round_result sx m3 e3 /\
    (forall b k, representable b k ->
                 units K m e <= units K b k -> units K m3 e3 <= units K b k) /\
    (forall b k, representable b k ->
                 units K b k <= units K m e -> units K b k <= units K m3 e3).
Proof.
  intros Hm He. unfold binary_round_aux.
  pose proof (shr_fexp_exact m e ltac:(lia)) as H1. cbv zeta in H1.
  destruct (shr_fexp prec emax m e loc_Exact) as [mrs1 e1]. cbn [fst snd] in H1.
  destruct H1 as (Hn1 & Hm1 & Hv1 & Hx1 & Hc1 & Hbig1).
  set (m1 := shr_m mrs1) in *.
  set (m2 := round_nearest_even m1 (loc_of_shr_record mrs1)).
  assert (Hm2 : m1 <= m2 <= m1 + 1) by (apply round_nearest_even_bounds, Hm1).
  assert (Hx2 : m mod 2 ^ (e1 - e) = 0 -> m2 = m1).
  { intros Hmod. unfold m2. rewrite (Hx1 Hmod). reflexivity. }
  clearbody m2. clear Hx1.
  pose proof (shr_fexp_exact m2 e1 ltac:(lia)) as H2. cbv zeta in H2.
  destruct (shr_fexp prec emax m2 e1 loc_Exact) as [mrs3 e3]. cbn [fst snd] in H2.
  destruct H2 as (Hn3 & Hm3 & Hv3 & _ & _ & _).
  set (m3 := shr_m mrs3) in *. clearbody m3 m1.
  exists m3, e3.
  assert (Hd : 1 <= Zdigits2 m) by (apply Zdigits2_pos, Hm).
  assert (Hd2 : Zdigits2 m2 <= Zdigits2 m1 + 1).
  { pose proof (Zdigits2_mono m2 (m1 + 1) ltac:(lia)).
    pose proof (Zdigits2_succ m1 Hm1). lia. }
  assert (Hn3' : e3 - e1 = 0 \/ e3 - e1 = 1 /\ Zdigits2 m2 = 54 /\ Zdigits2 m1 = 53).
  { clear - Hn3 Hc1 Hd2. fexp_lia. }
  assert (Hu : units K m3 e3 = units K m2 e1).
  { destruct Hn3' as [E|(E & E2 & E1)].
    - replace e3 with e1 by lia. rewrite E in Hv3. change (2 ^ 0) with 1 in Hv3.
      rewrite Z.div_1_r in Hv3. now rewrite Hv3.
    - assert (Hlt : m1 < 2 ^ 53).
      { pose proof (Zdigits2_lt_pow2 m1 Hm1) as H. now rewrite E1 in H. }
      assert (Hge : 2 ^ 53 <= m2).
      { assert (Hp : 0 < m2).
        { destruct (Z.eq_dec m2 0) as [E0|E0]; [|lia]. rewrite E0 in E2. discriminate. }
        pose proof (Zdigits2_ge_pow2 m2 Hp) as H. now rewrite E2 in H. }
      assert (E3 : m2 = m3 * 2 ^ 1).
      { rewrite Hv3, E. assert (m2 = 2 ^ 53) as -> by lia. reflexivity. }
      rewrite E3. replace e3 with (e1 + 1) by lia.
      symmetry. apply units_shift; lia. }
  split; [exact Hm3|]. split; [lia|]. split; [reflexivity|].
  rewrite Hu. clear Hu Hv3 Hn3 Hn3' Hd2 m3 Hm3 mrs3.
  set (n := e1 - e) in *.
  assert (Hn : 0 <= n) by lia.
  assert (P2n : 0 < 2 ^ n) by (apply pow2_pos, Hn).
  destruct (Z.eq_dec n 0) as [En|En].
  { (* no shift: the input is kept as it is *)
    assert (Em : m2 = m).
    { rewrite En in *. change (2 ^ 0) with 1 in *. rewrite Z.div_1_r in Hv1.
      rewrite Hx2, Hv1; [reflexivity|apply Z.mod_1_r]. }
    assert (Ee : e1 = e) by lia. rewrite Em, Ee. split; intros b k _ H; exact H. }
  assert (Ee1 : e1 = fexp prec emax (Zdigits2 m + e)) by lia.
  assert (Hdiv : m = 2 ^ n * m1 + m mod 2 ^ n).
  { rewrite Hv1. apply Z.div_mod. lia. }
  pose proof (Z.mod_pos_bound m (2 ^ n) P2n) as Hmod.
  assert (Hpow : 2 ^ (Zdigits2 m - 1 + e + K) <= units K m e).
  { rewrite <- units_pow by lia. apply units_le_iff; [lia|].
    apply Zdigits2_ge_pow2, Hm. }
  split.
  - (* a representable bound above *)
    intros b k Hr H. pose proof (representable_lt K b k Hr HK) as Hlt.
    destruct Hr as (Hb & Hk).
    assert (Hke : e1 <= k).
    { destruct (Z_le_gt_dec e1 k) as [Hle|Hgt]; [exact Hle|]. exfalso.
      assert (53 + k + K <= Zdigits2 m - 1 + e + K) by (clear - Ee1 Hgt Hk; fexp_lia).
      pose proof (Z.pow_le_mono_r 2 _ _ ltac:(lia) H0). lia. }
    rewrite (representable_rescale K b k e1) in * by lia.
    set (beta := b * 2 ^ (k - e1)) in *.
    apply units_le_iff; [lia|].
    assert (Hmb : m <= beta * 2 ^ n).
    { apply (units_le_iff K _ _ e); [lia|]. rewrite units_shift by lia.
      replace (e + n) with e1 by (unfold n; lia). exact H. }
    assert (Hm1b : m1 <= beta).
    { rewrite Hv1. apply Z.div_le_upper_bound; lia. }
    destruct (Z.eq_dec m1 beta) as [E|E]; [|lia].
    rewrite Hx2; [lia|]. subst m1. lia.
  - (* a representable bound below *)
    intros b k Hr H. pose proof (representable_lt K b k Hr HK) as Hlt.
    destruct Hr as (Hb & Hk).
    destruct (Z_le_gt_dec e1 k) as [Hle|Hgt].
    + rewrite (representable_rescale K b k e1) in * by lia.
      set (beta := b * 2 ^ (k - e1)) in *.
      apply units_le_iff; [lia|].
      assert (Hmb : beta * 2 ^ n <= m).
      { apply (units_le_iff K _ _ e); [lia|]. rewrite units_shift by lia.
        replace (e + n) with e1 by (unfold n; lia). exact H. }
      assert (Hm1b : beta <= m1).
      { rewrite Hv1. apply Z.div_le_lower_bound; lia. }
      lia.
    + assert (Hbig : 2 ^ 52 <= m1) by (apply Hbig1; fexp_lia).
      assert (H52 : units K (2 ^ 52) e1 <= units K m2 e1).
      { apply units_le_iff; lia. }
      rewrite units_pow in H52 by lia.
      assert (53 + k + K <= 52 + e1 + K) by lia.
      pose proof (Z.pow_le_mono_r 2 _ _ ltac:(lia) H0). lia.
Qed.

Lemma units_opp (b k : Z) : units K (- b) k = - units K b k.
Proof. unfold units. ring. Qed.

Lemma units_pos (b k : Z) : 0 <= k + K -> 0 < b -> 0 < units K b k.
Proof. intros Hk Hb. unfold units. pose proof (pow2_pos (k + K) Hk). nia. Qed.

Lemma units_nonneg (b k : Z) : 0 <= k + K -> 0 <= b -> 0 <= units K b k.
Proof. intros Hk Hb. unfold units. pose proof (pow2_pos (k + K) Hk). nia. Qed.

Lemma round_result_units (sx : bool) (m3 e3 kk : Z) :
  0 <= m3 -> sf_mag_le kk (round_result sx m3 e3) ->
  sf_units K (round_result sx m3 e3) = cond_Zopp sx (units K m3 e3).
Proof.
  intros Hm. unfold round_result. destruct m3 as [|p|p]; [| |lia].
  - intros _. unfold units. cbn [sf_units]. now destruct sx.
  - destruct (e3 <=? emax - prec); [reflexivity|intros []].
Qed.

(** The same for a signed value and signed bounds. *)
Lemma signed_sandwich (sx : bool) (v v3 : Z) :
  0 < v -> 0 <= v3 ->
  (forall b k, representable b k -> v <= units K b k -> v3 <= units K b k) ->
  (forall b k, representable b k -> units K b k <= v -> units K b k <= v3) ->
  forall lo klo hi khi,
    srepresentable lo klo -> srepresentable hi khi ->
    units K lo klo <= cond_Zopp sx v <= units K hi khi ->
    units K lo klo <= cond_Zopp sx v3 <= units K hi khi.
Proof.
  intros Hv Hv3 Hup Hlo lo klo hi khi (Hl & Hkl) (Hh & Hkh) [H1 H2].
  assert (Rl : 0 <= lo -> representable lo klo) by (intros; split; lia).
  assert (Rh : 0 <= hi -> representable hi khi) by (intros; split; lia).
  assert (Rl' : lo <= 0 -> representable (- lo) klo) by (intros; split; lia).
  assert (Rh' : hi <= 0 -> representable (- hi) khi) by (intros; split; lia).
  pose proof (units_opp lo klo) as Ol. pose proof (units_opp hi khi) as Oh.
  destruct sx; cbn [cond_Zopp] in *; split.
  - destruct (Z_le_gt_dec lo 0) as [Hs|Hs].
    + specialize (Hup _ _ (Rl' Hs)). lia.
    + pose proof (units_pos lo klo ltac:(lia) ltac:(lia)). lia.
  - destruct (Z_le_gt_dec hi 0) as [Hs|Hs].
    + specialize (Hlo _ _ (Rh' Hs)). lia.
    + pose proof (units_pos hi khi ltac:(lia) ltac:(lia)). lia.
  - destruct (Z_le_gt_dec 0 lo) as [Hs|Hs].
    + specialize (Hlo _ _ (Rl Hs)). lia.
    + pose proof (units_pos (- lo) klo ltac:(lia) ltac:(lia)). lia.
  - destruct (Z_le_gt_dec 0 hi) as [Hs|Hs].
    + specialize (Hup _ _ (Rh Hs)). lia.
    + pose proof (units_pos (- hi) khi ltac:(lia) ltac:(lia)). lia.
Qed.

Lemma shl_align_units (mx : positive) (ex ex' : Z) :
  0 <= ex + K -> 0 <= ex' + K ->
  units K (Zpos (fst (shl_align mx ex ex'))) (snd (shl_align mx ex ex'))
  = units K (Zpos mx) ex
  /\ 0 <= snd (shl_align mx ex ex') + K.
Proof.
  intros He He'. unfold shl_align.
  destruct (ex' - ex) as [|d|d] eqn:Hd; cbn [fst snd]; try (split; [reflexivity|lia]).
  split; [|lia]. rewrite iter_xO_value, units_shift by lia. f_equal. lia.
Qed.

(** Rounding a signed integer multiple of [2^e]: the result stays between
    any two representable numbers that enclose the input. *)
Lemma binary_normalize_between (z e : Z) (szero : bool) (kk : Z)
      (lo klo hi khi : Z) :
  0 <= e + K ->
  sf_mag_le kk (binary_normalize prec emax z e szero) ->
  srepresentable lo klo -> srepresentable hi khi ->
  units K lo klo <= units K z e <= units K hi khi ->
  units K lo klo <= sf_units K (binary_normalize prec emax z e szero)
  <= units K hi khi.
Proof.
  intros He Hfin Hl Hh Hb.
  assert (Hround : forall sx p,
             sf_mag_le kk (binary_round prec emax sx p e) ->
             units K lo klo <= cond_Zopp sx (units K (Zpos p) e) <= units K hi khi ->
             units K lo klo <= sf_units K (binary_round prec emax sx p e)
             <= units K hi khi).
  { intros sx p Hf Hbp. unfold binary_round in *.
    pose proof (shl_align_units p e (fexp prec emax (Zpos (digits2_pos p) + e)) He
                  ltac:(fexp_lia)) as [Ea Hea].
    destruct (shl_align p e _) as [mz ez]. cbn [fst snd] in Ea, Hea.
    destruct (binary_round_aux_sandwich sx (Zpos mz) ez ltac:(lia) Hea)
      as (m3 & e3 & Hm3 & He3 & Hr & Hup & Hlo).
    rewrite Hr in *. rewrite (round_result_units sx m3 e3 kk Hm3 Hf).
    rewrite Ea in Hup, Hlo.
    apply (signed_sandwich sx (units K (Zpos p) e) (units K m3 e3)); auto.
    - apply units_pos; lia.
    - apply units_nonneg; lia. }
  destruct z as [|p|p]; cbn [binary_normalize] in *.
  - cbn [sf_units]. unfold units in Hb at 2 3. lia.
  - apply Hround; [exact Hfin|exact Hb].
  - apply Hround; [exact Hfin|].
    cbn [cond_Zopp]. rewrite <- units_opp. exact Hb.
Qed.

End Rounding.

(** *** Validity of the converted integers *)

Lemma valid_finite_facts (sg : bool) (m : positive) (e : Z) :
  valid_binary (S754_finite sg m e) = true -> emin <= e /\ Zpos m < 2 ^ 53.
Proof.
  intros Hv. pose proof (valid_digits_le_prec sg m e Hv) as Hd.
  cbn [SpecFloat.valid_binary] in Hv. unfold bounded, canonical_mantissa in Hv.
  apply andb_true_iff in Hv as [Hc _]. apply Z.eqb_eq in Hc.
  split; [clear Hd; fexp_lia|].
  pose proof (Zdigits2_lt_pow2 (Zpos m) ltac:(lia)) as Hlt.
  cbn [Zdigits2] in Hlt.
  apply Z.lt_le_trans with (1 := Hlt).
  apply Z.pow_le_mono_r; [lia|exact Hd].
Qed.

Lemma binary_round_opp (p : positive) (e : Z) :
  binary_round prec emax true p e = SFopp (binary_round prec emax false p e).
Proof.
  unfold binary_round, binary_round_aux.
  destruct (shl_align p e _) as [mz ez].
  destruct (shr_fexp prec emax (Zpos mz) ez loc_Exact) as [mrs1 e1].
  destruct (shr_fexp prec emax _ e1 loc_Exact) as [mrs3 e3].
  destruct (shr_m mrs3); try reflexivity.
  destruct (e3 <=? emax - prec); reflexivity.
Qed.

Lemma valid_SFopp (s : spec_float) : valid_binary (SFopp s) = valid_binary s.
Proof. destruct s; reflexivity. Qed.

Lemma binary_normalize_valid (z : Z) :
  Z.abs z < 2 ^ 63 ->
  valid_binary (binary_normalize prec emax z 0 false) = true.
Proof.
  intros Hz.
  assert (Hpos : forall p, Zpos p < 2 ^ 63 ->
                   valid_binary (binary_round prec emax false p 0) = true).
  { intros p Hp.
    change (binary_round prec emax false p 0)
      with (binary_normalize prec emax (Zpos p) 0 false).
    replace (Zpos p) with (Uint63.to_Z (Uint63.of_Z (Zpos p))).
    - rewrite <- of_uint63_spec. apply Prim2SF_valid.
    - rewrite Uint63.of_Z_spec. apply Z.mod_small.
      change Uint63.wB with (2 ^ 63). lia. }
  destruct z as [|p|p]; cbn [binary_normalize].
  - reflexivity.
  - apply Hpos. lia.
  - rewrite binary_round_opp, valid_SFopp. apply Hpos. lia.
Qed.

(** What [float_of_int] returns is the rounded integer itself. *)
Lemma float_of_int_spec (z : Z) :
  Z.abs z < 2 ^ 63 ->
  exists f, float_of_int z = Ok f /\
            Prim2SF f = binary_normalize prec emax z 0 false /\
            sf_mag_le 64 (Prim2SF f).
Proof.
  intros Hz. unfold float_of_int.
  assert (Hd : Zdigits2 z <= 63).
  { replace (Zdigits2 z) with (Zdigits2 (Z.abs z)) by (destruct z; reflexivity).
    apply Zdigits2_le_pow2; [apply Z.abs_nonneg | discriminate | exact Hz]. }
  assert (Hm : sf_mag_le (63 + 1) (binary_normalize prec emax z 0 false)).
  { apply binary_normalize_mag; b64_lia. }
  pose proof (Prim2SF_SF2Prim _ (binary_normalize_valid z Hz)) as E.
  destruct (binary_normalize prec emax z 0 false) as [s|s| |s m e] eqn:En;
    cbn [sf_mag_le] in Hm; try contradiction;
    eexists; (split; [reflexivity|]); rewrite E; split; auto.
Qed.

Section Operations.

Variable K : Z.
Hypothesis HK : 0 <= 2 * emin + K.

Lemma offset_covers_emin : 0 <= emin + K.
Proof. clear - HK. fexp_lia. Qed.

Lemma units_add (a b e : Z) : units K (a + b) e = units K a e + units K b e.
Proof. unfold units. ring. Qed.

Lemma units_cond_Zopp (s : bool) (a e : Z) :
  units K (cond_Zopp s a) e = cond_Zopp s (units K a e).
Proof. destruct s; cbn [cond_Zopp]; [apply units_opp|reflexivity]. Qed.

(** An integer below [2^53] in magnitude converts without error. *)
Lemma float_of_int_exact (z : Z) :
  Z.abs z < 2 ^ 53 ->
  exists f, float_of_int z = Ok f /\
            sf_mag_le 64 (Prim2SF f) /\
            sf_units K (Prim2SF f) = units K z 0.
Proof.
  intros Hz.
  destruct (float_of_int_spec z) as (f & Hf & Hp & Hm).
  { apply Z.lt_trans with (1 := Hz). reflexivity. }
  exists f. split; [exact Hf|]. split; [exact Hm|].
  rewrite Hp in *.
  assert (Hs : srepresentable z 0) by (split; [exact Hz|discriminate]).
  pose proof offset_covers_emin as HK1.
  pose proof (binary_normalize_between K HK1 z 0 false 64 z 0 z 0
                ltac:(fexp_lia) Hm Hs Hs ltac:(lia)).
  lia.
Qed.

(** *** Multiplication by a clamped fraction *)

Lemma sf_clamped_le_one (m : positive) (e : Z) :
  sf_clamped (S754_finite false m e) ->
  e <= -52 /\ (e = -52 -> Zpos m <= 2 ^ 52).
Proof.
  cbn [sf_clamped]. rewrite Prim2SF_one. unfold SFleb. cbn [SFcompare].
  destruct (e ?= -52) eqn:He.
  - apply Z.compare_eq in He. subst e. intros Hc. split; [lia|]. intros _.
    destruct (Pos.compare_cont Eq m 4503599627370496) eqn:Hm; try discriminate.
    + apply Pos.compare_eq in Hm. subst m. apply Z.le_refl.
    + assert (Hlt : (m < 4503599627370496)%positive).
      { unfold Pos.lt, Pos.compare. exact Hm. }
      apply Pos2Z.pos_lt_pos in Hlt. apply Z.lt_le_incl. exact Hlt.
  - intros _. assert (He' : e < -52) by exact He. split; lia.
  - discriminate.
Qed.

Lemma SFmul_clamped (x c : spec_float) (kx kk : Z) :
  valid_binary x = true -> valid_binary c = true ->
  sf_mag_le kx x -> 0 <= sf_units K x ->
  sf_clamped c ->
  sf_mag_le kk (SFmul prec emax x c) ->
  0 <= sf_units K (SFmul prec emax x c) <= sf_units K x
  /\ (c = Prim2SF 1 -> sf_units K (SFmul prec emax x c) = sf_units K x)
  /\ (c = Prim2SF 0 -> sf_units K (SFmul prec emax x c) = 0).
Proof.
  intros Vx Vc Hx Hx0 Hc Hfin. pose proof offset_covers_emin as HK1.
  destruct c as [[]|[]| |[] mc ec]; cbn [sf_clamped] in Hc; try contradiction.
  - (* the fraction is 0.0 *)
    destruct x as [sx|sx| |sx mx ex]; cbn [sf_mag_le] in Hx; try contradiction;
      cbn [SFmul sf_units] in *; (split; [lia|]);
      split; intros E; try reflexivity;
      rewrite Prim2SF_one in E; discriminate.
  - destruct x as [sx|sx| |sx mx ex]; cbn [sf_mag_le] in Hx; try contradiction.
    + cbn [SFmul sf_units]. split; [lia|]. split; intros _; reflexivity.
    + destruct (valid_finite_facts _ _ _ Vx) as (Hex & Hmx).
      destruct (valid_finite_facts _ _ _ Vc) as (Hec & Hmc).
      destruct (sf_clamped_le_one mc ec Hc) as (Hec52 & Hmc52).
      assert (Hsx : sx = false).
      { destruct sx; [|reflexivity]. cbn [sf_units cond_Zopp] in Hx0.
        pose proof (units_pos K (Zpos mx) ex ltac:(lia) ltac:(lia)). lia. }
      subst sx. cbn [SFmul xorb sf_units cond_Zopp] in *.
      destruct (binary_round_aux_sandwich K HK1 false (Zpos (mx * mc)) (ex + ec)
                  ltac:(lia) ltac:(fexp_lia))
        as (m3 & e3 & Hm3 & He3 & Hr & Hup & Hlo).
      rewrite Hr in *. rewrite (round_result_units K false m3 e3 kk Hm3 Hfin).
      cbn [cond_Zopp].
      assert (Rx : representable (Zpos mx) ex) by (split; [lia|exact Hex]).
      split; [split|split].
      * apply units_nonneg; lia.
      * apply Hup; [exact Rx|].
        rewrite Pos2Z.inj_mul.
        assert (Hle : Zpos mc <= 2 ^ (- ec)).
        { destruct (Z.eq_dec ec (-52)) as [E|E].
          - rewrite E. apply Hmc52, E.
          - apply Z.lt_le_incl, Z.lt_le_trans with (1 := Hmc).
            apply Z.pow_le_mono_r; lia. }
        unfold units. replace (ex + K) with ((ex + ec + K) + - ec) by lia.
        rewrite (Z.pow_add_r 2 (ex + ec + K) (- ec)) by fexp_lia.
        pose proof (pow2_pos (ex + ec + K) ltac:(fexp_lia)).
        nia.
      * intros E1. rewrite Prim2SF_one in E1. injection E1 as -> ->.
        assert (Eu : units K (Zpos (mx * 4503599627370496)) (ex + -52)
                     = units K (Zpos mx) ex).
        { rewrite Pos2Z.inj_mul. change (Zpos 4503599627370496) with (2 ^ 52).
          rewrite units_shift by fexp_lia. f_equal. lia. }
        rewrite Eu in Hup, Hlo.
        specialize (Hup _ _ Rx ltac:(lia)). specialize (Hlo _ _ Rx ltac:(lia)).
        lia.
      * intros E0. rewrite Prim2SF_zero in E0. discriminate.
Qed.

(** *** Addition between two representable bounds *)

Lemma SFadd_between (x y : spec_float) (kk lo klo hi khi : Z) :
  valid_binary x = true -> valid_binary y = true ->
  sf_mag_le kk x -> sf_mag_le kk y ->
  sf_mag_le kk (SFadd prec emax x y) ->
  srepresentable lo klo -> srepresentable hi khi ->
  units K lo klo <= sf_units K x + sf_units K y <= units K hi khi ->
  units K lo klo <= sf_units K (SFadd prec emax x y) <= units K hi khi.
Proof.
  intros Vx Vy Hx Hy Hfin Hl Hh Hb. pose proof offset_covers_emin as HK1.
  destruct x as [sx|sx| |sx mx ex], y as [sy|sy| |sy my ey];
    cbn [sf_mag_le] in Hx, Hy; try contradiction.
  - cbn [SFadd]. cbn [sf_units] in Hb.
    destruct sx, sy; cbn [sf_units]; lia.
  - cbn [SFadd]. cbn [sf_units] in Hb |- *. lia.
  - cbn [SFadd]. cbn [sf_units] in Hb |- *. lia.
  - destruct (valid_finite_facts _ _ _ Vx) as (Hex & _).
    destruct (valid_finite_facts _ _ _ Vy) as (Hey & _).
    cbn [SFadd] in *. change IntDef.Z.min with Z.min in *.
    set (ez := Z.min ex ey) in *.
    assert (Hez : emin <= ez /\ ez <= ex /\ ez <= ey) by (unfold ez; lia).
    assert (HezK : 0 <= ez + K) by (clear - HK1 Hez; lia).
    apply (binary_normalize_between K HK1 _ ez false kk lo klo hi khi HezK Hfin Hl Hh).
    rewrite units_add, !units_cond_Zopp.
    rewrite (shl_align_value mx ex ez), (shl_align_value my ey ez) by lia.
    rewrite !units_shift by lia.
    replace (ez + (ex - ez)) with ex by lia.
    replace (ez + (ey - ez)) with ey by lia.
    exact Hb.
Qed.

(** *** Truncation between two integers *)

Lemma int_of_float_between (f : float) (z lo hi : Z) :
  int_of_float f = Ok z ->
  units K lo 0 <= sf_units K (Prim2SF f) <= units K hi 0 ->
  lo <= z <= hi.
Proof.
  intros Hz Hb. pose proof offset_covers_emin as HK1.
  assert (HK0 : 0 <= K) by (clear - HK; fexp_lia).
  pose proof (pow2_pos K HK0) as PK.
  pose proof (Prim2SF_valid f) as Vf.
  destruct (Prim2SF f) as [s|s| |s m e] eqn:Ef.
  - unfold int_of_float in Hz. rewrite Ef in Hz. injection Hz as <-.
    cbn [sf_units] in Hb. unfold units in Hb. rewrite !Z.add_0_l in Hb. nia.
  - unfold int_of_float in Hz. rewrite Ef in Hz. discriminate.
  - unfold int_of_float in Hz. rewrite Ef in Hz. discriminate.
  - destruct (valid_finite_facts _ _ _ Vf) as (He & _).
    rewrite (int_of_float_truncates f s m e Ef) in Hz. injection Hz as <-.
    cbn [sf_units] in Hb. unfold units in Hb. rewrite !Z.add_0_l in Hb.
    destruct (0 <=? e) eqn:H0.
    + apply Z.leb_le in H0.
      rewrite (Z.pow_add_r 2 e K) in Hb by lia.
      assert (Hv : cond_Zopp s (Zpos m * (2 ^ e * 2 ^ K))
                   = cond_Zopp s (Zpos m * 2 ^ e) * 2 ^ K)
        by (destruct s; cbn [cond_Zopp]; ring).
      rewrite Hv in Hb. destruct Hb as [Hb1 Hb2].
      apply Z.mul_le_mono_pos_r in Hb1; [|exact PK].
      apply Z.mul_le_mono_pos_r in Hb2; [|exact PK].
      split; assumption.
    + apply Z.leb_gt in H0.
      pose proof (pow2_pos (e + K) ltac:(clear - He HK1; lia)) as PQ.
      pose proof (pow2_pos (- e) ltac:(lia)) as PR.
      assert (EK : 2 ^ K = 2 ^ (- e) * 2 ^ (e + K)).
      { rewrite <- Z.pow_add_r by (clear - He HK1 H0; lia). f_equal. lia. }
      rewrite EK in Hb.
      assert (Hv : cond_Zopp s (Zpos m * 2 ^ (e + K))
                   = cond_Zopp s (Zpos m) * 2 ^ (e + K))
        by (destruct s; cbn [cond_Zopp]; ring).
      rewrite Hv, !Z.mul_assoc in Hb. destruct Hb as [Hb1 Hb2].
      apply Z.mul_le_mono_pos_r in Hb1; [|exact PQ].
      apply Z.mul_le_mono_pos_r in Hb2; [|exact PQ].
      clear Hv EK PQ.
      destruct s; cbn [cond_Zopp] in *.
      * assert (Zpos m / 2 ^ (- e) <= - lo)
          by (apply Z.div_le_upper_bound; [exact PR|lia]).
        assert (- hi <= Zpos m / 2 ^ (- e))
          by (apply Z.div_le_lower_bound; [exact PR|lia]).
        lia.
      * assert (lo <= Zpos m / 2 ^ (- e))
          by (apply Z.div_le_lower_bound; [exact PR|lia]).
        assert (Zpos m / 2 ^ (- e) <= hi)
          by (apply Z.div_le_upper_bound; [exact PR|lia]).
        lia.
Qed.

(** *** One coordinate of the relative branch *)

(** [int(origin + extent * frac)] stays between [origin + a] and
    [origin + b] whenever the rounded product [extent * frac] lies between
    the integers [a] and [b]. *)
Lemma scale_to_pixel_between (origin extent : Z) (frac : float) (z : Z) :
  0 <= extent -> Z.abs origin + extent < 2 ^ 53 ->
  sf_clamped (Prim2SF frac) ->
  scale_to_pixel origin extent frac = Ok z ->
  origin <= z <= origin + extent
  /\ (frac = 0%float -> z = origin)
  /\ (frac = 1%float -> z = origin + extent).
Proof.
  intros He Hr Hc. unfold scale_to_pixel, int_mul_float, int_add_float.
  destruct (float_of_int_exact extent ltac:(lia)) as (fe & -> & Mfe & Ufe).
  destruct (float_of_int_exact origin ltac:(lia)) as (fo & -> & Mfo & Ufo).
  cbn [bind]. intros Hz.
  assert (Mp : sf_mag_le 66 (Prim2SF (fe * frac)%float)).
  { rewrite mul_spec. change 66 with (64 + 1 + 1).
    apply SFmul_mag; auto using clamped_float_mag; b64_lia. }
  assert (Ms : sf_mag_le 68 (Prim2SF (fo + fe * frac)%float)).
  { rewrite add_spec. change 68 with (66 + 2).
    apply SFadd_mag; try b64_lia; [|exact Mp].
    apply sf_mag_le_weaken with (2 := Mfo). lia. }
  pose proof (SFmul_clamped (Prim2SF fe) (Prim2SF frac) 64 66
                (Prim2SF_valid fe) (Prim2SF_valid frac) Mfe) as Hmul.
  rewrite <- mul_spec in Hmul.
  destruct Hmul as (Hp & Hp1 & Hp0); auto.
  { rewrite Ufe. apply units_nonneg; [clear - HK; fexp_lia|exact He]. }
  rewrite Ufe in Hp, Hp1.
  assert (Hsum : forall a b,
             0 <= a <= b -> b <= extent ->
             units K a 0 <= sf_units K (Prim2SF (fe * frac)%float) <= units K b 0 ->
             origin + a <= z <= origin + b).
  { intros a b Ha Hb Hab.
    apply (int_of_float_between _ _ _ _ Hz).
    rewrite add_spec.
    apply (SFadd_between _ _ 68); try apply Prim2SF_valid.
    - apply sf_mag_le_weaken with (2 := Mfo). lia.
    - apply sf_mag_le_weaken with (2 := Mp). lia.
    - rewrite <- add_spec. exact Ms.
    - split; [lia|discriminate].
    - split; [lia|discriminate].
    - rewrite Ufo, !units_add. lia. }
  split; [|split].
  - replace origin with (origin + 0) at 1 by lia.
    apply Hsum; try lia. split; [|apply Hp].
    unfold units at 1. rewrite Z.mul_0_l. apply Hp.
  - intros E. subst frac.
    assert (origin + 0 <= z <= origin + 0); [|lia].
    apply Hsum; try lia. rewrite Hp0 by reflexivity.
    unfold units. lia.
  - intros E. subst frac.
    assert (origin + extent <= z <= origin + extent); [|lia].
    apply Hsum; try lia. rewrite Hp1 by reflexivity. lia.
Qed.

End Operations.

(** [int(origin + extent * frac)] for a clamped fraction lies between the
    origin and the far edge, and hits them for 0.0 and 1.0. *)
Lemma scale_to_pixel_in_extent (origin extent : Z) (frac : float) (z : Z) :
  0 <= extent -> Z.abs origin + extent < 2 ^ 53 ->
  sf_clamped (Prim2SF frac) ->
  scale_to_pixel origin extent frac = Ok z ->
  origin <= z <= origin + extent
  /\ (frac = 0%float -> z = origin)
  /\ (frac = 1%float -> z = origin + extent).
Proof. apply (scale_to_pixel_between 2148). discriminate. Qed.

Lemma bbox_exact_in_range (bbox : WindowBBox) :
  bbox_exact bbox -> bbox_in_range bbox.
Proof.
  intros (HW & HH & HL & HT). unfold bbox_in_range.
  assert (2 ^ 53 < 2 ^ 63) by reflexivity. lia.
Qed.

(** ** The relative branch stays in the window *)

(** X17.  Whatever four fractions are given (negative, above 1, infinite
    or NaN), the rectangle of the relative branch starts inside the window
    or on its far edge, and it lies within the window exactly when its
    origin is not on the far edge: it can stick out by the one pixel that
    the floor on width and height adds, never by more. *)
Theorem roi_from_relative_within_window (bbox : WindowBBox) (spec : RelROI) :
  bbox_exact bbox ->
  exists rect,
    _roi_from_relative bbox spec = Ok rect /\
    bb_left bbox <= left rect <= bb_left bbox + bb_width bbox /\
    bb_top bbox <= top rect <= bb_top bbox + bb_height bbox /\
    left rect + width rect <= bb_left bbox + bb_width bbox + 1 /\
    top rect + height rect <= bb_top bbox + bb_height bbox + 1 /\
    (rect_within rect (window_rect bbox)
     <-> left rect < bb_left bbox + bb_width bbox /\
         top rect < bb_top bbox + bb_height bbox).
Proof.
  intros Hx. pose proof Hx as (HW & HH & HL & HT).
  destruct (roi_from_relative_total bbox spec (bbox_exact_in_range bbox Hx))
    as [rect Hr].
  exists rect. split; [exact Hr|].
  destruct spec as [[[l t] r] b]. unfold _roi_from_relative in Hr.
  destruct (scale_to_pixel (bb_left bbox) (bb_width bbox)
              (fmin (clamp01 l) (clamp01 r))) as [x0|] eqn:E0; [|discriminate].
  destruct (scale_to_pixel (bb_top bbox) (bb_height bbox)
              (fmin (clamp01 t) (clamp01 b))) as [y0|] eqn:E1; [|discriminate].
  destruct (scale_to_pixel (bb_left bbox) (bb_width bbox)
              (fmax (clamp01 l) (clamp01 r))) as [x1|] eqn:E2; [|discriminate].
  destruct (scale_to_pixel (bb_top bbox) (bb_height bbox)
              (fmax (clamp01 t) (clamp01 b))) as [y1|] eqn:E3; [|discriminate].
  cbn [bind] in Hr. injection Hr as <-.
  apply scale_to_pixel_in_extent in E0 as [B0 _]; auto with clamped.
  apply scale_to_pixel_in_extent in E1 as [B1 _]; auto with clamped.
  apply scale_to_pixel_in_extent in E2 as [B2 _]; auto with clamped.
  apply scale_to_pixel_in_extent in E3 as [B3 _]; auto with clamped.
  unfold rect_within, window_rect.
  cbn [left top width height]. lia.
Qed.

Lemma roi_from_relative_within_window_witness :
  exists rect,
    _roi_from_relative bbox_800x600 (-0.5, nan, infinity, 0.25)%float = Ok rect /\
    bb_left bbox_800x600 <= left rect
    <= bb_left bbox_800x600 + bb_width bbox_800x600 /\
    bb_top bbox_800x600 <= top rect
    <= bb_top bbox_800x600 + bb_height bbox_800x600 /\
    left rect + width rect <= bb_left bbox_800x600 + bb_width bbox_800x600 + 1 /\
    top rect + height rect <= bb_top bbox_800x600 + bb_height bbox_800x600 + 1 /\
    (rect_within rect (window_rect bbox_800x600)
     <-> left rect < bb_left bbox_800x600 + bb_width bbox_800x600 /\
         top rect < bb_top bbox_800x600 + bb_height bbox_800x600).
Proof.
  apply roi_from_relative_within_window.
  unfold bbox_exact. cbn. lia.
Defined.

(** X18.  A relative specification whose left and top fractions clamp to
    0.0 and whose right and bottom fractions clamp to 1.0, the default
    (0, 0, 1, 1) of /set_roi among them, selects exactly the window: no
    pixel is lost or added by the passage through floating point. *)
Theorem roi_from_relative_spans_window (bbox : WindowBBox) (spec : RelROI) :
  bbox_exact bbox -> 1 <= bb_width bbox -> 1 <= bb_height bbox ->
  spans_window spec ->
  _roi_from_relative bbox spec = Ok (window_rect bbox).
Proof.
  intros Hx HW1 HH1 Hs. pose proof Hx as (HW & HH & HL & HT).
  destruct (roi_from_relative_total bbox spec (bbox_exact_in_range bbox Hx))
    as [rect Hr].
  rewrite Hr. f_equal.
  destruct spec as [[[l t] r] b]. destruct Hs as (El & Et & Er & Eb).
  unfold _roi_from_relative in Hr. rewrite El, Et, Er, Eb in Hr.
  change (fmin 0 1)%float with 0%float in Hr.
  change (fmax 0 1)%float with 1%float in Hr.
  destruct (scale_to_pixel (bb_left bbox) (bb_width bbox) 0) as [x0|] eqn:E0;
    [|discriminate].
  destruct (scale_to_pixel (bb_top bbox) (bb_height bbox) 0) as [y0|] eqn:E1;
    [|discriminate].
  destruct (scale_to_pixel (bb_left bbox) (bb_width bbox) 1) as [x1|] eqn:E2;
    [|discriminate].
  destruct (scale_to_pixel (bb_top bbox) (bb_height bbox) 1) as [y1|] eqn:E3;
    [|discriminate].
  cbn [bind] in Hr. injection Hr as <-.
  assert (C0 : sf_clamped (Prim2SF 0)) by (vm_compute; exact I).
  assert (C1 : sf_clamped (Prim2SF 1)) by (vm_compute; reflexivity).
  apply scale_to_pixel_in_extent in E0 as (_ & B0 & _); auto.
  apply scale_to_pixel_in_extent in E1 as (_ & B1 & _); auto.
  apply scale_to_pixel_in_extent in E2 as (_ & _ & B2); auto.
  apply scale_to_pixel_in_extent in E3 as (_ & _ & B3); auto.
  rewrite (B0 eq_refl), (B1 eq_refl), (B2 eq_refl), (B3 eq_refl).
  unfold window_rect. f_equal; lia.
Qed.

Lemma roi_from_relative_spans_window_witness :
  _roi_from_relative bbox_800x600 (-0.0, -3, nan, 7.5)%float
  = Ok (window_rect bbox_800x600).
Proof.
  apply roi_from_relative_spans_window.
  - unfold bbox_exact. cbn. lia.
  - cbn. lia.
  - cbn. lia.
  - unfold spans_window. repeat split; vm_compute; reflexivity.
Defined.

(** ** The cropped frame and the full window *)

Section FullRoiFacts.

Variables Sct Shot Raster : Type.
Variable sct_grab : Sct -> CaptureRect -> result Shot.
Variable cvtColor_BGRA2BGR : Shot -> result Raster.

(** X19.  When the relative ROI in force spans the window, no border
    clamp is set, and the window that the lookup finds is at least one
    pixel wide and high with edges below 2^53, the cropped capture is the
    full-window capture: the two grabs ask the screen grabber for the same
    rectangle, so [grab_frame]'s [try] body and [grab_full_window] return
    the same image or raise the same exception. *)
Theorem grab_frame_spanning_roi
        (cfg : Config) (st : State) (desktop : list Window) (sct : Sct) :
  resolver_mode cfg st <> "absolute" ->
  spans_window (rel_spec_in_use cfg st) ->
  ROI_CLAMP cfg <= 0 ->
  (forall bbox, find_window_bbox cfg desktop = Ok bbox ->
                bbox_exact bbox /\ 1 <= bb_width bbox /\ 1 <= bb_height bbox) ->
  grab_frame_try Sct Shot Raster sct_grab cvtColor_BGRA2BGR cfg st desktop sct
  = (r <- grab_full_window Sct Shot Raster sct_grab cvtColor_BGRA2BGR
                           cfg desktop sct ;;
     Ok (fst r)).
Proof.
  intros Hm Hs Hc Hd. unfold grab_frame_try, grab_full_window.
  destruct (find_window_bbox cfg desktop) as [bbox|e] eqn:Hf; [|reflexivity].
  cbn [bind].
  destruct (Hd bbox eq_refl) as (Hx & HW & HH).
  rewrite (apply_roi_relative_branch cfg st _ Hm).
  rewrite (roi_from_relative_spans_window _ _ Hx HW HH Hs). cbn [bind].
  rewrite (border_clamp_off _ _ Hc).
  destruct (sct_grab sct (window_rect bbox)) as [shot|e];
    [|reflexivity].
  cbn [bind]. destruct (cvtColor_BGRA2BGR shot); reflexivity.
Qed.

End FullRoiFacts.

Lemma grab_frame_spanning_roi_witness :
  grab_frame_try unit CaptureRect CaptureRect echo_sct_grab echo_cvtColor
                 full_roi_config initial_state [win_other; win_visible] tt
  = (r <- grab_full_window unit CaptureRect CaptureRect echo_sct_grab
                           echo_cvtColor full_roi_config
                           [win_other; win_visible] tt ;;
     Ok (fst r)).
Proof.
  apply grab_frame_spanning_roi.
  - discriminate.
  - unfold spans_window. cbn. repeat split; vm_compute; reflexivity.
  - cbn. lia.
  - intros bbox H. vm_compute in H. injection H as <-.
    unfold bbox_exact. cbn. lia.
Defined.

(** The condition on the window is needed: for a window of width zero the
    cropped capture asks for one pixel, the full-window capture for none. *)
Example grab_frame_zero_width_window :
  grab_frame_try unit CaptureRect CaptureRect echo_sct_grab echo_cvtColor
                 full_roi_config initial_state
                 [{| title := "DMV-Viewer"; isMinimized := false;
                     w_left := 100; w_top := 50;
                     w_right := 100; w_bottom := 650 |}] tt
  = Ok (Img_bgr {| left := 100; top := 50; width := 1; height := 600 |})
  /\
  grab_full_window unit CaptureRect CaptureRect echo_sct_grab echo_cvtColor
                   full_roi_config
                   [{| title := "DMV-Viewer"; isMinimized := false;
                       w_left := 100; w_top := 50;
                       w_right := 100; w_bottom := 650 |}] tt
  = Ok (Img_bgr {| left := 100; top := 50; width := 0; height := 600 |},
        {| bb_title := "DMV-Viewer"; bb_top := 50; bb_left := 100;
           bb_width := 0; bb_height := 600 |}).
Proof. split; vm_compute; reflexivity. Qed.

(** ** Pacing of the stream *)

Lemma valid_normal (sg : bool) (m : positive) (e : Z) :
  valid_binary (S754_finite sg m e) = true -> emin < e -> 2 ^ 52 <= Zpos m.
Proof.
  intros Hv He.
  cbn [SpecFloat.valid_binary] in Hv. unfold bounded, canonical_mantissa in Hv.
  apply andb_true_iff in Hv as [Hc _]. apply Z.eqb_eq in Hc.
  assert (Hd : Zdigits2 (Zpos m) = 53) by (cbn [Zdigits2]; fexp_lia).
  pose proof (Zdigits2_ge_pow2 (Zpos m) ltac:(lia)) as H.
  now rewrite Hd in H.
Qed.

Section Order.

Variable K : Z.
Hypothesis HK : 0 <= emin + K.

(** Between valid positive numbers a smaller exponent means a smaller
    value. *)
Lemma units_lt_of_exponent (m1 m2 : positive) (e1 e2 : Z) :
  valid_binary (S754_finite false m1 e1) = true ->
  valid_binary (S754_finite false m2 e2) = true ->
  e1 < e2 -> units K (Zpos m1) e1 < units K (Zpos m2) e2.
Proof.
  intros V1 V2 He.
  destruct (valid_finite_facts _ _ _ V1) as (He1 & Hm1).
  pose proof (valid_normal _ _ _ V2 ltac:(lia)) as Hm2.
  assert (H1 : units K (Zpos m1) e1 < 2 ^ (53 + e1 + K)).
  { rewrite <- units_pow by lia. apply units_lt_iff; lia. }
  assert (H2 : 2 ^ (52 + e2 + K) <= units K (Zpos m2) e2).
  { rewrite <- units_pow by lia. apply units_le_iff; lia. }
  assert (H3 : 2 ^ (53 + e1 + K) <= 2 ^ (52 + e2 + K))
    by (apply Z.pow_le_mono_r; lia).
  lia.
Qed.

Lemma SFltb_units (x y : spec_float) (kk : Z) :
  valid_binary x = true -> valid_binary y = true ->
  match x, y with
  | S754_finite _ _ _, S754_finite _ _ _ => True
  | _, _ => False
  end ->
  SFltb x y = true -> sf_units K x < sf_units K y.
Proof.
  intros Vx Vy Hf. unfold SFltb.
  destruct x as [| | |sx mx ex]; try contradiction.
  destruct y as [| | |sy my ey]; try contradiction.
  destruct (valid_finite_facts _ _ _ Vx) as (Hex & _).
  destruct (valid_finite_facts _ _ _ Vy) as (Hey & _).
  pose proof (units_pos K (Zpos mx) ex ltac:(lia) ltac:(lia)) as Px.
  pose proof (units_pos K (Zpos my) ey ltac:(lia) ltac:(lia)) as Py.
  cbn [SFcompare sf_units].
  destruct sx, sy; cbn [cond_Zopp]; try discriminate; try lia.
  - (* both negative *)
    destruct (ex ?= ey) eqn:He; try discriminate.
    + apply Z.compare_eq in He. subst ey.
      destruct (Pos.compare_cont Eq mx my) eqn:Hm; try discriminate.
      intros _.
      assert (Hgt : (my < mx)%positive).
      { apply Pos.gt_lt. unfold Pos.gt, Pos.compare. exact Hm. }
      apply Pos2Z.pos_lt_pos in Hgt.
      apply (units_lt_iff K _ _ ex) in Hgt; lia.
    + intros _. assert (He' : ey < ex) by (apply Z.gt_lt; exact He).
      pose proof (units_lt_of_exponent my mx ey ex Vy Vx He'). lia.
  - (* both positive *)
    destruct (ex ?= ey) eqn:He; try discriminate.
    + apply Z.compare_eq in He. subst ey.
      destruct (Pos.compare_cont Eq mx my) eqn:Hm; try discriminate.
      intros _.
      assert (Hlt : (mx < my)%positive).
      { unfold Pos.lt, Pos.compare. exact Hm. }
      apply Pos2Z.pos_lt_pos in Hlt.
      apply (units_lt_iff K _ _ ex) in Hlt; lia.
    + intros _. assert (He' : ex < ey) by exact He.
      apply (units_lt_of_exponent mx my ex ey Vx Vy He').
Qed.

(** The difference of two doubles, the first one greater, is positive:
    it is at least the smallest subnormal, or positive infinity. *)
Lemma SFsub_positive (x y : spec_float) :
  valid_binary x = true -> valid_binary y = true ->
  SFltb y x = true ->
  SFltb (S754_zero false) (SFsub prec emax x y) = true.
Proof.
  intros Vx Vy Hlt.
  destruct x as [sx|sx| |sx mx ex], y as [sy|sy| |sy my ey];
    try discriminate;
    try solve [repeat match goal with s : bool |- _ => destruct s end;
               first [discriminate | reflexivity]].
  - (* a finite difference *)
    pose proof (SFltb_units _ _ 0 Vy Vx I Hlt) as Hu.
    destruct (valid_finite_facts _ _ _ Vx) as (Hex & _).
    destruct (valid_finite_facts _ _ _ Vy) as (Hey & _).
    cbn [SFsub]. change IntDef.Z.min with Z.min. set (ez := Z.min ex ey).
    assert (Hez : emin <= ez /\ ez <= ex /\ ez <= ey) by (unfold ez; lia).
    assert (HezK : 0 <= ez + K) by (clear - HK Hez; lia).
    set (D := cond_Zopp sx (Zpos (fst (shl_align mx ex ez)))
              - cond_Zopp sy (Zpos (fst (shl_align my ey ez)))).
    assert (HD : units K D ez = sf_units K (S754_finite sx mx ex)
                                - sf_units K (S754_finite sy my ey)).
    { unfold D. replace (units K (_ - _) ez)
        with (units K (cond_Zopp sx (Zpos (fst (shl_align mx ex ez)))) ez
              - units K (cond_Zopp sy (Zpos (fst (shl_align my ey ez)))) ez)
        by (unfold units; ring).
      rewrite !units_cond_Zopp.
      rewrite (shl_align_value mx ex ez), (shl_align_value my ey ez) by lia.
      rewrite !units_shift by lia.
      replace (ez + (ex - ez)) with ex by lia.
      replace (ez + (ey - ez)) with ey by lia.
      reflexivity. }
    assert (HDpos : 0 < D).
    { destruct (Z_lt_le_dec 0 D) as [H|H]; [exact H|exfalso].
      assert (units K D ez <= 0).
      { unfold units. pose proof (pow2_pos (ez + K) HezK). nia. }
      lia. }
    clearbody D. destruct D as [|p|p]; try lia. clear HD HDpos Hu.
    cbn [binary_normalize]. unfold binary_round.
    pose proof (shl_align_units K p ez (fexp prec emax (Zpos (digits2_pos p) + ez))
                  HezK ltac:(clear - HK; fexp_lia)) as [Ea Hea].
    destruct (shl_align p ez _) as [mz ez']. cbn [fst snd] in Ea, Hea.
    destruct (binary_round_aux_sandwich K HK false (Zpos mz) ez' ltac:(lia) Hea)
      as (m3 & e3 & Hm3 & He3 & Hr & _ & Hlo).
    rewrite Hr. rewrite Ea in Hlo.
    assert (R1 : representable 1 emin) by (split; [split; [lia|reflexivity]|lia]).
    assert (H1 : units K 1 emin <= units K (Zpos p) ez).
    { apply Z.le_trans with (units K 1 ez).
      - unfold units. rewrite !Z.mul_1_l. apply Z.pow_le_mono_r; lia.
      - apply units_le_iff; lia. }
    specialize (Hlo 1 emin R1 H1).
    pose proof (units_pos K 1 emin HK ltac:(lia)) as P1.
    unfold round_result. destruct m3 as [|q|q]; [| |lia].
    + unfold units in Hlo at 2. lia.
    + destruct (e3 <=? emax - prec); reflexivity.
Qed.

End Order.

Lemma ltb_sub_positive (a b : float) :
  (a <? b)%float = true -> (0 <? b - a)%float = true.
Proof.
  rewrite !ltb_spec, sub_spec, Prim2SF_zero. intros H.
  apply (SFsub_positive 1074); auto using Prim2SF_valid. discriminate.
Qed.

Section PacingFacts.

Variables Sct Shot Raster : Type.
Variable mss_mss : result Sct.
Variable sct_grab : Sct -> CaptureRect -> result Shot.
Variable cvtColor_BGRA2BGR : Shot -> result Raster.
Variable cv2_imencode_jpg : Image Raster -> Z -> result (bool * list byte).

(** X20.  The generator never asks for a negative or NaN pause: every
    duration it passes to [time.sleep], in any run and for any readings of
    the clock (a clock that stepped backwards included), is greater than
    zero, so [time.sleep] cannot raise ValueError and end the stream. *)
Theorem mjpeg_generator_sleeps_positive
        (FPS : Z) (cfg : Config) (ticks : list Tick) (events : list Event)
        (d : float) :
  mjpeg_generator Sct Shot Raster mss_mss sct_grab cvtColor_BGRA2BGR
                  cv2_imencode_jpg FPS cfg ticks = Ok events ->
  In (Sleep d) events -> (0 <? d)%float = true.
Proof.
  unfold mjpeg_generator.
  destruct (frame_interval FPS) as [fi|e]; [|discriminate].
  destruct mss_mss as [sct|e]; [|discriminate]. cbn [bind].
  intros E. injection E as <-. rewrite in_flat_map.
  intros (tk & _ & Hin). unfold mjpeg_iteration in Hin.
  destruct (grab_frame _ _ _ _ _ _ _ _ _) as [img err].
  apply in_app_or in Hin as [Hin|Hin].
  - destruct err; [destruct Hin as [Hin|[]]|destruct Hin]. discriminate.
  - destruct (encode_jpeg Raster cv2_imencode_jpg cfg img) as [frame|e].
    + destruct Hin as [Hin|Hin]; [discriminate|].
      destruct (tick_t1 tk - tick_t0 tk <? fi)%float eqn:Hlt; [|destruct Hin].
      destruct Hin as [Hin|[]]. injection Hin as <-.
      now apply ltb_sub_positive.
    + destruct Hin as [Hin|[Hin|[]]]; [discriminate|].
      injection Hin as <-. vm_compute. reflexivity.
Qed.

End PacingFacts.

Lemma mjpeg_generator_sleeps_positive_witness :
  (0 <? 0.1 - (99.5 - 100))%float = true.
Proof.
  apply (mjpeg_generator_sleeps_positive unit unit unit (Ok tt) demo_sct_grab
           demo_cvtColor demo_imencode 10 shipped_config
           [ {| tick_state := initial_state; tick_desktop := [win_minimized];
                tick_t0 := 100; tick_t1 := 99.5 |} ]
           [ Log_warning "Frame error: Window 'DMV-Viewer' is minimized";
             Yield (mjpeg_part [xff; xd8]);
             Sleep (0.1 - (99.5 - 100)) ]).
  - vm_compute. reflexivity.
  - right. right. left. reflexivity.
Defined.
